(** * Twilight Tales: the round-based session core

    A shallow embedding of [server/game-state-manager.ts], of the rate
    limit, the moral and the vote functions of [server/ai-service.ts] and
    of the handlers and the per-participant view of
    [server/socket-handler.ts], followed by the properties of the session
    protocol that are established on them.

    Conventions of the embedding.
    - The manager's [Map<string, Game>] is a [gmap string Game]; a method
      that mutates the [Game] it looked up returns the map with the game
      stored back under its id.
    - A player or submission object that the code holds on to and mutates
      is the first one of its array with that id; ids are uuids, so it is
      the only one.
    - [Math.random()] and [uuidv4()] are inputs: every function that draws
      takes its draws as arguments.  A draw that the code compares with a
      constant, or scales by a length and floors to an index, is a
      rational in [0,1); the draw of the simulated vote, which the code
      multiplies with a sum of weights, is a double.
      [sort(() => Math.random() - 0.5)] is given the order it produced.
    - Numbers that the code only counts with (votes, scores) are [nat];
      card ids, the round number and the settings are [Z]; the weights of
      the simulated vote are doubles as in the code: Rocq's primitive
      [float], whose operations are those of IEEE 754 binary64 with
      rounding to nearest, ties to even.
    - Timers ([setTimeout]) are returned as a list of scheduled tasks; the
      body of each task is a function of its own.  What an [await] resumes
      is a function of its own as well.
    - The card data, loaded once by the manager's constructor, is an
      argument of the functions that read it.
    - A [string] holds the UTF-8 bytes of a JavaScript string, as the
      source files do; [js_length] and [js_prefix] count in UTF-16 code
      units, as [.length] and [.substring] do. *)

From Stdlib Require Import PrimFloat.
From Stdlib Require Uint63.
From Stdlib Require Import ZArith QArith Qround Ascii String List Permutation Lia.
From stdpp Require Import gmap strings list.

Open Scope string_scope.
Open Scope list_scope.
Open Scope Z_scope.

(** ** JavaScript values *)

(** A property that is optional and nullable: [x?: T | null]. *)
Inductive nullable (A : Type) : Type :=
  | undefined : nullable A
  | null : nullable A
  | value : A -> nullable A.
Arguments undefined {A}.
Arguments null {A}.
Arguments value {A} _.

(** [x !== null] (an absent property is not [null]). *)
Definition not_null {A} (x : nullable A) : bool :=
  match x with null => false | _ => true end.

(** Truthiness of an optional string: absent, [null] and the empty string
    are falsy. *)
Definition truthy_string (x : nullable string) : bool :=
  match x with
  | value s => negb (String.eqb s "")
  | _ => false
  end.

(** Truthiness of a [string | null]. *)
Definition truthy_moral (x : option string) : bool :=
  match x with
  | Some s => negb (String.eqb s "")
  | None => false
  end.

(** [a || b] on strings. *)
Definition or_string (a b : string) : string :=
  if String.eqb a "" then b else a.

(** [a[i] = x] on an array, for [i <= a.length] (the indexes that
    [Math.floor(Math.random() * a.length)] can produce): inside the array
    the slot is overwritten, at its end the array grows by one. *)
Definition array_set {A} (a : list A) (i : nat) (x : A) : list A :=
  if decide (i < length a)%nat then <[i:=x]> a else a ++ [x].

(** [a.sort(() => Math.random() - 0.5)]: the comparator ignores its
    arguments, so the outcome is the elements of [a] in an order fixed by
    the draws.  [order] lists, for each position of the result, the index
    in [a] of the element that landed there. *)
Definition sort_random {A} (order : list nat) (a : list A) : list A :=
  omap (fun i => a !! i) order.

(** [Math.floor(r * n)] for a draw [r].  The product is taken exactly
    here and rounded to a double in the code; both end below [n], and
    which index below [n] comes out is all the draw decides. *)
Definition random_index (r : Q) (n : nat) : nat :=
  Z.to_nat (Qfloor (r * inject_Z (Z.of_nat n))).

(** A count or a length as a number; the conversion is exact below
    [2^53], where the counts and lengths of the code lie. *)
Definition number_of_nat (n : nat) : float :=
  PrimFloat.of_uint63 (Uint63.of_Z (Z.of_nat n)).

(** [Math.min(a, b)] *)
Definition Math_min (a b : float) : float :=
  if PrimFloat.is_nan a then a
  else if PrimFloat.is_nan b then b
  else if PrimFloat.ltb a b then a
  else if PrimFloat.ltb b a then b
  else if PrimFloat.get_sign a then a else b.

(** The UTF-16 code units a byte of UTF-8 stands for: one for the first
    byte of a sequence of one, two or three bytes, two for the first byte
    of a sequence of four (a surrogate pair), none for a continuation
    byte. *)
Definition utf16_units (c : ascii) : nat :=
  let b := N_of_ascii c in
  if (b <? 128)%N then 1%nat
  else if (b <? 192)%N then 0%nat
  else if (b <? 240)%N then 1%nat
  else 2%nat.

(** [s.length] *)
Fixpoint js_length (s : string) : nat :=
  match s with
  | EmptyString => 0%nat
  | String c s' => (utf16_units c + js_length s')%nat
  end.

(** The high surrogate of the code point whose four bytes are [c] and
    the first three bytes of [s], as the three bytes of a code point of
    its own: what is left of a surrogate pair cut in two. *)
Definition high_surrogate (c : ascii) (s : string) : string :=
  let byte i :=
    match String.get i s with
    | Some b => (N_of_ascii b mod 64)%N
    | None => 0%N
    end in
  let codePoint :=
    ((N_of_ascii c mod 8) * 262144 + byte 0%nat * 4096 + byte 1%nat * 64
     + byte 2%nat)%N in
  let high := (55296 + (codePoint - 65536) / 1024 mod 1024)%N in
  String (ascii_of_N 237)
    (String (ascii_of_N (128 + high / 64 mod 64))
       (String (ascii_of_N (128 + high mod 64)) EmptyString)).

(** [s.substring(0, n)]: the first [n] code units. *)
Fixpoint js_prefix (n : nat) (s : string) : string :=
  match s with
  | EmptyString => EmptyString
  | String c s' =>
      match utf16_units c, n with
      | O, _ => String c (js_prefix n s')
      | _, O => EmptyString
      | S O, S n' => String c (js_prefix n' s')
      | S (S _), S O => high_surrogate c s'
      | S (S _), S (S n') => String c (js_prefix n' s')
      end
  end.

Definition Qltb (a b : Q) : bool := negb (Qle_bool b a).

(** [a % b] of JavaScript on integers: the sign follows the dividend. *)
Definition js_rem (a b : Z) : Z := Z.rem a b.

(** ** shared/schema.ts *)

Inductive cardType : Type :=
  | LOCATION | CHARACTER | INITIAL_TWIST | ESCALATION | FINAL_TWIST.

#[global] Instance cardType_eq_dec : EqDecision cardType.
Proof. solve_decision. Defined.

(** The string each member of [cardTypes] stands for. *)
Definition cardTypeName (t : cardType) : string :=
  match t with
  | CHARACTER => "character"
  | LOCATION => "location"
  | INITIAL_TWIST => "initialTwist"
  | ESCALATION => "escalation"
  | FINAL_TWIST => "finalTwist"
  end.

Module gameStatus.
Inductive t : Type := LOBBY | ACTIVE | COMPLETED.
#[global] Instance eq_dec : EqDecision t.
Proof. solve_decision. Defined.
End gameStatus.

Module roundStatus.
Inductive t : Type :=
    | WAITING | DEALING | SELECTION | STORYTELLING | VOTING | RESULTS
    | COMPLETED.
#[global] Instance eq_dec : EqDecision t.
Proof. solve_decision. Defined.
End roundStatus.

Module Card.
Record t : Type := mk {
    id : Z;
    text : string;
    type : string;
    isCustom : bool;
    customPrompt : option string
  }.
Definition with_text (v : string) (c : t) : t :=
    mk (id c) v (type c) (isCustom c) (customPrompt c).
End Card.
Abbreviation Card := Card.t.

Module Player.
  (** The optional flags [isHost], [isAI], [isThinking] and [hasVoted] are
      only ever tested for truthiness, so an absent flag is [false]. *)
Record t : Type := mk {
    id : string;
    name : string;
    isHost : bool;
    isAI : bool;
    isThinking : bool;
    score : nat;
    currentCardType : option cardType;
    hand : option (list Card);
    selectedCard : nullable Z;
    submittedMoral : nullable string;
    hasVoted : bool
  }.
Definition with_isHost (v : bool) (p : t) : t :=
    mk (id p) (name p) v (isAI p) (isThinking p) (score p)
       (currentCardType p) (hand p) (selectedCard p) (submittedMoral p)
       (hasVoted p).
Definition with_isThinking (v : bool) (p : t) : t :=
    mk (id p) (name p) (isHost p) (isAI p) v (score p)
       (currentCardType p) (hand p) (selectedCard p) (submittedMoral p)
       (hasVoted p).
Definition with_score (v : nat) (p : t) : t :=
    mk (id p) (name p) (isHost p) (isAI p) (isThinking p) v
       (currentCardType p) (hand p) (selectedCard p) (submittedMoral p)
       (hasVoted p).
Definition with_currentCardType (v : option cardType) (p : t) : t :=
    mk (id p) (name p) (isHost p) (isAI p) (isThinking p) (score p)
       v (hand p) (selectedCard p) (submittedMoral p) (hasVoted p).
Definition with_hand (v : option (list Card)) (p : t) : t :=
    mk (id p) (name p) (isHost p) (isAI p) (isThinking p) (score p)
       (currentCardType p) v (selectedCard p) (submittedMoral p)
       (hasVoted p).
Definition with_selectedCard (v : nullable Z) (p : t) : t :=
    mk (id p) (name p) (isHost p) (isAI p) (isThinking p) (score p)
       (currentCardType p) (hand p) v (submittedMoral p) (hasVoted p).
Definition with_submittedMoral (v : nullable string) (p : t) : t :=
    mk (id p) (name p) (isHost p) (isAI p) (isThinking p) (score p)
       (currentCardType p) (hand p) (selectedCard p) v (hasVoted p).
Definition with_hasVoted (v : bool) (p : t) : t :=
    mk (id p) (name p) (isHost p) (isAI p) (isThinking p) (score p)
       (currentCardType p) (hand p) (selectedCard p) (submittedMoral p) v.
End Player.
Abbreviation Player := Player.t.

Module Submission.
Record t : Type := mk {
    playerId : string;
    cardId : Z;
    moral : option string;
    votes : nat;
    hasVoted : bool
  }.
Definition with_moral (v : option string) (s : t) : t :=
    mk (playerId s) (cardId s) v (votes s) (hasVoted s).
Definition with_votes (v : nat) (s : t) : t :=
    mk (playerId s) (cardId s) (moral s) v (hasVoted s).
Definition with_hasVoted (v : bool) (s : t) : t :=
    mk (playerId s) (cardId s) (moral s) (votes s) v.
End Submission.
Abbreviation Submission := Submission.t.

Module Round.
Record t : Type := mk {
    number : Z;
    status : roundStatus.t;
    story : string;
    submissions : list Submission
  }.
Definition with_number (v : Z) (r : t) : t :=
    mk v (status r) (story r) (submissions r).
Definition with_status (v : roundStatus.t) (r : t) : t :=
    mk (number r) v (story r) (submissions r).
Definition with_story (v : string) (r : t) : t :=
    mk (number r) (status r) v (submissions r).
Definition with_submissions (v : list Submission) (r : t) : t :=
    mk (number r) (status r) (story r) v.
End Round.
Abbreviation Round := Round.t.

Module Settings.
Record t : Type := mk { maxPlayers : Z; roundsToPlay : Z }.
End Settings.

Module Game.
Record t : Type := mk {
    gameId : string;
    status : gameStatus.t;
    players : list Player;
    round : Round;
    settings : Settings.t
  }.
Definition with_status (v : gameStatus.t) (g : t) : t :=
    mk (gameId g) v (players g) (round g) (settings g).
Definition with_players (v : list Player) (g : t) : t :=
    mk (gameId g) (status g) v (round g) (settings g).
Definition with_round (v : Round) (g : t) : t :=
    mk (gameId g) (status g) (players g) v (settings g).
  (** [game.round.status = v] *)
Definition with_round_status (v : roundStatus.t) (g : t) : t :=
    with_round (Round.with_status v (round g)) g.
Definition with_submissions (v : list Submission) (g : t) : t :=
    with_round (Round.with_submissions v (round g)) g.
End Game.
Abbreviation Game := Game.t.

(** The decks of [loadCardData]. *)
Record CardData : Type := {
  locationCards : list Card;
  characterCards : list Card;
  initialTwistCards : list Card;
  escalationCards : list Card;
  finalTwistCards : list Card
}.

(** ** Array helpers *)

(** [a.findIndex(f)], [None] standing for [-1]. *)
Fixpoint findIndex {A} (f : A -> bool) (a : list A) : option nat :=
  match a with
  | [] => None
  | x :: a' => if f x then Some 0%nat else S <$> findIndex f a'
  end.

(** Apply [upd] to the object [a.find(f)] returns: the first match is
    mutated in place. *)
Fixpoint update_first {A} (f : A -> bool) (upd : A -> A) (a : list A)
  : list A :=
  match a with
  | [] => []
  | x :: a' => if f x then upd x :: a' else x :: update_first f upd a'
  end.

Definition has_id (pid : string) (p : Player) : bool :=
  String.eqb (Player.id p) pid.

Definition of_player (pid : string) (s : Submission) : bool :=
  String.eqb (Submission.playerId s) pid.

(** ** server/game-state-manager.ts *)

(** The five role types, in the order [assignCardTypes] lists them. *)
Definition types : list cardType :=
  [LOCATION; CHARACTER; INITIAL_TWIST; ESCALATION; FINAL_TWIST].

(** [types[i]] for a JavaScript integer [i]: [undefined] outside the array. *)
Definition types_at (i : Z) : option cardType :=
  if i <? 0 then None else types !! Z.to_nat i.

(** [generateGameId]: [candidates] are the ids the random expression
    yields on successive iterations; the loop stops at the first one that
    is not in use. *)
Definition generateGameId (candidates : list string)
    (games : gmap string Game) : option string :=
  List.find (fun c => bool_decide (games !! c = None)) candidates.

Definition createGame (candidates : list string) (host : Player)
    (games : gmap string Game) : option (gmap string Game * string) :=
  match generateGameId candidates games with
  | None => None
  | Some gameId =>
      let newHost := Player.with_isHost true (Player.with_score 0%nat host) in
      let newGame :=
        Game.mk gameId gameStatus.LOBBY [newHost]
          (Round.mk 0 roundStatus.WAITING "" [])
          (Settings.mk 5 3) in
      Some (<[gameId:=newGame]> games, gameId)
  end.

Definition joinGame (gameId : string) (player : Player)
    (games : gmap string Game) : gmap string Game * bool :=
  match games !! gameId with
  | None => (games, false)
  | Some game =>
      if negb (bool_decide (Game.status game = gameStatus.LOBBY))
      then (games, false)
      else if Z.of_nat (length (Game.players game))
                >=? Settings.maxPlayers (Game.settings game)
      then (games, false)
      else
        let newPlayer := Player.with_score 0%nat player in
        (<[gameId:=Game.with_players (Game.players game ++ [newPlayer]) game]>
           games, true)
  end.

(** The player object [addAIPlayers] builds from a fresh uuid and a
    generated name. *)
Definition aiPlayer (idname : string * string) : Player :=
  Player.mk (fst idname) (snd idname) false true false 0%nat None None
    undefined undefined false.

(** [fresh i] is the uuid and the name drawn on iteration [i]. *)
Definition addAIPlayers (fresh : nat -> string * string) (game : Game)
  : Game :=
  let totalPlayersNeeded := 5 in
  let maxPlayersAllowed := Settings.maxPlayers (Game.settings game) in
  let currentHumanCount := Z.of_nat (length (Game.players game)) in
  let aiCountNeeded := totalPlayersNeeded - currentHumanCount in
  let availableSlots := maxPlayersAllowed - currentHumanCount in
  let aiCount := Z.min availableSlots (Z.max 0 aiCountNeeded) in
  Game.with_players
    (Game.players game
       ++ List.map (fun i => aiPlayer (fresh i)) (seq 0 (Z.to_nat aiCount)))
    game.

(** [(game.round.number - 1) % types.length] *)
Definition roundOffset (game : Game) : Z :=
  js_rem (Round.number (Game.round game) - 1) (Z.of_nat (length types)).

(** [a.forEach((x, i) => ...)] with the state the callback mutates
    threaded through; [i] is the index of the first element of [a]. *)
Fixpoint forEachi {A S} (f : S -> A -> nat -> S) (i : nat) (a : list A)
    (s : S) : S :=
  match a with
  | [] => s
  | x :: a' => forEachi f (Datatypes.S i) a' (f s x i)
  end.

(** The callback of the [forEach] of [assignCardTypes]. *)
Definition assignRole (roundOffset : Z) (players : list Player)
    (playerIdx i : nat) : list Player :=
  let typeIndex :=
    js_rem (Z.of_nat i + roundOffset) (Z.of_nat (length types)) in
  alter (Player.with_currentCardType (types_at typeIndex)) playerIdx players.

(** [order] is the outcome of sorting the player indexes with the random
    comparator. *)
Definition assignCardTypes (order : list nat) (game : Game) : Game :=
  let shuffledIndexes :=
    sort_random order (seq 0 (length (Game.players game))) in
  Game.with_players
    (forEachi (assignRole (roundOffset game)) 0 shuffledIndexes
       (Game.players game))
    game.

(** [type.charAt(0).toUpperCase() + type.slice(1)], on ASCII letters. *)
Definition capitalize (s : string) : string :=
  match s with
  | EmptyString => EmptyString
  | String c rest =>
      let n := nat_of_ascii c in
      String (if ((97 <=? n) && (n <=? 122))%nat
              then ascii_of_nat (n - 32) else c) rest
  end.

Definition createBlankCard (type : string) (id : Z) : Card :=
  let typeName := capitalize type in
  Card.mk id "" type true (Some (String.append "Enter your custom " typeName)).

(** [getRandomCards(deck, count)]: shuffle a copy, keep the first [count]. *)
Definition getRandomCards {T} (order : list nat) (deck : list T)
    (count : nat) : list T :=
  let shuffled := sort_random order deck in
  take count shuffled.

(** The draws [dealCards] makes for one player: the shuffle of the deck,
    the draw compared with [CUSTOM_CARD_CHANCE] and the draw that picks
    the slot to replace. *)
Record DealDraw : Type := {
  deckOrder : list nat;
  customChance : Q;
  replaceSlot : Q
}.

Definition CUSTOM_CARD_ID_START : Z := 10000.
Definition CUSTOM_CARD_CHANCE : Q := 2 # 10.

(** The deck [dealCards] switches to: no case matches an absent role. *)
Definition deckFor (cardData : CardData) (t : option cardType) : list Card :=
  match t with
  | Some LOCATION => locationCards cardData
  | Some CHARACTER => characterCards cardData
  | Some INITIAL_TWIST => initialTwistCards cardData
  | Some ESCALATION => escalationCards cardData
  | Some FINAL_TWIST => finalTwistCards cardData
  | None => []
  end.

(** Every card the decks hold. *)
Definition deckCards (cardData : CardData) : list Card :=
  locationCards cardData ++ characterCards cardData
  ++ initialTwistCards cardData ++ escalationCards cardData
  ++ finalTwistCards cardData.

(** The body of the [forEach] of [dealCards] for one player;
    [nextCustomCardId] is threaded through. *)
Definition dealPlayer (cardData : CardData) (nextCustomCardId : Z)
    (player : Player) (d : DealDraw) : Z * Player :=
  let deck := deckFor cardData (Player.currentCardType player) in
  let hand := getRandomCards (deckOrder d) deck 3 in
  if negb (Player.isAI player) && Qltb (customChance d) CUSTOM_CARD_CHANCE
  then
    let replaceIndex := random_index (replaceSlot d) (length hand) in
    let blank :=
      createBlankCard
        (match Player.currentCardType player with
         | Some t => cardTypeName t
         | None => "unknown"
         end)
        nextCustomCardId in
    (nextCustomCardId + 1,
     Player.with_hand (Some (array_set hand replaceIndex blank)) player)
  else (nextCustomCardId, Player.with_hand (Some hand) player).

Fixpoint dealPlayers (cardData : CardData) (nextCustomCardId : Z)
    (players : list Player) (draws : list DealDraw) : list Player :=
  match players, draws with
  | player :: players', d :: draws' =>
      let '(next, player') := dealPlayer cardData nextCustomCardId player d in
      player' :: dealPlayers cardData next players' draws'
  | _, _ => players
  end.

(** [draws] holds one [DealDraw] per player, in player order. *)
Definition dealCards (cardData : CardData) (draws : list DealDraw)
    (game : Game) : Game :=
  Game.with_players
    (dealPlayers cardData CUSTOM_CARD_ID_START (Game.players game) draws)
    game.

(** The draws of one [startNewRound]. *)
Record RoundDraws : Type := {
  roleOrder : list nat;
  deals : list DealDraw
}.

Definition resetPlayer (player : Player) : Player :=
  Player.with_isThinking false
    (Player.with_hasVoted false
       (Player.with_submittedMoral null
          (Player.with_selectedCard null player))).

Definition startNewRound (cardData : CardData) (draws : RoundDraws)
    (gameId : string) (games : gmap string Game) : gmap string Game :=
  match games !! gameId with
  | None => games
  | Some game =>
      if bool_decide (Game.status game = gameStatus.COMPLETED) then games
      else if Round.number (Game.round game)
                >=? Settings.roundsToPlay (Game.settings game)
      then
        <[gameId:=Game.with_round_status roundStatus.COMPLETED
                    (Game.with_status gameStatus.COMPLETED game)]> games
      else
        let round := Game.round game in
        let round :=
          if negb (bool_decide (Round.status round = roundStatus.WAITING))
          then Round.with_number (Round.number round + 1) round
          else round in
        let round :=
          Round.with_submissions []
            (Round.with_story ""
               (Round.with_status roundStatus.SELECTION round)) in
        let game := Game.with_round round game in
        let game :=
          Game.with_players (List.map resetPlayer (Game.players game)) game in
        let game := assignCardTypes (roleOrder draws) game in
        let game := dealCards cardData (deals draws) game in
        <[gameId:=game]> games
  end.

Definition startGame (cardData : CardData) (fresh : nat -> string * string)
    (draws : RoundDraws) (gameId : string) (games : gmap string Game)
  : gmap string Game * bool :=
  match games !! gameId with
  | None => (games, false)
  | Some game =>
      if negb (bool_decide (Game.status game = gameStatus.LOBBY))
      then (games, false)
      else if (length (Game.players game) <? 1)%nat then (games, false)
      else
        let game := addAIPlayers fresh game in
        let game := Game.with_status gameStatus.ACTIVE game in
        let game := Game.with_round (Round.with_number 1 (Game.round game)) game in
        (startNewRound cardData draws gameId (<[gameId:=game]> games), true)
  end.

(** ** server/ai-service.ts *)

(** What a function body produced: a value, or an exception. *)
Inductive outcome (A : Type) : Type :=
  | Returned : A -> outcome A
  | Thrown : outcome A.
Arguments Returned {A} _.
Arguments Thrown {A}.

(** What the call of the text-generation service came to.  [Responded m]
    carries the reply after [trim] and the removal of the
    "The moral of this story is" prefix ([""] for a reply that is not a
    text block). *)
Inductive ApiOutcome : Type :=
  | Unavailable   (* no API key, or the rate limit is exceeded *)
  | Responded (moral : string)
  | Rejected      (* the request failed *)
  | TimedOut.     (* the 10 second timeout won the race *)

(** The calls that end on the fallback path. *)
Definition api_failed (api : ApiOutcome) : Prop :=
  match api with
  | Responded _ => False
  | _ => True
  end.

Definition fallbackMorals : list string :=
  [ "In life's twisted game, the cards we're dealt matter less than how we choose to play them.";
    "Sometimes the most frightening monsters are the ones we create in our own minds.";
    "Be careful what you wish forâ€”the universe has a peculiar sense of humor.";
    "Reality is merely a thin veil, easily torn by those who look too closely.";
    "In trying to control fate, we often become puppets of our own design.";
    "The greatest deception is the one we perpetrate upon ourselves.";
    "The boundaries between imagination and reality are but shadows on the wall.";
    "Destiny follows no script but the one written by our choices.";
    "The key to wisdom is knowing that some doors are better left unopened.";
    "In the twilight between logic and fear lies the truth we dare not face." ].

Definition generateFallbackMoral (story : string) : string :=
  let storyLength := js_length story in
  let selectedIndex := (storyLength mod length fallbackMorals)%nat in
  nth selectedIndex fallbackMorals "".

(** The [try] block of [generateAIMoral]. *)
Definition generateAIMoral_try (story : string) (api : ApiOutcome)
  : outcome string :=
  match api with
  | Unavailable => Returned (generateFallbackMoral story)
  | Responded moral =>
      Returned
        (if (150 <? js_length moral)%nat
         then String.append (js_prefix 147 moral) "..."
         else moral)
  | Rejected => Thrown
  | TimedOut => Thrown
  end.

(** [generateAIMoral]: the [catch] block answers with the fallback. *)
Definition generateAIMoral (story : string) (api : ApiOutcome)
  : outcome string :=
  match generateAIMoral_try story api with
  | Returned moral => Returned moral
  | Thrown => Returned (generateFallbackMoral story)
  end.

(** [apiCallTracker]: the calls counted in the current window, the time
    the window ends and the cap on counted calls. *)
Record ApiCallTracker : Type := {
  calls : nat;
  resetTime : Z;
  maxCalls : nat
}.

(** The tracker the module starts with, loaded at time [now]. *)
Definition apiCallTracker (now : Z) : ApiCallTracker :=
  {| calls := 0; resetTime := now + 60000; maxCalls := 20 |}.

(** [checkRateLimit], with [Date.now()] as the argument [now]: the
    tracker it leaves and its answer.  [generateAIMoral] takes the
    fallback path ([Unavailable]) when the answer is [false]. *)
Definition checkRateLimit (now : Z) (tracker : ApiCallTracker)
  : ApiCallTracker * bool :=
  if resetTime tracker <? now
  then ({| calls := 0; resetTime := now + 60000;
           maxCalls := maxCalls tracker |}, true)
  else if (maxCalls tracker <=? calls tracker)%nat then (tracker, false)
  else ({| calls := calls tracker + 1; resetTime := resetTime tracker;
           maxCalls := maxCalls tracker |}, true).

(** Successive calls of [checkRateLimit], at the times listed: the
    tracker after the last one, and the answers in order. *)
Fixpoint checkRateLimits (times : list Z) (tracker : ApiCallTracker)
  : ApiCallTracker * list bool :=
  match times with
  | [] => (tracker, [])
  | now :: times' =>
      let '(tracker, ok) := checkRateLimit now tracker in
      let '(tracker, oks) := checkRateLimits times' tracker in
      (tracker, ok :: oks)
  end.

(** The weight [simulateAIVote] gives to a submission. *)
Definition humanFactor (players : list Player) (sub : Submission) : float :=
  match List.find (has_id (Submission.playerId sub)) players with
  | Some player => if negb (Player.isAI player) then 2.0%float else 1.0%float
  | None => 1.0%float
  end.

Definition lengthFactor (sub : Submission) : float :=
  match Submission.moral sub with
  | Some moral =>
      if truthy_moral (Some moral)
      then Math_min 1.5 (number_of_nat (js_length moral) / 50)%float
      else 0.5%float
  | None => 0.5%float
  end.

Definition voteFactor (sub : Submission) : float :=
  if (Submission.votes sub =? 0)%nat then 1.5%float
  else (1 / number_of_nat (Submission.votes sub + 1))%float.

Definition voteWeight (players : list Player) (sub : Submission) : float :=
  (humanFactor players sub * lengthFactor sub * voteFactor sub)%float.

(** The selection loop: [random] is lowered by each weight in turn and
    the first submission that brings it to zero or below is chosen. *)
Fixpoint pickWeighted (random : float) (subs : list Submission)
    (weights : list float) : option string :=
  match subs, weights with
  | sub :: subs', w :: weights' =>
      let random := (random - w)%float in
      if PrimFloat.leb random 0 then Some (Submission.playerId sub)
      else pickWeighted random subs' weights'
  | _, _ => None
  end.

Definition votable (submissions : list Submission) (aiPlayerId : string)
  : list Submission :=
  List.filter (fun s => negb (of_player aiPlayerId s)) submissions.

Definition totalWeight (weights : list float) : float :=
  fold_left PrimFloat.add weights 0%float.

(** [r] is the draw scaled by the total weight, [r'] the draw of the
    closing random selection, which the loop falls through to when
    rounding leaves the scaled draw above the weights taken off it. *)
Definition simulateAIVote (r : float) (r' : Q)
    (submissions : list Submission)
    (aiPlayerId : string) (players : list Player) : option string :=
  let votableSubmissions := votable submissions aiPlayerId in
  if (length votableSubmissions =? 0)%nat then None
  else
    let weights := List.map (voteWeight players) votableSubmissions in
    let random := (r * totalWeight weights)%float in
    match pickWeighted random votableSubmissions weights with
    | Some votedForId => Some votedForId
    | None =>
        let randomIndex := random_index r' (length votableSubmissions) in
        Submission.playerId <$> votableSubmissions !! randomIndex
    end.

(** ** server/game-state-manager.ts: selection and narrative *)

Definition card_has_id (cardId : Z) (card : Card) : bool :=
  Card.id card =? cardId.

(** [card.id === player.selectedCard] *)
Definition is_selected (selected : nullable Z) (card : Card) : bool :=
  match selected with
  | value cardId => Card.id card =? cardId
  | _ => false
  end.

(** Truthiness of the optional [customText] argument. *)
Definition truthy_text (customText : option string) : bool :=
  truthy_moral customText.

Definition updateCustomCard (gameId playerId : string) (cardId : Z)
    (customText : string) (games : gmap string Game)
  : gmap string Game * bool :=
  match games !! gameId with
  | None => (games, false)
  | Some game =>
      if negb (bool_decide
                 (Round.status (Game.round game) = roundStatus.SELECTION))
      then (games, false)
      else
        match List.find (has_id playerId) (Game.players game) with
        | None => (games, false)
        | Some player =>
            match Player.hand player with
            | None => (games, false)
            | Some hand =>
                match findIndex
                        (fun card => card_has_id cardId card
                                     && Card.isCustom card) hand with
                | None => (games, false)
                | Some cardIndex =>
                    let hand := alter (Card.with_text customText) cardIndex hand in
                    let players :=
                      update_first (has_id playerId)
                        (Player.with_hand (Some hand)) (Game.players game) in
                    (<[gameId:=Game.with_players players game]> games, true)
                end
            end
        end
  end.

(** The role-to-card object of [assembleStory] after one more player. *)
Definition collectSelected (selectedCards : cardType -> option Card)
    (player : Player) : cardType -> option Card :=
  match Player.currentCardType player, Player.hand player with
  | Some t, Some hand =>
      if not_null (Player.selectedCard player) then
        match List.find (is_selected (Player.selectedCard player)) hand with
        | Some selectedCard =>
            fun t' => if decide (t' = t) then Some selectedCard
                      else selectedCards t'
        | None => selectedCards
        end
      else selectedCards
  | _, _ => selectedCards
  end.

(** One entry of [storyParts]: nothing for a role without a card. *)
Definition storyPart (lead fallback : string) (card : option Card)
  : list string :=
  match card with
  | Some c => [String.append lead (or_string (Card.text c) fallback)]
  | None => []
  end.

Definition newSubmission (player : Player) : Submission :=
  Submission.mk (Player.id player)
    (match Player.selectedCard player with
     | value cardId => cardId   (* [selectedCard || 0] *)
     | _ => 0
     end)
    None 0%nat false.

Definition assembleStory (game : Game) : Game :=
  let selectedCards :=
    fold_left collectSelected (Game.players game) (fun _ => None) in
  let storyParts :=
    storyPart "In a " "a mysterious place" (selectedCards LOCATION)
    ++ storyPart ", a " "strange character" (selectedCards CHARACTER)
    ++ storyPart " NOTICES " "something unusual" (selectedCards INITIAL_TWIST)
    ++ storyPart ". But then, " "the situation escalates"
         (selectedCards ESCALATION)
    ++ storyPart " ALL BECAUSE " "a final twist occurs"
         (selectedCards FINAL_TWIST) in
  let round :=
    Round.with_submissions (List.map newSubmission (Game.players game))
      (Round.with_story (String.concat " " storyParts) (Game.round game)) in
  Game.with_round round game.

Definition allSelected (game : Game) : bool :=
  forallb (fun p => not_null (Player.selectedCard p)) (Game.players game).

(** The closing check shared by [selectCard], [makeAISelections] and
    [removePlayer]. *)
Definition advanceIfAllSelected (game : Game) : Game :=
  if allSelected game
  then Game.with_round_status roundStatus.STORYTELLING (assembleStory game)
  else game.

Definition selectCard (gameId playerId : string) (cardId : Z)
    (customText : option string) (games : gmap string Game)
  : gmap string Game * bool :=
  match games !! gameId with
  | None => (games, false)
  | Some game =>
      if negb (bool_decide
                 (Round.status (Game.round game) = roundStatus.SELECTION))
      then (games, false)
      else
        match List.find (has_id playerId) (Game.players game) with
        | None => (games, false)
        | Some player =>
            match Player.hand player with
            | None => (games, false)
            | Some hand =>
                match findIndex (card_has_id cardId) hand with
                | None => (games, false)
                | Some cardIndex =>
                    let isCustom :=
                      match hand !! cardIndex with
                      | Some card => Card.isCustom card
                      | None => false
                      end in
                    let hand :=
                      match customText with
                      | Some text =>
                          if isCustom && truthy_text customText
                          then alter (Card.with_text text) cardIndex hand
                          else hand
                      | None => hand
                      end in
                    let select p :=
                      Player.with_selectedCard (value cardId)
                        (Player.with_hand (Some hand) p) in
                    let game :=
                      Game.with_players
                        (update_first (has_id playerId) select
                           (Game.players game)) game in
                    (<[gameId:=advanceIfAllSelected game]> games, true)
                end
            end
        end
  end.

(** [makeAISelections], first part: the simulated players that will pick,
    each marked as thinking before its delay starts. *)
Definition pendingAI (player : Player) : bool :=
  Player.isAI player
  && negb (not_null (Player.selectedCard player))
  && match Player.hand player with
     | Some hand => (0 <? length hand)%nat
     | None => false
     end.

Definition makeAISelections_begin (gameId : string)
    (games : gmap string Game) : gmap string Game * list string :=
  match games !! gameId with
  | None => (games, [])
  | Some game =>
      if negb (bool_decide
                 (Round.status (Game.round game) = roundStatus.SELECTION))
      then (games, [])
      else
        let pendingAIPlayers := List.filter pendingAI (Game.players game) in
        let players :=
          List.map (fun p => if pendingAI p
                             then Player.with_isThinking true p else p)
            (Game.players game) in
        (<[gameId:=Game.with_players players game]> games,
         List.map Player.id pendingAIPlayers)
  end.

(** [makeAISelections], after the delay of one simulated player: it picks
    a card of its hand at random. *)
Definition aiSelect (r : Q) (player : Player) : Player :=
  match Player.hand player with
  | Some hand =>
      match hand !! random_index r (length hand) with
      | Some selectedCard =>
          Player.with_isThinking false
            (Player.with_selectedCard (value (Card.id selectedCard)) player)
      | None => Player.with_isThinking false player
      end
  | None => Player.with_isThinking false player
  end.

Definition makeAISelections_pick (r : Q) (gameId aiId : string)
    (games : gmap string Game) : gmap string Game :=
  match games !! gameId with
  | None => games
  | Some game =>
      <[gameId:=Game.with_players
                  (update_first (has_id aiId) (aiSelect r) (Game.players game))
                  game]> games
  end.

(** [makeAISelections], once every pick has landed. *)
Definition makeAISelections_end (gameId : string) (games : gmap string Game)
  : gmap string Game :=
  match games !! gameId with
  | None => games
  | Some game => <[gameId:=advanceIfAllSelected game]> games
  end.

(** [makeAISelections] with nothing else happening during the delays:
    [draws] holds one draw per simulated player that picks, in player
    order. *)
Definition makeAISelections (draws : list Q) (gameId : string)
    (games : gmap string Game) : gmap string Game :=
  let '(games, pendingAIPlayers) := makeAISelections_begin gameId games in
  if (length pendingAIPlayers =? 0)%nat then games
  else
    let games :=
      fold_left
        (fun games pick =>
           makeAISelections_pick (snd pick) gameId (fst pick) games)
        (zip pendingAIPlayers draws) games in
    makeAISelections_end gameId games.

(** ** server/game-state-manager.ts: morals *)

Definition allSubmissionsHaveMorals (game : Game) : bool :=
  forallb (fun s => bool_decide (Submission.moral s <> None))
    (Round.submissions (Game.round game)).

(** [p.submittedMoral !== null && p.submittedMoral !== undefined] *)
Definition has_moral (p : Player) : bool :=
  match Player.submittedMoral p with value _ => true | _ => false end.

Definition submitMoral (gameId playerId moral : string)
    (games : gmap string Game) : gmap string Game * bool :=
  match games !! gameId with
  | None => (games, false)
  | Some game =>
      if negb (bool_decide
                 (Round.status (Game.round game) = roundStatus.STORYTELLING))
      then (games, false)
      else
        match List.find (has_id playerId) (Game.players game),
              List.find (of_player playerId)
                (Round.submissions (Game.round game)) with
        | Some _, Some _ =>
            let game :=
              Game.with_submissions
                (update_first (of_player playerId)
                   (Submission.with_moral (Some moral))
                   (Round.submissions (Game.round game))) game in
            let game :=
              Game.with_players
                (update_first (has_id playerId)
                   (Player.with_submittedMoral (value moral))
                   (Game.players game)) game in
            let game :=
              if allSubmissionsHaveMorals game
                 && forallb has_moral (Game.players game)
              then Game.with_round_status roundStatus.VOTING game
              else game in
            (<[gameId:=game]> games, true)
        | _, _ => (games, false)
        end
  end.

Definition funnyMorals : list string :=
  [ "The moral of the story is: Always check if your time-traveling device has a return policy.";
    "The moral of the story is: Never trust a talking plant with your WiFi password.";
    "The moral of the story is: Sometimes the best solution is to pretend nothing happened.";
    "The moral of the story is: If plan A fails, remember there are 25 more letters in the alphabet.";
    "The moral of the story is: Not all who wander are lost, but this one definitely was.";
    "The moral of the story is: Just because you can doesn't mean you should, especially with portals.";
    "The moral of the story is: When reality glitches, pretend you meant to do that.";
    "The moral of the story is: The universe has a sense of humor, just not a very good one.";
    "The moral of the story is: Trust no one, especially if they claim to be from the future.";
    "The moral of the story is: Sometimes the only winning move is to unplug and go for a walk." ].

(** The draws of one iteration of the loop of [generateAIMorals]: what the
    service call came to, and the draw of the manager's own [catch]. *)
Record MoralDraw : Type := {
  api : ApiOutcome;
  funnyPick : Q
}.

(** The moral the loop body settles on for one simulated player. *)
Definition aiMoralFor (story : string) (d : MoralDraw) : string :=
  match generateAIMoral story (api d) with
  | Returned generatedMoral => generatedMoral
  | Thrown =>
      nth (random_index (funnyPick d) (length funnyMorals)) funnyMorals ""
  end.

(** [player.isAI && !player.submittedMoral] *)
Definition needsMoral (player : Player) : bool :=
  Player.isAI player && negb (truthy_string (Player.submittedMoral player)).

(** What the loop does to one player when the moral it settles on is
    [moral]. *)
Definition giveMoral (moral : string) (p : Player) : Player :=
  if needsMoral p then Player.with_submittedMoral (value moral) p else p.

(** One iteration of the loop, for the simulated player [aiId] that has no
    moral yet: the player and its submission receive the moral. *)
Definition generateAIMorals_step (d : MoralDraw) (aiId : string)
    (game : Game) : Game :=
  let moral := aiMoralFor (Round.story (Game.round game)) d in
  let game :=
    Game.with_players
      (update_first (has_id aiId) (Player.with_submittedMoral (value moral))
         (Game.players game)) game in
  Game.with_submissions
    (update_first (of_player aiId) (Submission.with_moral (Some moral))
       (Round.submissions (Game.round game))) game.

(** The loop over the players: simulated players without a truthy moral
    take the next draw. *)
Fixpoint generateAIMorals_loop (todo : list Player) (draws : list MoralDraw)
    (game : Game) : Game :=
  match todo with
  | [] => game
  | player :: todo' =>
      if needsMoral player
      then
        match draws with
        | d :: draws' =>
            generateAIMorals_loop todo' draws'
              (generateAIMorals_step d (Player.id player) game)
        | [] => game
        end
      else generateAIMorals_loop todo' draws game
  end.

Definition defaultMoral : string :=
  "The moral is: some stories write themselves.".

(** The closing failsafe: a simulated player still without a truthy moral
    gets [defaultMoral], and so does its submission. *)
Definition failsafeMoral (game : Game) (player : Player) : Game :=
  if needsMoral player
  then
    let game :=
      Game.with_players
        (update_first (has_id (Player.id player))
           (Player.with_submittedMoral (value defaultMoral))
           (Game.players game)) game in
    Game.with_submissions
      (update_first (of_player (Player.id player))
         (Submission.with_moral (Some defaultMoral))
         (Round.submissions (Game.round game))) game
  else game.

(** [generateAIMorals], with the awaited calls run back to back: [draws]
    holds one [MoralDraw] per simulated player that needs a moral. *)
Definition generateAIMorals (draws : list MoralDraw) (gameId : string)
    (games : gmap string Game) : gmap string Game :=
  match games !! gameId with
  | None => games
  | Some game =>
      let game := generateAIMorals_loop (Game.players game) draws game in
      let humans := List.filter (fun p => negb (Player.isAI p)) (Game.players game) in
      let humanPlayersWithMorals :=
        length (List.filter (fun p => truthy_string (Player.submittedMoral p))
                  humans) in
      let humanPlayersTotal := length humans in
      let game :=
        if (humanPlayersWithMorals =? humanPlayersTotal)%nat
           && allSubmissionsHaveMorals game
        then Game.with_round_status roundStatus.VOTING game
        else game in
      let game := fold_left failsafeMoral (Game.players game) game in
      <[gameId:=game]> games
  end.

(** ** server/game-state-manager.ts: votes and scores *)

(** Work handed to [setTimeout]. *)
Inductive Task : Type :=
  | AIThinks (gameId aiPlayerId : string)   (* after [index * 200] ms *)
  | AIVotes (gameId aiPlayerId : string)    (* 500 to 1000 ms later *)
  | EndRound (gameId : string).             (* 2000 ms after the vote *)

(** [makeAIVotes]: one timer per simulated player. *)
Definition makeAIVotes (game : Game) : list Task :=
  List.map (fun p => AIThinks (Game.gameId game) (Player.id p))
    (List.filter Player.isAI (Game.players game)).

Definition humanPlayersWhoVoted (game : Game) : nat :=
  length
    (List.filter
       (fun s =>
          match List.find (has_id (Submission.playerId s)) (Game.players game) with
          | Some player => negb (Player.isAI player) && Submission.hasVoted s
          | None => false
          end)
       (Round.submissions (Game.round game))).

Definition addVote (s : Submission) : Submission :=
  Submission.with_votes (Submission.votes s + 1)%nat s.

(** Mark [voterId] as having voted, on its submission and on the player;
    nothing is marked when the voter has no submission. *)
Definition markVoted (voterId : string) (game : Game) : Game :=
  match List.find (of_player voterId) (Round.submissions (Game.round game)) with
  | Some _ =>
      let game :=
        Game.with_submissions
          (update_first (of_player voterId) (Submission.with_hasVoted true)
             (Round.submissions (Game.round game))) game in
      Game.with_players
        (update_first (has_id voterId) (Player.with_hasVoted true)
           (Game.players game)) game
  | None => game
  end.

Definition castVote (gameId voterId votedForId : string)
    (games : gmap string Game) : gmap string Game * bool * list Task :=
  match games !! gameId with
  | None => (games, false, [])
  | Some game =>
      if negb (bool_decide
                 (Round.status (Game.round game) = roundStatus.VOTING))
      then (games, false, [])
      else
        match List.find (has_id voterId) (Game.players game),
              List.find (has_id votedForId) (Game.players game) with
        | Some voter, Some votedFor =>
            if String.eqb voterId votedForId then (games, false, [])
            else
              match List.find (of_player votedForId)
                      (Round.submissions (Game.round game)) with
              | None => (games, false, [])
              | Some submission =>
                  let game := markVoted voterId game in
                  let game :=
                    Game.with_submissions
                      (update_first (of_player votedForId) addVote
                         (Round.submissions (Game.round game))) game in
                  let humanPlayers :=
                    List.filter (fun p => negb (Player.isAI p))
                      (Game.players game) in
                  let tasks :=
                    if (length humanPlayers <=? humanPlayersWhoVoted game)%nat
                    then makeAIVotes game ++ [EndRound gameId]
                    else [] in
                  (<[gameId:=game]> games, true, tasks)
              end
        | _, _ => (games, false, [])
        end
  end.

(** The outer timer of [makeAIVotes]: the simulated player starts to
    think, and its vote is scheduled. *)
Definition aiThinks (gameId aiPlayerId : string) (games : gmap string Game)
  : gmap string Game * list Task :=
  match games !! gameId with
  | None => (games, [])
  | Some game =>
      (<[gameId:=Game.with_players
                   (update_first (has_id aiPlayerId)
                      (Player.with_isThinking true) (Game.players game))
                   game]> games,
       [AIVotes gameId aiPlayerId])
  end.

(** The inner timer of [makeAIVotes]: the simulated player is marked as
    having voted, [simulateAIVote] picks, and the pick gains a vote. *)
Definition aiVotes (r : float) (r' : Q) (gameId aiPlayerId : string)
    (games : gmap string Game) : gmap string Game :=
  match games !! gameId with
  | None => games
  | Some game =>
      let game := markVoted aiPlayerId game in
      match simulateAIVote r r' (Round.submissions (Game.round game))
              aiPlayerId (Game.players game) with
      | Some votedForId =>
          match List.find (of_player votedForId)
                  (Round.submissions (Game.round game)) with
          | Some _ =>
              let game :=
                Game.with_submissions
                  (update_first (of_player votedForId) addVote
                     (Round.submissions (Game.round game))) game in
              let game :=
                Game.with_players
                  (update_first (has_id aiPlayerId)
                     (Player.with_isThinking false) (Game.players game))
                  game in
              <[gameId:=game]> games
          | None => <[gameId:=game]> games
          end
      | None => <[gameId:=game]> games
      end
  end.

(** The score loop of [endRound]: every submission adds its votes to the
    score of its player. *)
Definition addScore (players : list Player) (submission : Submission)
  : list Player :=
  update_first (has_id (Submission.playerId submission))
    (fun p => Player.with_score (Player.score p + Submission.votes submission)%nat p)
    players.

Definition endRound (gameId : string) (games : gmap string Game)
  : gmap string Game :=
  match games !! gameId with
  | None => games
  | Some game =>
      if bool_decide (Round.status (Game.round game) = roundStatus.RESULTS)
      then games   (* already scored *)
      else
        (* any other phase is first forced to VOTING *)
        let game :=
          Game.with_players
            (fold_left addScore (Round.submissions (Game.round game))
               (Game.players game)) game in
        let game := Game.with_round_status roundStatus.RESULTS game in
        let game :=
          if Round.number (Game.round game)
               >=? Settings.roundsToPlay (Game.settings game)
          then Game.with_status gameStatus.COMPLETED game
          else game in
        <[gameId:=game]> games
  end.

Definition getGameState (gameId : string) (games : gmap string Game)
  : option Game := games !! gameId.

(** ** server/game-state-manager.ts: leaving *)

Definition assignNewHost (players : list Player) : list Player :=
  match List.find (fun p => negb (Player.isAI p)) players with
  | Some _ =>
      update_first (fun p => negb (Player.isAI p)) (Player.with_isHost true)
        players
  | None => alter (Player.with_isHost true) 0%nat players
  end.

Definition removePlayer (gameId playerId : string)
    (games : gmap string Game) : gmap string Game * bool :=
  match games !! gameId with
  | None => (games, false)
  | Some game =>
      match findIndex (has_id playerId) (Game.players game) with
      | None => (games, false)
      | Some playerIndex =>
          let wasHost :=
            match Game.players game !! playerIndex with
            | Some player => Player.isHost player
            | None => false
            end in
          let players := delete playerIndex (Game.players game) in
          let players :=
            if wasHost && (0 <? length players)%nat
            then assignNewHost players else players in
          let game := Game.with_players players game in
          if (length players =? 0)%nat then (delete gameId games, true)
          else if bool_decide (Game.status game = gameStatus.ACTIVE) then
            let submissions := Round.submissions (Game.round game) in
            let game :=
              match findIndex (of_player playerId) submissions with
              | Some submissionIndex =>
                  Game.with_submissions (delete submissionIndex submissions) game
              | None => game
              end in
            let humanPlayers :=
              List.filter (fun p => negb (Player.isAI p)) (Game.players game) in
            let game :=
              if (length humanPlayers <? 1)%nat
              then Game.with_status gameStatus.COMPLETED game
              else if bool_decide (Round.status (Game.round game)
                                   = roundStatus.SELECTION)
              then advanceIfAllSelected game
              else if bool_decide (Round.status (Game.round game)
                                   = roundStatus.STORYTELLING)
              then
                if allSubmissionsHaveMorals game
                then Game.with_round_status roundStatus.VOTING game
                else game
              else game in
            (<[gameId:=game]> games, true)
          else (<[gameId:=game]> games, true)
      end
  end.

(** ** server/socket-handler.ts *)

(** The acknowledgment passed to a handler's callback. *)
Record Ack : Type := {
  success : bool;
  error : option string
}.

Definition ack_ok : Ack := {| success := true; error := None |}.
Definition ack_error (msg : string) : Ack :=
  {| success := false; error := Some msg |}.

(** [socket.playerData]: the player and the game the socket is bound to. *)
Record PlayerData : Type := {
  playerId : string;
  gameId : string
}.

(** Does the socket belong to the game named in the request? *)
Definition authorized (playerData : option PlayerData) (gid : string) : bool :=
  match playerData with
  | Some pd => String.eqb (gameId pd) gid
  | None => false
  end.

(** The [castVote] handler. *)
Definition onCastVote (playerData : option PlayerData)
    (gid votedForId : string) (games : gmap string Game)
  : Ack * gmap string Game * list Task :=
  match playerData with
  | None => (ack_error "Not authorized to cast a vote", games, [])
  | Some pd =>
      if negb (String.eqb (gameId pd) gid)
      then (ack_error "Not authorized to cast a vote", games, [])
      else if String.eqb (playerId pd) votedForId
      then (ack_error "Cannot vote for yourself", games, [])
      else
        match getGameState gid games with
        | None => (ack_error "Game not found", games, [])
        | Some gameBefore =>
            if negb (bool_decide (Round.status (Game.round gameBefore)
                                  = roundStatus.VOTING))
            then (ack_error "Game is not in voting phase", games, [])
            else
              let votedForSubmission :=
                List.find (of_player votedForId)
                  (Round.submissions (Game.round gameBefore)) in
              match votedForSubmission with
              | Some s =>
                  if truthy_moral (Submission.moral s) then
                    let '(games', ok, tasks) :=
                      castVote gid (playerId pd) votedForId games in
                    if ok then (ack_ok, games', tasks)
                    else (ack_error "Failed to cast vote", games', tasks)
                  else
                    (ack_error "Selected player has no moral submission",
                     games, [])
              | None =>
                  (ack_error "Selected player has no moral submission",
                   games, [])
              end
        end
  end.

(** The [submitMoral] handler; [moral] is the text after [trim].  The
    acknowledgment is sent before the simulated morals are generated. *)
Definition onSubmitMoral (draws : list MoralDraw)
    (playerData : option PlayerData) (gid moral : string)
    (games : gmap string Game) : Ack * gmap string Game :=
  match playerData with
  | None => (ack_error "Not authorized to submit a moral", games)
  | Some pd =>
      if negb (String.eqb (gameId pd) gid)
      then (ack_error "Not authorized to submit a moral", games)
      else if String.eqb moral ""
      then (ack_error "Moral cannot be empty", games)
      else
        match getGameState gid games with
        | None => (ack_error "Game not found", games)
        | Some gameBefore =>
            let '(games, ok) := submitMoral gid (playerId pd) moral games in
            if negb ok then (ack_error "Failed to submit moral", games)
            else
              match getGameState gid games with
              | None => (ack_ok, games)
              | Some gameAfter =>
                  if bool_decide (Round.status (Game.round gameAfter)
                                  = roundStatus.STORYTELLING)
                  then (ack_ok, generateAIMorals draws gid games)
                  else (ack_ok, games)
              end
        end
  end.

(** The [nextRound] handler. *)
Definition onNextRound (cardData : CardData) (draws : RoundDraws)
    (playerData : option PlayerData) (gid : string)
    (games : gmap string Game) : Ack * gmap string Game :=
  if negb (authorized playerData gid)
  then (ack_error "Not authorized for this game", games)
  else
    match getGameState gid games with
    | None => (ack_error "Game not found", games)
    | Some game =>
        if negb (bool_decide (Round.status (Game.round game)
                              = roundStatus.RESULTS))
        then (ack_error "Game is not ready for next round", games)
        else if bool_decide (Game.status game = gameStatus.COMPLETED)
        then (ack_ok, games)
        else (ack_ok, startNewRound cardData draws gid games)
    end.

(** [handlePlayerLeave]: the player is removed and the socket unbound. *)
Definition handlePlayerLeave (playerData : option PlayerData)
    (games : gmap string Game) : option PlayerData * gmap string Game :=
  match playerData with
  | None => (None, games)
  | Some pd => (None, fst (removePlayer (gameId pd) (playerId pd) games))
  end.

(** The [leaveGame] handler. *)
Definition onLeaveGame (playerData : option PlayerData) (gid : string)
    (games : gmap string Game)
  : Ack * option PlayerData * gmap string Game :=
  if negb (authorized playerData gid)
  then (ack_error "Not in this game", playerData, games)
  else
    let '(playerData', games') := handlePlayerLeave playerData games in
    (ack_ok, playerData', games').

(** The [joinGame] handler; [playerName] is the name after [trim], [uuid]
    the id drawn for the player.  On success the socket is bound to the
    new player.  (The acknowledgment also carries the two ids.) *)
Definition onJoinGame (uuid : string) (playerData : option PlayerData)
    (gid playerName : string) (games : gmap string Game)
  : Ack * option PlayerData * gmap string Game :=
  if String.eqb gid "" || String.eqb playerName ""
  then (ack_error "Game ID and player name are required", playerData, games)
  else
    match getGameState gid games with
    | None => (ack_error "Game not found", playerData, games)
    | Some _ =>
        let player :=
          Player.mk uuid playerName false false false 0%nat None None
            undefined undefined false in
        let '(games', ok) := joinGame gid player games in
        if negb ok then (ack_error "Failed to join game", playerData, games')
        else (ack_ok, Some {| playerId := uuid; gameId := gid |}, games')
    end.

(** The [startGame] handler. *)
Definition onStartGame (cardData : CardData) (fresh : nat -> string * string)
    (draws : RoundDraws) (playerData : option PlayerData) (gid : string)
    (games : gmap string Game) : Ack * gmap string Game :=
  match playerData with
  | None => (ack_error "Not authorized to start this game", games)
  | Some pd =>
      if negb (String.eqb (gameId pd) gid)
      then (ack_error "Not authorized to start this game", games)
      else
        match getGameState gid games with
        | None => (ack_error "Game not found", games)
        | Some game =>
            let isHost :=
              match List.find (has_id (playerId pd)) (Game.players game) with
              | Some player => Player.isHost player
              | None => false
              end in
            if negb isHost
            then (ack_error "Only the host can start the game", games)
            else
              let '(games', ok) := startGame cardData fresh draws gid games in
              if negb ok then (ack_error "Failed to start game", games')
              else (ack_ok, games')
        end
  end.

(** The [updateCustomCard] handler; [customText] is the text after
    [trim], empty when the request carries none. *)
Definition onUpdateCustomCard (playerData : option PlayerData)
    (gid : string) (cardId : Z) (customText : string)
    (games : gmap string Game) : Ack * gmap string Game :=
  match playerData with
  | None => (ack_error "Not authorized to update this card", games)
  | Some pd =>
      if negb (String.eqb (gameId pd) gid)
      then (ack_error "Not authorized to update this card", games)
      else if String.eqb customText ""
      then (ack_error "Custom text cannot be empty", games)
      else
        let '(games', ok) :=
          updateCustomCard gid (playerId pd) cardId customText games in
        if negb ok then (ack_error "Failed to update custom card", games')
        else (ack_ok, games')
  end.

(** What the [selectCard] handler goes on to do once it has answered. *)
Inductive FollowUp : Type :=
  | AISelections   (* [makeAISelections], then a broadcast *)
  | AIMorals       (* [generateAIMorals], then a broadcast *)
  | Broadcast.

(** The [selectCard] handler up to its answer, and what it starts.  It
    answers nothing when the game is gone after the selection. *)
Definition onSelectCard (playerData : option PlayerData) (gid : string)
    (cardId : Z) (customText : option string) (games : gmap string Game)
  : option Ack * gmap string Game * option FollowUp :=
  match playerData with
  | None => (Some (ack_error "Not authorized to select a card"), games, None)
  | Some pd =>
      if negb (String.eqb (gameId pd) gid)
      then (Some (ack_error "Not authorized to select a card"), games, None)
      else
        let '(games', ok) :=
          selectCard gid (playerId pd) cardId customText games in
        if negb ok
        then (Some (ack_error "Failed to select card"), games', None)
        else
          match getGameState gid games' with
          | None => (None, games', None)
          | Some game =>
              if negb (allSelected game)
              then (Some ack_ok, games', Some AISelections)
              else if bool_decide (Round.status (Game.round game)
                                   = roundStatus.STORYTELLING)
              then (Some ack_ok, games', Some AIMorals)
              else (Some ack_ok, games', Some Broadcast)
          end
  end.

(** The placeholder [{ id: 0, text: "Hidden Card" }]; it has no type. *)
Definition hiddenCard : Card := Card.mk 0 "Hidden Card" "" false None.

(** The callback of the [map] over the players in
    [sanitizeGameStateForPlayer]: what [playerId] is shown of [player]. *)
Definition sanitizePlayer (status : roundStatus.t) (playerId : string)
    (player : Player) : Player :=
  if String.eqb (Player.id player) playerId then player
  else
    match Player.hand player with
    | Some hand =>
        if not_null (Player.selectedCard player)
           && negb (bool_decide (status = roundStatus.SELECTION))
        then
          match List.find (is_selected (Player.selectedCard player)) hand with
          | Some selectedCard => Player.with_hand (Some [selectedCard]) player
          | None => Player.with_hand (Some []) player
          end
        else
          Player.with_hand (Some (replicate (length hand) hiddenCard)) player
    | None => Player.with_hand None player
    end.

(** [sanitizeGameStateForPlayer]: the copy of the game sent to
    [playerId].  The two [hasVoted] flags of the recipient are brought
    together during the vote: they differ and one of them is set exactly
    when one is [true] and the other is not.  The closing [map] over the
    submissions turns an absent flag into [false], which it is here. *)
Definition sanitizeGameStateForPlayer (game : Game) (playerId : string)
  : Game :=
  let status := Round.status (Game.round game) in
  let sanitizedGame :=
    Game.with_players
      (List.map (sanitizePlayer status playerId) (Game.players game)) game in
  match List.find (has_id playerId) (Game.players sanitizedGame),
        List.find (of_player playerId)
          (Round.submissions (Game.round sanitizedGame)),
        List.find (has_id playerId) (Game.players game),
        List.find (of_player playerId) (Round.submissions (Game.round game))
  with
  | Some _, Some _, Some originalPlayer, Some originalSubmission =>
      if bool_decide (status = roundStatus.VOTING)
         && xorb (Player.hasVoted originalPlayer)
              (Submission.hasVoted originalSubmission)
      then
        Game.with_submissions
          (update_first (of_player playerId) (Submission.with_hasVoted true)
             (Round.submissions (Game.round sanitizedGame)))
          (Game.with_players
             (update_first (has_id playerId) (Player.with_hasVoted true)
                (Game.players sanitizedGame)) sanitizedGame)
      else sanitizedGame
  | _, _, _, _ => sanitizedGame
  end.

(** [sendGameStateToClient]: the message for the socket, if any. *)
Definition sendGameStateToClient (playerData : option PlayerData)
    (games : gmap string Game) : option Game :=
  match playerData with
  | None => None
  | Some pd =>
      match getGameState (gameId pd) games with
      | None => None
      | Some game => Some (sanitizeGameStateForPlayer game (playerId pd))
      end
  end.

(** ** Vote tallies *)

(** The votes the submissions of the round have received. *)
Definition totalVotes (game : Game) : nat :=
  sum_list (List.map Submission.votes (Round.submissions (Game.round game))).

(** The participants whose vote has been recorded in the round. *)
Definition votesRecorded (game : Game) : nat :=
  length (List.filter Submission.hasVoted
            (Round.submissions (Game.round game))).

(** ** The registry as a transition system

    Every change of the registry is one of the manager calls above, made
    by a handler or by a timer.  The relation lets them happen in any
    order and with any arguments, so it covers every run of the server. *)

Inductive step (cardData : CardData)
  : gmap string Game -> gmap string Game -> Prop :=
  | step_createGame candidates host games games' gameId :
      createGame candidates host games = Some (games', gameId) ->
      step cardData games games'
  | step_joinGame gameId player games :
      step cardData games (fst (joinGame gameId player games))
  | step_startGame fresh draws gameId games :
      step cardData games
        (fst (startGame cardData fresh draws gameId games))
  | step_startNewRound draws gameId games :
      step cardData games (startNewRound cardData draws gameId games)
  | step_updateCustomCard gameId playerId cardId customText games :
      step cardData games
        (fst (updateCustomCard gameId playerId cardId customText games))
  | step_selectCard gameId playerId cardId customText games :
      step cardData games
        (fst (selectCard gameId playerId cardId customText games))
  | step_makeAISelections_begin gameId games :
      step cardData games (fst (makeAISelections_begin gameId games))
  | step_makeAISelections_pick r gameId aiId games :
      step cardData games (makeAISelections_pick r gameId aiId games)
  | step_makeAISelections_end gameId games :
      step cardData games (makeAISelections_end gameId games)
  | step_submitMoral gameId playerId moral games :
      step cardData games (fst (submitMoral gameId playerId moral games))
  | step_generateAIMorals draws gameId games :
      step cardData games (generateAIMorals draws gameId games)
  | step_castVote gameId voterId votedForId games :
      step cardData games
        (fst (fst (castVote gameId voterId votedForId games)))
  | step_aiThinks gameId aiPlayerId games :
      step cardData games (fst (aiThinks gameId aiPlayerId games))
  | step_aiVotes r r' gameId aiPlayerId games :
      step cardData games (aiVotes r r' gameId aiPlayerId games)
  | step_endRound gameId games :
      step cardData games (endRound gameId games)
  | step_removePlayer gameId playerId games :
      step cardData games (fst (removePlayer gameId playerId games)).

(** The registries the server can be in, starting from an empty one. *)
Definition reachable (cardData : CardData) (games : gmap string Game) : Prop :=
  rtc (step cardData) ∅ games.

(** Does some participant carry the host flag? *)
Definition hasHost (game : Game) : bool :=
  existsb Player.isHost (Game.players game).

(** Every stored game has a host. *)
Definition hosted (games : gmap string Game) : Prop :=
  forall gid game, games !! gid = Some game -> hasHost game = true.

(** The players [removePlayer] leaves in the game. *)
Definition remaining (playerIndex : nat) (players : list Player)
  : list Player :=
  let wasHost :=
    match players !! playerIndex with
    | Some player => Player.isHost player
    | None => false
    end in
  if wasHost && (0 <? length (delete playerIndex players))%nat
  then assignNewHost (delete playerIndex players)
  else delete playerIndex players.

(** A participant with the host flag cleared: what is compared when two
    participants are to agree on everything but that flag. *)
Definition sansHost (p : Player) : Player := Player.with_isHost false p.

(** The order in which a session goes through its statuses. *)
Definition statusRank (s : gameStatus.t) : nat :=
  match s with
  | gameStatus.LOBBY => 0
  | gameStatus.ACTIVE => 1
  | gameStatus.COMPLETED => 2
  end.

(** The scores of a session, added up. *)
Definition totalScore (game : Game) : nat :=
  sum_list (List.map Player.score (Game.players game)).

(** A participant with its hand and its vote flag blanked: what is
    compared when a view may differ from the game in those two only. *)
Definition sansHand (p : Player) : Player :=
  Player.with_hasVoted false (Player.with_hand None p).

(** A participant with its role and its hand blanked: what is compared
    when two participants may differ in what a deal gives them only. *)
Definition sansDeal (p : Player) : Player :=
  Player.with_currentCardType None (Player.with_hand None p).

(** A participant with its moral blanked: what is compared when two
    participants are to agree on everything but the moral. *)
Definition sansMoral (p : Player) : Player :=
  Player.with_submittedMoral null p.

(** A card is kept when at most its text has changed, and not even that
    unless it is a custom card. *)
Definition cardKept (c c' : Card) : Prop :=
  Card.with_text "" c' = Card.with_text "" c
  /\ (Card.isCustom c = false -> c' = c).

(** What a request of [playerId] about a card may do to the hand of the
    participant [p], as [q]: nothing unless [p] has that id, and then each
    card is kept. *)
Definition handKept (playerId : string) (p q : Player) : Prop :=
  Player.id q = Player.id p
  /\ (Player.id p <> playerId -> Player.hand q = Player.hand p)
  /\ match Player.hand p, Player.hand q with
     | Some hand, Some hand' => Forall2 cardKept hand hand'
     | None, None => True
     | _, _ => False
     end.

(** The card a participant brings to the narrative: the card of its hand
    that it has selected, if it has a role. *)
Definition broughtCard (player : Player) : option Card :=
  match Player.currentCardType player, Player.hand player with
  | Some _, Some hand =>
      if not_null (Player.selectedCard player)
      then List.find (is_selected (Player.selectedCard player)) hand
      else None
  | _, _ => None
  end.

(** The card the holder of the role [t] brings. *)
Definition holderCard (players : list Player) (t : cardType) : option Card :=
  match List.find
          (fun p => bool_decide (Player.currentCardType p = Some t)) players
  with
  | Some holder => broughtCard holder
  | None => None
  end.

(** The roles in the order the narrative takes them, each with its
    connective and the stock phrase that stands in for a card without
    text. *)
Definition fragments : list (cardType * string * string) :=
  [ (LOCATION, "In a ", "a mysterious place");
    (CHARACTER, ", a ", "strange character");
    (INITIAL_TWIST, " NOTICES ", "something unusual");
    (ESCALATION, ". But then, ", "the situation escalates");
    (FINAL_TWIST, " ALL BECAUSE ", "a final twist occurs") ].

(** The narrative of a round, told from the roles: each role whose holder
    brings a card gives one fragment, its connective followed by the text
    of the card, or by the stock phrase when the card has no text; a role
    without a card gives none; the fragments are joined by single
    spaces. *)
Definition narrativeOf (players : list Player) : string :=
  String.concat " "
    (omap
       (fun '(t, lead, stock) =>
          match holderCard players t with
          | Some card =>
              Some (String.append lead
                      (if String.eqb (Card.text card) "" then stock
                       else Card.text card))
          | None => None
          end)
       fragments).

(** The submission a round opens for a participant: its id, the id of
    the card it selected (0 without one), no moral, no vote, not
    voted. *)
Definition freshSubmission (p : Player) (s : Submission) : Prop :=
  Submission.playerId s = Player.id p
  /\ Submission.cardId s
     = match Player.selectedCard p with value cardId => cardId | _ => 0 end
  /\ Submission.moral s = None
  /\ Submission.votes s = 0%nat
  /\ Submission.hasVoted s = false.

(** What the view sent to [playerId] in phase [status] shows of the
    participant [p], as [q].  Every field but the hand and the vote flag
    is shown as it is, the id of the selected card among them.  The own
    hand is shown as it is.  Another hand is shown as placeholders, one
    per card, during the selection phase and as long as the selection is
    null; once the selection phase is over it is shown as the selected
    card alone, or as no card when the selection is not a card of the
    hand. *)
Definition shownAs (status : roundStatus.t) (playerId : string)
    (p q : Player) : Prop :=
  Player.id q = Player.id p
  /\ Player.name q = Player.name p
  /\ Player.isHost q = Player.isHost p
  /\ Player.isAI q = Player.isAI p
  /\ Player.isThinking q = Player.isThinking p
  /\ Player.score q = Player.score p
  /\ Player.currentCardType q = Player.currentCardType p
  /\ Player.selectedCard q = Player.selectedCard p
  /\ Player.submittedMoral q = Player.submittedMoral p
  /\ Player.hand q
     = if String.eqb (Player.id p) playerId then Player.hand p
       else
         match Player.hand p with
         | None => None
         | Some hand =>
             Some
               (if bool_decide (status = roundStatus.SELECTION)
                then replicate (length hand) hiddenCard
                else
                  match Player.selectedCard p with
                  | null => replicate (length hand) hiddenCard
                  | undefined => []
                  | value cardId =>
                      match List.find (fun c => Card.id c =? cardId) hand with
                      | Some card => [card]
                      | None => []
                      end
                  end)
         end.

(** What a session keeps or only moves forward: its id and its settings
    stay, its status never goes back, its participants never grow beyond
    the larger of their number and the cap of the settings, and its round
    number never grows beyond the larger of itself, 1 and the number of
    rounds to play. *)
Definition later (game game' : Game) : Prop :=
  Game.gameId game' = Game.gameId game
  /\ Game.settings game' = Game.settings game
  /\ (statusRank (Game.status game) <= statusRank (Game.status game'))%nat
  /\ (length (Game.players game')
      <= Nat.max (length (Game.players game))
           (Z.to_nat (Settings.maxPlayers (Game.settings game))))%nat
  /\ Z.min (Round.number (Game.round game)) 0
     <= Round.number (Game.round game')
     <= Z.max (Round.number (Game.round game))
          (Z.max 1 (Settings.roundsToPlay (Game.settings game))).

(** Every session of [games'] is a later state of the session [games]
    holds under the same id. *)
Definition ensues (games games' : gmap string Game) : Prop :=
  forall gid game',
    games' !! gid = Some game' ->
    exists game, games !! gid = Some game /\ later game game'.

(** The sessions are stored under their own id, with the settings
    [createGame] gives them, and hold no more participants than those
    allow. *)
Definition wellFormed (games : gmap string Game) : Prop :=
  forall gid game,
    games !! gid = Some game ->
    Game.gameId game = gid
    /\ Game.settings game = Settings.mk 5 3
    /\ (length (Game.players game) <= 5)%nat
    /\ 0 <= Round.number (Game.round game) <= 3.

(** Has every human participant's vote been recorded on its submission?
    The submissions are taken in the order of the participants. *)
Definition humansHaveVoted (game : Game) : Prop :=
  Forall2 (fun p s => Player.isAI p = false -> Submission.hasVoted s = true)
    (Game.players game) (Round.submissions (Game.round game)).

(** The custom cards the participants hold, in participant order. *)
Definition customCards (players : list Player) : list Card :=
  flat_map
    (fun p =>
       match Player.hand p with
       | Some hand => List.filter Card.isCustom hand
       | None => []
       end)
    players.

(** The submissions [removePlayer] leaves in an active game: the first
    one of the leaver is spliced out. *)
Definition remainingSubmissions (playerId : string)
    (submissions : list Submission) : list Submission :=
  match findIndex (of_player playerId) submissions with
  | Some submissionIndex => delete submissionIndex submissions
  | None => submissions
  end.

(** The id and the score of a participant. *)
Definition idScore (p : Player) : string * nat :=
  (Player.id p, Player.score p).

(** No participant of [game] has a lower score in [game']: whoever is
    found under an id in both has at least the score it had. *)
Definition scoresGrow (game game' : Game) : Prop :=
  forall pid p q,
    List.find (has_id pid) (Game.players game) = Some p ->
    List.find (has_id pid) (Game.players game') = Some q ->
    (Player.score p <= Player.score q)%nat.

(** Every session of [games'] was there in [games], with distinct ids
    and no higher scores. *)
Definition scoresGrowIn (games games' : gmap string Game) : Prop :=
  forall gid game game',
    games !! gid = Some game ->
    games' !! gid = Some game' ->
    NoDup (List.map Player.id (Game.players game)) ->
    scoresGrow game game'.

(** The phase of the round a game is in. *)
Definition phase (game : Game) : roundStatus.t :=
  Round.status (Game.round game).

(** A phase stays, or gives way to a phase other than WAITING and
    DEALING. *)
Definition phaseMoves (s s' : roundStatus.t) : Prop :=
  s' = s \/ (s' <> roundStatus.WAITING /\ s' <> roundStatus.DEALING).

(** Every session of [games'] was there in [games], in a phase that
    could move to the one it is in. *)
Definition phasesMove (games games' : gmap string Game) : Prop :=
  forall gid game',
    games' !! gid = Some game' ->
    exists game, games !! gid = Some game
                 /\ phaseMoves (phase game) (phase game').

(** One pick, seen from a participant. *)
Definition pickOf (q : Player) (pick : string * Q) : Player :=
  if has_id (fst pick) q then aiSelect (snd pick) q else q.

(** ** A sample session

    Two humans and three simulated players around small decks; the
    concrete runs below start from it. *)

Definition deckCard (id : Z) (text type : string) : Card :=
  Card.mk id text type false None.

Definition sampleCardData : CardData := {|
  locationCards :=
    [deckCard 1 "diner at the edge of town" "location";
     deckCard 2 "lighthouse" "location";
     deckCard 3 "empty motel" "location";
     deckCard 4 "train station" "location"];
  characterCards :=
    [deckCard 11 "night clerk" "character";
     deckCard 12 "retired pilot" "character";
     deckCard 13 "door-to-door salesman" "character";
     deckCard 14 "substitute teacher" "character"];
  initialTwistCards :=
    [deckCard 21 "the clocks running backwards" "initialTwist";
     deckCard 22 "a phone ringing in the wall" "initialTwist";
     deckCard 23 "his own face on every poster" "initialTwist";
     deckCard 24 "a door that was not there yesterday" "initialTwist"];
  escalationCards :=
    [deckCard 31 "the doors lock themselves" "escalation";
     deckCard 32 "everyone forgets his name" "escalation";
     deckCard 33 "the radio answers back" "escalation";
     deckCard 34 "the street signs change" "escalation"];
  finalTwistCards :=
    [deckCard 41 "he never left the room" "finalTwist";
     deckCard 42 "the town was a model on a table" "finalTwist";
     deckCard 43 "tomorrow had already happened" "finalTwist";
     deckCard 44 "the audience went home long ago" "finalTwist"]
|}.

(** The player object the [createGame] and [joinGame] handlers build. *)
Definition newPlayer (id name : string) : Player :=
  Player.mk id name false false false 0%nat None None undefined undefined
    false.

Definition sampleFresh (i : nat) : string * string :=
  match i with
  | 0%nat => ("a1", "NeuralMind")
  | 1%nat => ("a2", "QuantumBot")
  | _ => ("a3", "BinaryCore")
  end.

Definition sampleDeal (order : list nat) (chance : Q) : DealDraw :=
  {| deckOrder := order; customChance := chance; replaceSlot := 1 # 2 |}.

Definition sampleDraws : RoundDraws := {|
  roleOrder := [2; 0; 4; 1; 3]%nat;
  deals :=
    [sampleDeal [2; 0; 1; 3]%nat (1 # 10);
     sampleDeal [1; 2; 0; 3]%nat (1 # 2);
     sampleDeal [3; 1; 0; 2]%nat (1 # 20);
     sampleDeal [0; 3; 2; 1]%nat (9 # 10);
     sampleDeal [2; 1; 3; 0]%nat (3 # 10)]
|}.

(** A lobby of two humans, started. *)
Definition sampleStarted : gmap string Game :=
  match createGame ["ABC123"] (newPlayer "p1" "Ada") ∅ with
  | Some (games, gameId) =>
      let games := fst (joinGame gameId (newPlayer "p2" "Bo") games) in
      fst (startGame sampleCardData sampleFresh sampleDraws gameId games)
  | None => ∅
  end.

Definition sampleGame (games : gmap string Game) : Game :=
  match games !! "ABC123" with
  | Some game => game
  | None =>
      Game.mk "" gameStatus.LOBBY [] (Round.mk 0 roundStatus.WAITING "" [])
        (Settings.mk 5 3)
  end.

(** Everybody picks a card: the two humans, then the simulated players. *)
Definition sampleStorytelling : gmap string Game :=
  let games := fst (selectCard "ABC123" "p1" 13 None sampleStarted) in
  let games := fst (selectCard "ABC123" "p2" 32 None games) in
  let games := fst (makeAISelections_begin "ABC123" games) in
  let games := makeAISelections_pick (1 # 3) "ABC123" "a1" games in
  let games := makeAISelections_pick (2 # 3) "ABC123" "a2" games in
  let games := makeAISelections_pick (1 # 10) "ABC123" "a3" games in
  makeAISelections_end "ABC123" games.

(** Both humans submit, the service is down for the simulated players. *)
Definition sampleVoting : gmap string Game :=
  let games :=
    fst (submitMoral "ABC123" "p1" "Never answer a phone in the wall."
           sampleStorytelling) in
  let games :=
    fst (submitMoral "ABC123" "p2" "Names are borrowed." games) in
  generateAIMorals
    [ {| api := TimedOut; funnyPick := 0 |};
      {| api := Unavailable; funnyPick := 0 |};
      {| api := Rejected; funnyPick := 0 |} ]
    "ABC123" games.

(** The socket of a participant of the sample session. *)
Definition sampleSocket (pid : string) : option PlayerData :=
  Some {| playerId := pid; gameId := "ABC123" |}.

(** The human votes, the timers they start, and the end of the round. *)
Definition playVotes (games : gmap string Game) : gmap string Game :=
  let games := snd (fst (onCastVote (sampleSocket "p1") "ABC123" "p2" games)) in
  let games := snd (fst (onCastVote (sampleSocket "p2") "ABC123" "p1" games)) in
  let games := fst (aiThinks "ABC123" "a1" games) in
  let games := fst (aiThinks "ABC123" "a2" games) in
  let games := fst (aiThinks "ABC123" "a3" games) in
  let games := aiVotes 0.3125 0 "ABC123" "a1" games in
  let games := aiVotes 0.5 0 "ABC123" "a2" games in
  let games := aiVotes 0.90625 0 "ABC123" "a3" games in
  endRound "ABC123" games.

(** The first card of a participant's hand. *)
Definition firstCardOf (pid : string) (games : gmap string Game) : Z :=
  match List.find (has_id pid) (Game.players (sampleGame games)) with
  | Some p =>
      match Player.hand p with
      | Some (card :: _) => Card.id card
      | _ => 0
      end
  | None => 0
  end.

(** A whole round: every participant picks the first card of its hand,
    morals are written as in the first round, votes as in [playVotes]. *)
Definition playRound (games : gmap string Game) : gmap string Game :=
  let games :=
    fst (selectCard "ABC123" "p1" (firstCardOf "p1" games) (Some "a janitor")
           games) in
  let games :=
    fst (selectCard "ABC123" "p2" (firstCardOf "p2" games) None games) in
  let games := fst (makeAISelections_begin "ABC123" games) in
  let games := makeAISelections_pick 0 "ABC123" "a1" games in
  let games := makeAISelections_pick 0 "ABC123" "a2" games in
  let games := makeAISelections_pick 0 "ABC123" "a3" games in
  let games := makeAISelections_end "ABC123" games in
  let games :=
    snd (onSubmitMoral
           [ {| api := Responded "Every exit is also an entrance.";
                funnyPick := 0 |};
             {| api := TimedOut; funnyPick := 0 |};
             {| api := Unavailable; funnyPick := 0 |} ]
           (sampleSocket "p1") "ABC123" "Read the small print." games) in
  let games :=
    snd (onSubmitMoral [] (sampleSocket "p2") "ABC123" "Trust the janitor."
           games) in
  playVotes games.

Definition nextRound (pid : string) (games : gmap string Game)
  : gmap string Game :=
  snd (onNextRound sampleCardData sampleDraws (sampleSocket pid) "ABC123"
         games).

(** The results of the first round, and the session after its third. *)
Definition sampleResults : gmap string Game := playVotes sampleVoting.

Definition sampleCompleted : gmap string Game :=
  playRound (nextRound "p1" (playRound (nextRound "p1" sampleResults))).

(** The lobby of the sample session, before it is started. *)
Definition sampleLobby : gmap string Game :=
  match createGame ["ABC123"] (newPlayer "p1" "Ada") ∅ with
  | Some (games, gameId) => fst (joinGame gameId (newPlayer "p2" "Bo") games)
  | None => ∅
  end.

(** The two humans have picked; the simulated players are to pick. *)
Definition sampleSelecting : gmap string Game :=
  let games := fst (selectCard "ABC123" "p1" 13 None sampleStarted) in
  fst (selectCard "ABC123" "p2" 32 None games).

(** Everybody has voted in the first round, which has not ended yet. *)
Definition sampleVoted : gmap string Game :=
  let games :=
    snd (fst (onCastVote (sampleSocket "p1") "ABC123" "p2" sampleVoting)) in
  let games := snd (fst (onCastVote (sampleSocket "p2") "ABC123" "p1" games)) in
  let games := fst (aiThinks "ABC123" "a1" games) in
  let games := fst (aiThinks "ABC123" "a2" games) in
  let games := fst (aiThinks "ABC123" "a3" games) in
  let games := aiVotes 0.3125 0 "ABC123" "a1" games in
  let games := aiVotes 0.5 0 "ABC123" "a2" games in
  aiVotes 0.90625 0 "ABC123" "a3" games.

(** Ada and the simulated players have picked; Bo has not. *)
Definition sampleAwaitingBo : gmap string Game :=
  makeAISelections [1 # 3; 2 # 3; 1 # 10] "ABC123"
    (fst (selectCard "ABC123" "p1" 13 None sampleStarted)).


(** Bo and the simulated players have picked; Ada has not. *)
Definition sampleAwaitingAda : gmap string Game :=
  makeAISelections [1 # 3; 2 # 3; 1 # 10] "ABC123"
    (fst (selectCard "ABC123" "p2" 32 None sampleStarted)).

(** A reply of [n] accented letters: [n] code units in twice as many
    bytes. *)
Definition sampleAccents (n : nat) : string :=
  String.concat "" (replicate n "é").

(** * Properties *)

(** ** Arrays *)

Section arrays.
Context {A : Type}.
Implicit Types (f : A -> bool) (a : list A).

Lemma length_update_first f upd a :
  length (update_first f upd a) = length a.
Proof. induction a as [|x a IH]; simpl; [done|]. destruct (f x); simpl; lia. Qed.

Lemma update_first_none f upd a :
  List.find f a = None -> update_first f upd a = a.
Proof.
  induction a as [|x a IH]; simpl; [done|].
  destruct (f x); [done|]. intros H. by rewrite IH.
Qed.

(** When the update keeps the key, the first match is where it was. *)
Lemma find_update_first f upd a :
  (forall x, f (upd x) = f x) ->
  List.find f (update_first f upd a) = upd <$> List.find f a.
Proof.
  intros Hf. induction a as [|x a IH]; simpl; [done|].
  destruct (f x) eqn:E; simpl.
  - by rewrite Hf, E.
  - by rewrite E.
Qed.

(** A search on a key the update does not change sees through it. *)
Lemma find_update_first_other f g upd a :
  (forall x, g (upd x) = g x) ->
  List.find g (update_first f upd a)
  = (fun x => if f x then upd x else x) <$> List.find g a
  \/ List.find g (update_first f upd a) = List.find g a.
Proof.
  intros Hg. induction a as [|x a IH]; simpl; [by right|].
  destruct (f x) eqn:Ef; simpl.
  - rewrite Hg. destruct (g x) eqn:Eg; [left; simpl; by rewrite Ef | by right].
  - destruct (g x) eqn:Eg; [by right | exact IH].
Qed.

Lemma findIndex_lookup f a i :
  findIndex f a = Some i -> exists x, a !! i = Some x /\ f x = true.
Proof.
  revert i. induction a as [|x a IH]; simpl; intros i; [done|].
  destruct (f x) eqn:E.
  - intros [= <-]. eauto.
  - destruct (findIndex f a) as [j|]; simpl; [|done].
    intros [= <-]. destruct (IH j eq_refl) as (y & ? & ?). eauto.
Qed.

Lemma findIndex_find f a :
  findIndex f a = None <-> List.find f a = None.
Proof.
  induction a as [|x a IH]; simpl; [done|].
  destruct (f x); [done|].
  destruct (findIndex f a); simpl; split; try done.
  - intros H. apply IH in H. done.
  - intros _. by apply IH.
Qed.

End arrays.

(** ** Role assignment *)

Lemma sort_random_seq (order : list nat) (n : nat) :
  Forall (fun i => i < n)%nat order -> sort_random order (seq 0 n) = order.
Proof.
  unfold sort_random. induction 1 as [|i order Hi _ IH]; [done|].
  cbn. rewrite lookup_seq_lt by done. cbn. by rewrite IH.
Qed.

Lemma forEachi_assignRole_length off order i players :
  length (forEachi (assignRole off) i order players) = length players.
Proof.
  revert i players. induction order as [|x order IH]; intros i players;
    simpl; [done|].
  rewrite IH. unfold assignRole. by rewrite length_alter.
Qed.

(** A player whose index is not in the order keeps what it had. *)
Lemma forEachi_assignRole_other off order i players idx :
  idx ∉ order ->
  forEachi (assignRole off) i order players !! idx = players !! idx.
Proof.
  revert i players. induction order as [|x order IH]; intros i players Hnot;
    simpl; [done|].
  apply not_elem_of_cons in Hnot as [Hne Hnot].
  rewrite IH by done. unfold assignRole. by rewrite list_lookup_alter_ne.
Qed.

(** The player at position [k] of the order receives the role of index
    [(i + k + offset) % 5]. *)
Lemma forEachi_assignRole_at off order i players k idx :
  NoDup order -> order !! k = Some idx ->
  forEachi (assignRole off) i order players !! idx
  = Player.with_currentCardType
      (types_at (js_rem (Z.of_nat (i + k) + off) (Z.of_nat (length types))))
    <$> players !! idx.
Proof.
  revert i players k.
  induction order as [|x order IH]; intros i players k Hnd Hk; [done|].
  apply NoDup_cons in Hnd as [Hx Hnd]. destruct k as [|k]; simpl in *.
  - injection Hk as ->.
    rewrite forEachi_assignRole_other by done.
    unfold assignRole. rewrite list_lookup_alter_eq.
    by replace (i + 0)%nat with i by lia.
  - rewrite (IH (S i) _ k) by done.
    replace (S i + k)%nat with (i + S k)%nat by lia.
    unfold assignRole. rewrite list_lookup_alter_ne; [done|].
    intros ->. apply Hx. by eapply list_elem_of_lookup_2.
Qed.

(** Every element of a list of roles counts for at most one role type. *)
Lemma role_counts_le (l : list (option cardType)) :
  (length (List.filter (fun r => bool_decide (r = Some LOCATION)) l)
   + length (List.filter (fun r => bool_decide (r = Some CHARACTER)) l)
   + length (List.filter (fun r => bool_decide (r = Some INITIAL_TWIST)) l)
   + length (List.filter (fun r => bool_decide (r = Some ESCALATION)) l)
   + length (List.filter (fun r => bool_decide (r = Some FINAL_TWIST)) l)
   <= length l)%nat.
Proof.
  induction l as [|r l IH]; simpl; [lia|].
  destruct r as [[]|]; simpl; lia.
Qed.

Lemma role_count_pos (l : list (option cardType)) (t : cardType) :
  Some t ∈ l ->
  (1 <= length (List.filter (fun r => bool_decide (r = Some t)) l))%nat.
Proof.
  induction 1 as [x l|x y l _ IH]; simpl.
  - rewrite bool_decide_eq_true_2 by done. simpl. lia.
  - destruct (bool_decide _); simpl; lia.
Qed.

Lemma filter_role_map (t : cardType) (players : list Player) :
  length (List.filter
            (fun p => bool_decide (Player.currentCardType p = Some t)) players)
  = length (List.filter (fun r => bool_decide (r = Some t))
              (List.map Player.currentCardType players)).
Proof.
  induction players as [|p players IH]; simpl; [done|].
  destruct (bool_decide _); simpl; by rewrite IH.
Qed.

(** With a non-negative offset the five indexes [(i + offset) % 5] reach
    every role. *)
Lemma role_reached (off : Z) (t : cardType) :
  0 <= off ->
  exists i, (i < 5)%nat
    /\ types_at (js_rem (Z.of_nat i + off) (Z.of_nat (length types))) = Some t.
Proof.
  intros Hoff.
  assert (exists k, (k < 5)%nat /\ types !! k = Some t) as (k & Hk & Ht).
  { destruct t; [exists 0%nat|exists 1%nat|exists 2%nat|exists 3%nat|exists 4%nat];
      (split; [lia|done]). }
  exists (Z.to_nat ((Z.of_nat k - off) `mod` 5)).
  pose proof (Z.mod_pos_bound (Z.of_nat k - off) 5 ltac:(lia)) as Hb.
  split; [lia|].
  unfold types_at, js_rem. change (Z.of_nat (length types)) with 5.
  rewrite Z2Nat.id by lia.
  rewrite Z.rem_mod_nonneg by lia.
  rewrite Zplus_mod_idemp_l.
  replace (Z.of_nat k - off + off) with (Z.of_nat k) by lia.
  rewrite Z.mod_small by lia.
  assert ((Z.of_nat k <? 0) = false) as -> by lia.
  by rewrite Nat2Z.id.
Qed.

(** [addAIPlayers] brings a lobby of at most five players to exactly five
    when the session allows five, as [createGame] sets it. *)
Lemma addAIPlayers_five (fresh : nat -> string * string) (game : Game) :
  Settings.maxPlayers (Game.settings game) = 5 ->
  (length (Game.players game) <= 5)%nat ->
  length (Game.players (addAIPlayers fresh game)) = 5%nat.
Proof.
  intros Hmax Hlen. unfold addAIPlayers. simpl.
  rewrite length_app, length_map, length_seq, Hmax. lia.
Qed.

(** C5. In a round (number at least 1) of a session with exactly five
    participants, whatever order the shuffle produced, [assignCardTypes]
    gives each of the five role types to exactly one participant, and the
    participant at position [i] of the shuffled order receives
    [types[(i + offset) % 5]] with [offset = (roundNumber - 1) % 5]. *)
Theorem assignCardTypes_each_role_once (order : list nat) (game : Game) :
  length (Game.players game) = 5%nat ->
  1 <= Round.number (Game.round game) ->
  order ≡ₚ seq 0 5 ->
  let game' := assignCardTypes order game in
  let offset := (Round.number (Game.round game) - 1) `mod` 5 in
  (forall t : cardType,
      length (List.filter
                (fun p => bool_decide (Player.currentCardType p = Some t))
                (Game.players game')) = 1%nat)
  /\ (forall i playerIdx, order !! i = Some playerIdx ->
        exists p, Game.players game' !! playerIdx = Some p
          /\ Player.currentCardType p
             = types !! Z.to_nat ((Z.of_nat i + offset) `mod` 5)).
Proof.
  intros Hlen Hnum Hperm game' offset.
  assert (Hnd : NoDup order) by (rewrite Hperm; apply NoDup_seq).
  assert (Hlt : Forall (fun i => i < 5)%nat order).
  { apply Forall_forall. intros i Hi. rewrite Hperm in Hi.
    apply elem_of_seq in Hi. lia. }
  assert (Hoff : roundOffset game = offset).
  { unfold roundOffset, js_rem, offset. change (Z.of_nat (length types)) with 5.
    apply Z.rem_mod_nonneg; lia. }
  assert (Hoff0 : 0 <= offset < 5) by (apply Z.mod_pos_bound; lia).
  assert (Hplayers : Game.players game'
            = forEachi (assignRole offset) 0 order (Game.players game)).
  { unfold game', assignCardTypes. simpl.
    by rewrite Hlen, sort_random_seq, Hoff. }
  assert (Hat : forall i playerIdx, order !! i = Some playerIdx ->
            exists p, Game.players game' !! playerIdx = Some p
              /\ Player.currentCardType p
                 = types_at (js_rem (Z.of_nat i + offset)
                               (Z.of_nat (length types)))).
  { intros i playerIdx Hi. rewrite Hplayers.
    rewrite (forEachi_assignRole_at offset order 0 _ i playerIdx) by done.
    assert (playerIdx < length (Game.players game))%nat as Hin.
    { rewrite Hlen. eapply Forall_lookup_1 in Hlt; [|exact Hi]. done. }
    apply lookup_lt_is_Some_2 in Hin as [p Hp]. rewrite Hp. simpl.
    eexists. split; [done|]. done. }
  split.
  - assert (Hge : forall t : cardType,
              (1 <= length (List.filter
                  (fun r => bool_decide (r = Some t))
                  (List.map Player.currentCardType (Game.players game'))))%nat).
    { intros t. apply role_count_pos.
      destruct (role_reached offset t) as (i & Hi & Hrole); [lia|].
      assert (i < length order)%nat as Hio
        by (rewrite (Permutation_length Hperm), length_seq; lia).
      apply lookup_lt_is_Some_2 in Hio as [playerIdx Hidx].
      destruct (Hat i playerIdx Hidx) as (p & Hp & Hrp).
      rewrite <- Hrole, <- Hrp.
      apply list_elem_of_In, in_map, list_elem_of_In.
      by eapply list_elem_of_lookup_2. }
    pose proof (role_counts_le
                  (List.map Player.currentCardType (Game.players game'))) as Hle.
    rewrite length_map, Hplayers, forEachi_assignRole_length, Hlen in Hle.
    rewrite <- Hplayers in Hle.
    intros t. rewrite filter_role_map.
    pose proof (Hge LOCATION). pose proof (Hge CHARACTER).
    pose proof (Hge INITIAL_TWIST). pose proof (Hge ESCALATION).
    pose proof (Hge FINAL_TWIST).
    destruct t; lia.
  - intros i playerIdx Hi. destruct (Hat i playerIdx Hi) as (p & Hp & Hrp).
    exists p. split; [done|]. rewrite Hrp.
    unfold types_at, js_rem. change (Z.of_nat (length types)) with 5.
    rewrite Z.rem_mod_nonneg by lia.
    pose proof (Z.mod_pos_bound (Z.of_nat i + offset) 5 ltac:(lia)).
    by assert (((Z.of_nat i + offset) `mod` 5 <? 0) = false) as -> by lia.
Qed.

(** Concrete permutations are built one insertion at a time. *)
Ltac perm_insert :=
  first [ apply (Permutation_cons_app [] _ _)
        | apply (Permutation_cons_app [_] _ _)
        | apply (Permutation_cons_app [_; _] _ _)
        | apply (Permutation_cons_app [_; _; _] _ _)
        | apply (Permutation_cons_app [_; _; _; _] _ _) ]; simpl.
Ltac solve_perm := simpl; repeat perm_insert; reflexivity.

Lemma assignCardTypes_each_role_once_witness :
  Forall
    (fun t : cardType =>
       length (List.filter
                 (fun p => bool_decide (Player.currentCardType p = Some t))
                 (Game.players
                    (assignCardTypes [4; 2; 0; 3; 1]%nat
                       (sampleGame sampleStarted))))
       = 1%nat)
    types.
Proof.
  apply Forall_forall. intros t _. revert t.
  refine (proj1 (assignCardTypes_each_role_once [4; 2; 0; 3; 1]%nat
                   (sampleGame sampleStarted) _ _ _)).
  - vm_compute. reflexivity.
  - vm_compute. discriminate.
  - solve_perm.
Defined.

(** ** Dealing *)



Lemma random_index_lt (r : Q) (n : nat) :
  (0 <= r)%Q -> (r < 1)%Q -> (0 < n)%nat -> (random_index r n < n)%nat.
Proof.
  intros H0 H1 Hn. unfold random_index.
  set (x := (r * inject_Z (Z.of_nat n))%Q).
  assert (Hx0 : (0 <= x)%Q).
  { apply Qmult_le_0_compat; [done|].
    change 0%Q with (inject_Z 0). rewrite <- Zle_Qle. lia. }
  assert (Hx1 : (x < inject_Z (Z.of_nat n))%Q).
  { unfold x. rewrite <- (Qmult_1_l (inject_Z (Z.of_nat n))) at 2.
    apply Qmult_lt_compat_r; [|done].
    change 0%Q with (inject_Z 0). rewrite <- Zlt_Qlt. lia. }
  assert (0 <= Qfloor x).
  { change 0 with (Qfloor 0). by apply Qfloor_resp_le. }
  assert (Qfloor x < Z.of_nat n).
  { rewrite Zlt_Qlt. eapply Qle_lt_trans; [apply Qfloor_le|done]. }
  lia.
Qed.



Lemma filter_custom_none (l : list Card) :
  Forall (fun c => Card.isCustom c = false) l ->
  List.filter Card.isCustom l = [].
Proof. induction 1 as [|c l Hc _ IH]; simpl; [done|]. by rewrite Hc. Qed.

Lemma filter_custom_insert (l : list Card) (k : nat) (blank : Card) :
  Forall (fun c => Card.isCustom c = false) l ->
  (k < length l)%nat -> Card.isCustom blank = true ->
  List.filter Card.isCustom (<[k:=blank]> l) = [blank].
Proof.
  intros Hl. revert k. induction Hl as [|c l Hc Hl IH]; intros k Hk Hb;
    simpl in *; [lia|].
  destruct k as [|k]; simpl.
  - by rewrite Hb, filter_custom_none.
  - rewrite Hc. apply IH; [lia|done].
Qed.



Section dealing.
Variable cardData : CardData.
(** Modelled from the spec: the decks that [loadCardData] reads from the
    card-content provider's data files hold ids below the range of custom
    ids, and none of their cards is a custom card. *)
Hypothesis deck_ids_below :
  Forall (fun c => Card.id c < CUSTOM_CARD_ID_START) (deckCards cardData).
Hypothesis deck_not_custom :
  Forall (fun c => Card.isCustom c = false) (deckCards cardData).


End dealing.


(** ** Selection *)

Lemma assembleStory_players (game : Game) :
  Game.players (assembleStory game) = Game.players game.
Proof. done. Qed.

Lemma assembleStory_submissions (game : Game) :
  Round.submissions (Game.round (assembleStory game))
  = List.map newSubmission (Game.players game).
Proof. done. Qed.

Lemma advanceIfAllSelected_players (game : Game) :
  Game.players (advanceIfAllSelected game) = Game.players game.
Proof. unfold advanceIfAllSelected. by destruct (allSelected game). Qed.

(** What a successful [selectCard] did: the game was in SELECTION, the
    player was found, and the stored game is the closing check applied to
    the game with that player's selection recorded. *)
Lemma selectCard_success gameId playerId cardId customText games games' :
  selectCard gameId playerId cardId customText games = (games', true) ->
  exists game player hand,
    games !! gameId = Some game
    /\ Round.status (Game.round game) = roundStatus.SELECTION
    /\ List.find (has_id playerId) (Game.players game) = Some player
    /\ games'
       = <[gameId:=advanceIfAllSelected
                     (Game.with_players
                        (update_first (has_id playerId)
                           (fun p => Player.with_selectedCard (value cardId)
                                       (Player.with_hand (Some hand) p))
                           (Game.players game)) game)]> games.
Proof.
  unfold selectCard. intros H.
  destruct (games !! gameId) as [game|] eqn:Hg; [|done].
  destruct (bool_decide _) eqn:Hs; simpl in H; [|done].
  apply bool_decide_eq_true in Hs.
  destruct (List.find _ _) as [player|] eqn:Hp; [|done].
  destruct (Player.hand player) as [hand|]; [|done].
  destruct (findIndex _ hand) as [cardIndex|]; [|done].
  injection H as <-. eauto 10.
Qed.

(** ** The narrative *)

Lemma collectSelected_spec (sel : cardType -> option Card) (p : Player)
    (t : cardType) :
  collectSelected sel p t
  = if bool_decide (Player.currentCardType p = Some t)
    then match broughtCard p with Some c => Some c | None => sel t end
    else sel t.
Proof.
  unfold collectSelected, broughtCard.
  destruct (Player.currentCardType p) as [t'|]; [|by case_bool_decide].
  destruct (Player.hand p) as [hand|]; [|by case_bool_decide].
  destruct (not_null _); [|by case_bool_decide].
  destruct (List.find _ hand) as [c|]; [|by case_bool_decide].
  case_bool_decide as Ht; destruct (decide (t = t')); congruence.
Qed.

Lemma fold_collectSelected (players : list Player)
    (sel : cardType -> option Card) (t : cardType) :
  NoDup (omap Player.currentCardType players) ->
  fold_left collectSelected players sel t
  = match holderCard players t with Some c => Some c | None => sel t end.
Proof.
  revert sel. induction players as [|p players IH]; intros sel Hnd; [done|].
  cbn [fold_left]. unfold holderCard. cbn [List.find].
  assert (NoDup (omap Player.currentCardType players)) as Hnd'.
  { simpl in Hnd. destruct (Player.currentCardType p); [|done].
    by apply NoDup_cons in Hnd as [_ ?]. }
  rewrite IH by done. unfold holderCard.
  rewrite collectSelected_spec.
  case_bool_decide as Hrole; [|done].
  assert (List.find
            (fun p => bool_decide (Player.currentCardType p = Some t)) players
          = None) as ->.
  { destruct (List.find _ players) as [q|] eqn:Hq; [|done]. exfalso.
    apply find_some in Hq as [Hin Hq]. apply bool_decide_eq_true in Hq.
    simpl in Hnd. rewrite Hrole in Hnd. apply NoDup_cons in Hnd as [Hnotin _].
    apply Hnotin. apply list_elem_of_omap. exists q.
    split; [by apply list_elem_of_In|done]. }
  done.
Qed.

(** With no role held twice, the narrative [assembleStory] stores is the
    one told from the roles. *)
Lemma assembleStory_narrative (game : Game) :
  NoDup (omap Player.currentCardType (Game.players game)) ->
  Round.story (Game.round (assembleStory game))
  = narrativeOf (Game.players game).
Proof.
  intros Hnd. unfold assembleStory, narrativeOf. simpl.
  rewrite !fold_collectSelected by done.
  by destruct (holderCard (Game.players game) LOCATION),
    (holderCard (Game.players game) CHARACTER),
    (holderCard (Game.players game) INITIAL_TWIST),
    (holderCard (Game.players game) ESCALATION),
    (holderCard (Game.players game) FINAL_TWIST).
Qed.

Lemma assembleStory_fresh (game : Game) :
  Forall2 freshSubmission (Game.players game)
    (Round.submissions (Game.round (assembleStory game))).
Proof.
  simpl. apply Forall2_fmap_r, Forall_Forall2_diag, Forall_forall.
  intros p _. unfold freshSubmission, newSubmission. simpl. done.
Qed.

(** C7. A successful [selectCard] records the card id on the selecting
    participant.  The phase it leaves is STORYTELLING exactly when every
    participant then has a non-null selected card: in that case the
    narrative stored is the one told from the roles (with no role held
    twice: in the fixed order of the roles, the connective of each role
    followed by the text of the card its holder selected, or by the stock
    phrase for a card without text) and the submissions are one fresh
    entry per participant, in participant order, carrying the
    participant's id and selected card, a null moral, zero votes and
    has-voted false.  Otherwise the phase is still SELECTION and the
    narrative and the submissions are untouched. *)
Theorem selectCard_advances_when_all_selected
    (gameId playerId : string) (cardId : Z) (customText : option string)
    (games games' : gmap string Game) :
  selectCard gameId playerId cardId customText games = (games', true) ->
  exists game game',
    games !! gameId = Some game
    /\ games' !! gameId = Some game'
    /\ Round.status (Game.round game) = roundStatus.SELECTION
    /\ (exists player',
          List.find (has_id playerId) (Game.players game') = Some player'
          /\ Player.selectedCard player' = value cardId)
    /\ (Round.status (Game.round game') = roundStatus.STORYTELLING
        <-> Forall (fun p => Player.selectedCard p <> null)
              (Game.players game'))
    /\ (Forall (fun p => Player.selectedCard p <> null)
          (Game.players game') ->
        (NoDup (omap Player.currentCardType (Game.players game')) ->
         Round.story (Game.round game') = narrativeOf (Game.players game'))
        /\ Forall2
             (fun p s =>
                Submission.playerId s = Player.id p
                /\ (forall c, Player.selectedCard p = value c ->
                              Submission.cardId s = c)
                /\ Submission.moral s = None
                /\ Submission.votes s = 0%nat
                /\ Submission.hasVoted s = false)
             (Game.players game') (Round.submissions (Game.round game')))
    /\ (~ Forall (fun p => Player.selectedCard p <> null)
            (Game.players game') ->
        Round.status (Game.round game') = roundStatus.SELECTION
        /\ Round.story (Game.round game') = Round.story (Game.round game)
        /\ Round.submissions (Game.round game')
           = Round.submissions (Game.round game)).
Proof.
  intros H.
  destruct (selectCard_success _ _ _ _ _ _ H)
    as (game & player & hand & Hg & Hs & Hp & ->).
  set (select := fun p => Player.with_selectedCard (value cardId)
                            (Player.with_hand (Some hand) p)).
  set (game1 := Game.with_players
                  (update_first (has_id playerId) select (Game.players game))
                  game).
  exists game, (advanceIfAllSelected game1).
  split; [done|]. split; [by rewrite lookup_insert_eq|]. split; [done|].
  rewrite advanceIfAllSelected_players.
  split.
  { exists (select player). split; [|done].
    unfold game1. simpl. rewrite find_update_first by done. by rewrite Hp. }
  assert (allSelected game1 = true
          <-> Forall (fun p => Player.selectedCard p <> null)
                (Game.players game1)) as Hall.
  { unfold allSelected. rewrite forallb_forall, Forall_forall.
    split; intros Hx p Hin.
    - apply list_elem_of_In in Hin. specialize (Hx p Hin).
      by destruct (Player.selectedCard p).
    - apply list_elem_of_In in Hin. specialize (Hx p Hin).
      by destruct (Player.selectedCard p). }
  unfold advanceIfAllSelected.
  destruct (allSelected game1) eqn:Hsel.
  - split; [split; [by intros _; apply Hall|done]|]. split.
    + intros _. split.
      * intros Hnd. apply (assembleStory_narrative game1 Hnd).
      * simpl. apply Forall2_fmap_r, Forall_Forall2_diag, Forall_forall.
        intros p _. unfold newSubmission. simpl.
        repeat split. by intros c ->.
    + intros Hno. destruct Hno. by apply Hall.
  - assert (~ Forall (fun p => Player.selectedCard p <> null)
                (Game.players game1)) as Hno.
    { intros Hx. apply Hall in Hx. congruence. }
    split; [split; [|done]|].
    { unfold game1. simpl. rewrite Hs. done. }
    split; [done|]. intros _. unfold game1. simpl. done.
Qed.

(** Ada picks her blank card without writing on it, the last pick of the
    round: the narrative is assembled, with the stock phrase for her
    card, and everybody gets a fresh submission. *)
Lemma selectCard_advances_when_all_selected_witness :
  exists game',
    fst (selectCard "ABC123" "p1" 10000 None sampleAwaitingAda)
    !! "ABC123"%string = Some game'
    /\ Round.status (Game.round (sampleGame sampleAwaitingAda))
       = roundStatus.SELECTION
    /\ Round.status (Game.round game') = roundStatus.STORYTELLING
    /\ Round.story (Game.round game')
       = "In a lighthouse , a strange character  NOTICES his own face on every poster . But then, everyone forgets his name  ALL BECAUSE tomorrow had already happened"%string
    /\ Round.submissions (Game.round game')
       = [ Submission.mk "p1" 10000 None 0%nat false;
           Submission.mk "p2" 32 None 0%nat false;
           Submission.mk "a1" 2 None 0%nat false;
           Submission.mk "a2" 43 None 0%nat false;
           Submission.mk "a3" 23 None 0%nat false ].
Proof.
  destruct (selectCard_advances_when_all_selected "ABC123" "p1" 10000 None
              sampleAwaitingAda
              (fst (selectCard "ABC123" "p1" 10000 None sampleAwaitingAda)))
    as (game & game' & _ & Hg' & _ & _ & Hiff & Hall & _).
  - vm_compute. reflexivity.
  - exists game'. split; [exact Hg'|].
    split; [vm_compute; reflexivity|].
    vm_compute in Hg'. injection Hg' as <-.
    match type of Hall with
    | ?everybody -> _ =>
        assert everybody as Hsel
          by (repeat (apply Forall_cons_2; [vm_compute; discriminate|]);
              apply Forall_nil_2)
    end.
    destruct (Hall Hsel) as [Hstory _].
    split; [by apply Hiff|].
    split; [|vm_compute; reflexivity].
    rewrite Hstory; [vm_compute; reflexivity|].
    apply (bool_decide_unpack _). vm_compute. exact I.
Defined.

(** ** Simulated votes *)

(** When the loop stops, it stops at the first candidate that brings what
    is left of the scaled draw to zero or below. *)
Lemma pickWeighted_some (x : float) (subs : list Submission)
    (ws : list float) (id : string) :
  pickWeighted x subs ws = Some id ->
  exists i s,
    subs !! i = Some s
    /\ Submission.playerId s = id
    /\ PrimFloat.leb (fold_left PrimFloat.sub (take (S i) ws) x) 0 = true
    /\ (forall j, (j < i)%nat ->
          PrimFloat.leb (fold_left PrimFloat.sub (take (S j) ws) x) 0
          = false).
Proof.
  revert ws x. induction subs as [|s subs IH]; intros ws x; [done|].
  destruct ws as [|w ws]; [done|]. cbn [pickWeighted].
  destruct (PrimFloat.leb (x - w) 0) eqn:E.
  - intros [= <-]. exists 0%nat, s. split; [done|]. split; [done|].
    split; [by destruct ws|]. intros j Hj. lia.
  - intros Hpick. destruct (IH _ _ Hpick) as (i & si & Hi & Hid & Hle & Hlt).
    exists (S i), si. split; [done|]. split; [done|]. split; [exact Hle|].
    intros [|j] Hj; [by destruct ws|]. apply Hlt. lia.
Qed.

(** When the loop falls through, no candidate has brought what is left of
    the scaled draw to zero or below. *)
Lemma pickWeighted_none (x : float) (subs : list Submission)
    (ws : list float) :
  length ws = length subs ->
  pickWeighted x subs ws = None ->
  forall j, (j < length subs)%nat ->
    PrimFloat.leb (fold_left PrimFloat.sub (take (S j) ws) x) 0 = false.
Proof.
  revert ws x. induction subs as [|s subs IH]; intros ws x Hlen Hpick j Hj;
    [simpl in Hj; lia|].
  destruct ws as [|w ws]; [done|]. cbn [pickWeighted] in Hpick.
  destruct (PrimFloat.leb (x - w) 0) eqn:E; [done|].
  destruct j as [|j]; [by destruct ws|].
  apply (IH ws (x - w)%float); [by injection Hlen|done|simpl in Hj; lia].
Qed.

Lemma pickWeighted_elem (subs : list Submission) (ws : list float)
    (x : float) id :
  pickWeighted x subs ws = Some id ->
  exists s, s ∈ subs /\ Submission.playerId s = id.
Proof.
  intros Hpick. destruct (pickWeighted_some _ _ _ _ Hpick)
    as (i & s & Hi & Hid & _).
  exists s. split; [by eapply list_elem_of_lookup_2|done].
Qed.

Lemma votable_elem submissions aiPlayerId s :
  s ∈ votable submissions aiPlayerId ->
  s ∈ submissions /\ Submission.playerId s <> aiPlayerId.
Proof.
  unfold votable. rewrite list_elem_of_In, filter_In, <- list_elem_of_In.
  intros [Hin Hne]. split; [done|].
  unfold of_player in Hne. apply negb_true_iff in Hne.
  by apply String.eqb_neq in Hne.
Qed.

(** With a candidate at hand the vote goes to one of the candidates: the
    one the loop stops at or, when the loop falls through, the one the
    closing draw points at. *)
Lemma simulateAIVote_votes (r : float) (r' : Q)
    (submissions : list Submission) (aiPlayerId : string)
    (players : list Player) :
  (0 <= r')%Q -> (r' < 1)%Q ->
  let candidates := votable submissions aiPlayerId in
  let weights := List.map (voteWeight players) candidates in
  let left n :=
    fold_left PrimFloat.sub (take n weights) (r * totalWeight weights)%float in
  candidates <> [] ->
  exists i s,
    candidates !! i = Some s
    /\ simulateAIVote r r' submissions aiPlayerId players
       = Some (Submission.playerId s)
    /\ (PrimFloat.leb (left (S i)) 0 = true
        /\ (forall j, (j < i)%nat -> PrimFloat.leb (left (S j)) 0 = false)
        \/ (forall j, (j < length candidates)%nat ->
              PrimFloat.leb (left (S j)) 0 = false)).
Proof.
  intros Hr0 Hr1 candidates weights left Hne.
  unfold simulateAIVote. fold candidates. fold weights.
  destruct (length candidates =? 0)%nat eqn:Hlen.
  { apply Nat.eqb_eq in Hlen. by destruct candidates. }
  destruct (pickWeighted _ candidates weights) as [id|] eqn:Hpick.
  - destruct (pickWeighted_some _ _ _ _ Hpick)
      as (i & s & Hi & <- & Hle & Hlt).
    exists i, s. split; [done|]. split; [done|]. left. split; done.
  - assert (random_index r' (length candidates) < length candidates)%nat
      as Hidx.
    { apply random_index_lt; [done..|]. destruct candidates; [done|].
      simpl. lia. }
    destruct (lookup_lt_is_Some_2 _ _ Hidx) as [s Hs].
    exists (random_index r' (length candidates)), s.
    split; [done|]. split; [by rewrite Hs|]. right.
    apply pickWeighted_none; [|done]. unfold weights. apply length_map.
Qed.

(** Whoever the vote goes to is another participant and owns a
    submission. *)
Lemma simulateAIVote_elem (r : float) (r' : Q)
    (submissions : list Submission)
    (aiPlayerId : string) (players : list Player) (votedForId : string) :
  simulateAIVote r r' submissions aiPlayerId players = Some votedForId ->
  votedForId <> aiPlayerId
  /\ exists s, s ∈ submissions /\ Submission.playerId s = votedForId.
Proof.
  unfold simulateAIVote. intros Hv.
  set (candidates := votable submissions aiPlayerId) in *.
  destruct (length candidates =? 0)%nat; [done|].
  assert (exists s, s ∈ candidates /\ Submission.playerId s = votedForId)
    as (s & Hs & Hid).
  { destruct (pickWeighted _ _ _) eqn:Hpick.
    - injection Hv as ->. by eapply pickWeighted_elem.
    - destruct (candidates !! _) as [s|] eqn:Hl; [|done].
      injection Hv as <-. exists s. split; [|done].
      by eapply list_elem_of_lookup_2. }
  apply votable_elem in Hs as [Hin Hne]. subst votedForId. eauto.
Qed.



(** ** Fallback morals *)

Lemma generateFallbackMoral_nonempty (story : string) :
  String.eqb (generateFallbackMoral story) "" = false.
Proof.
  unfold generateFallbackMoral.
  pose proof (Nat.mod_upper_bound (js_length story) (length fallbackMorals)
                ltac:(done)) as Hlt.
  set (k := (js_length story mod length fallbackMorals)%nat) in *.
  change (length fallbackMorals) with 10%nat in Hlt.
  do 10 (destruct k as [|k]; [reflexivity|]). lia.
Qed.

Lemma generateAIMoral_failed (story : string) (api : ApiOutcome) :
  api_failed api ->
  generateAIMoral story api = Returned (generateFallbackMoral story).
Proof. by destruct api. Qed.

Lemma aiMoralFor_failed (story : string) (d : MoralDraw) :
  api_failed (api d) -> aiMoralFor story d = generateFallbackMoral story.
Proof. intros H. unfold aiMoralFor. by rewrite generateAIMoral_failed. Qed.

Section arrays_by_key.
Context {A : Type}.
Implicit Types (f g : A -> bool) (upd : A -> A) (a : list A).

(** An update at one key is invisible to a search on another. *)
Lemma find_update_first_disjoint f g upd a :
  (forall x, f x = true -> g x = false) ->
  (forall x, f x = true -> g (upd x) = false) ->
  List.find g (update_first f upd a) = List.find g a.
Proof.
  intros Hfg Hfu. induction a as [|x a IH]; simpl; [done|].
  destruct (f x) eqn:Ef; simpl.
  - by rewrite (Hfg x Ef), (Hfu x Ef).
  - by rewrite IH.
Qed.

Lemma update_first_app f upd a x a' :
  Forall (fun y => f y = false) a -> f x = true ->
  update_first f upd (a ++ x :: a') = a ++ upd x :: a'.
Proof.
  intros Ha Hx. induction Ha as [|y a Hy _ IH]; simpl.
  - by rewrite Hx.
  - by rewrite Hy, IH.
Qed.

End arrays_by_key.

(** The loop of [generateAIMorals] when every call ends on the fallback
    path and no draw is missing. *)
Lemma generateAIMorals_loop_failed (todo : list Player)
    (draws : list MoralDraw) (game : Game) :
  Forall (fun d => api_failed (api d)) draws ->
  (length (List.filter needsMoral todo) <= length draws)%nat ->
  let moral := generateFallbackMoral (Round.story (Game.round game)) in
  let game' := generateAIMorals_loop todo draws game in
  Game.players game'
  = fold_left
      (fun ps p =>
         if needsMoral p
         then update_first (has_id (Player.id p))
                (Player.with_submittedMoral (value moral)) ps
         else ps) todo (Game.players game)
  /\ Round.submissions (Game.round game')
     = fold_left
         (fun ss p =>
            if needsMoral p
            then update_first (of_player (Player.id p))
                   (Submission.with_moral (Some moral)) ss
            else ss) todo (Round.submissions (Game.round game))
  /\ Round.story (Game.round game') = Round.story (Game.round game).
Proof.
  revert draws game. induction todo as [|p todo IH]; intros draws game Hf Hlen;
    [done|].
  simpl in *. destruct (needsMoral p) eqn:Hn.
  - destruct draws as [|d draws]; simpl in Hlen; [lia|].
    apply Forall_cons in Hf as [Hd Hf].
    destruct (IH draws (generateAIMorals_step d (Player.id p) game) Hf
                ltac:(lia)) as (Hp & Hs & Hst).
    unfold generateAIMorals_step in *. simpl in *.
    rewrite aiMoralFor_failed in * by done. auto.
  - by apply IH.
Qed.

(** With distinct ids, the players after the loop are the players before
    it, each simulated player in need holding the moral. *)
Lemma giveMoral_fold (moral : string) (pre suf : list Player) :
  NoDup (List.map Player.id (pre ++ suf)) ->
  fold_left
    (fun ps p =>
       if needsMoral p
       then update_first (has_id (Player.id p))
              (Player.with_submittedMoral (value moral)) ps
       else ps) suf (List.map (giveMoral moral) pre ++ suf)
  = List.map (giveMoral moral) (pre ++ suf).
Proof.
  revert pre. induction suf as [|p suf IH]; intros pre Hnd; simpl.
  - by rewrite !app_nil_r.
  - replace (pre ++ p :: suf) with ((pre ++ [p]) ++ suf) in *
      by (by rewrite <- app_assoc).
    rewrite <- (IH (pre ++ [p]) Hnd).
    f_equal. rewrite map_app. simpl. rewrite <- app_assoc. simpl.
    destruct (needsMoral p) eqn:Hn;
      [|by replace (giveMoral moral p) with p
          by (unfold giveMoral; by rewrite Hn)].
    replace (giveMoral moral p)
      with (Player.with_submittedMoral (value moral) p)
      by (unfold giveMoral; by rewrite Hn).
    apply update_first_app; [|unfold has_id; apply String.eqb_refl].
    apply Forall_forall. intros q Hq.
    apply list_elem_of_In, in_map_iff in Hq as (q0 & <- & Hq0).
    assert (Player.id (giveMoral moral q0) = Player.id q0) as Hid
      by (unfold giveMoral; by destruct (needsMoral q0)).
    unfold has_id. rewrite Hid. apply String.eqb_neq. intros Heq.
    rewrite !map_app in Hnd. simpl in Hnd.
    apply NoDup_app in Hnd as [Hnd _]. apply NoDup_app in Hnd as (_ & Hnd & _).
    apply (Hnd (Player.id q0)).
    + apply list_elem_of_In, in_map. done.
    + rewrite Heq. left.
Qed.

(** The submission of a simulated player in need holds the moral after
    the loop. *)
Lemma giveMoral_submissions (moral : string) (todo : list Player)
    (ss : list Submission) (p : Player) :
  p ∈ todo -> needsMoral p = true ->
  List.find (of_player (Player.id p))
    (fold_left
       (fun ss p =>
          if needsMoral p
          then update_first (of_player (Player.id p))
                 (Submission.with_moral (Some moral)) ss
          else ss) todo ss)
  = Submission.with_moral (Some moral)
    <$> List.find (of_player (Player.id p)) ss.
Proof.
  intros Hin Hn.
  assert (Hidem : forall (todo : list Player) (ss : list Submission),
    (exists s0, List.find (of_player (Player.id p)) ss
                = Submission.with_moral (Some moral) <$> s0) ->
    List.find (of_player (Player.id p))
      (fold_left
         (fun ss p =>
            if needsMoral p
            then update_first (of_player (Player.id p))
                   (Submission.with_moral (Some moral)) ss
            else ss) todo ss)
    = List.find (of_player (Player.id p)) ss).
  { clear. induction todo as [|q todo IH]; intros ss Hs; simpl; [done|].
    destruct (needsMoral q); [|by apply IH].
    assert (List.find (of_player (Player.id p))
              (update_first (of_player (Player.id q))
                 (Submission.with_moral (Some moral)) ss)
            = List.find (of_player (Player.id p)) ss) as Hstep.
    { destruct (String.eqb_spec (Player.id q) (Player.id p)) as [->|Hne].
      - rewrite find_update_first by done.
        destruct Hs as (s0 & ->). by destruct s0.
      - apply find_update_first_disjoint; intros x Hx; unfold of_player in *;
          simpl; apply String.eqb_eq in Hx; apply String.eqb_neq; congruence. }
    rewrite IH; [done|]. rewrite Hstep. done. }
  revert Hin ss. induction todo as [|q todo IH]; intros Hin ss.
  { by apply elem_of_nil in Hin. }
  apply elem_of_cons in Hin as [<- | Hin]; simpl.
  - rewrite Hn. rewrite Hidem.
    + by rewrite find_update_first.
    + rewrite find_update_first by done. eauto.
  - destruct (needsMoral q); [|by apply IH].
    rewrite IH by done.
    destruct (String.eqb_spec (Player.id q) (Player.id p)) as [->|Hne].
    + rewrite find_update_first by done.
      by destruct (List.find _ ss).
    + f_equal. apply find_update_first_disjoint; intros x Hx;
        unfold of_player in *; simpl; apply String.eqb_eq in Hx;
        apply String.eqb_neq; congruence.
Qed.

Lemma failsafeMoral_idle (players : list Player) (game : Game) :
  Forall (fun p => needsMoral p = false) players ->
  fold_left failsafeMoral players game = game.
Proof.
  induction 1 as [|p players Hp _ IH]; simpl; [done|].
  unfold failsafeMoral at 2. by rewrite Hp.
Qed.

Lemma needsMoral_giveMoral (story : string) (p : Player) :
  needsMoral (giveMoral (generateFallbackMoral story) p) = false.
Proof.
  unfold giveMoral. destruct (needsMoral p) eqn:Hn; [|done].
  unfold needsMoral in *. simpl.
  rewrite generateFallbackMoral_nonempty. simpl. apply andb_false_r.
Qed.

(** [generateAIMorals] when every call ends on the fallback path. *)
Lemma generateAIMorals_failed (draws : list MoralDraw) (gid : string)
    (games : gmap string Game) (game : Game) :
  games !! gid = Some game ->
  NoDup (List.map Player.id (Game.players game)) ->
  Forall (fun d => api_failed (api d)) draws ->
  (length (List.filter needsMoral (Game.players game)) <= length draws)%nat ->
  let moral := generateFallbackMoral (Round.story (Game.round game)) in
  exists game',
    generateAIMorals draws gid games !! gid = Some game'
    /\ Game.players game' = List.map (giveMoral moral) (Game.players game)
    /\ (forall p s,
          p ∈ Game.players game -> needsMoral p = true ->
          List.find (of_player (Player.id p))
            (Round.submissions (Game.round game)) = Some s ->
          List.find (of_player (Player.id p))
            (Round.submissions (Game.round game'))
          = Some (Submission.with_moral (Some moral) s)).
Proof.
  intros Hg Hnd Hf Hlen moral.
  unfold generateAIMorals. rewrite Hg.
  destruct (generateAIMorals_loop_failed (Game.players game) draws game Hf Hlen)
    as (Hp & Hs & _).
  fold moral in Hp, Hs.
  pose proof (giveMoral_fold moral [] (Game.players game) Hnd) as Hfold.
  simpl in Hfold. rewrite Hfold in Hp. clear Hfold.
  set (game1 := generateAIMorals_loop (Game.players game) draws game) in *.
  match goal with
  | |- context [fold_left failsafeMoral (Game.players ?g) ?g] =>
      set (game2 := g)
  end.
  assert (Hp2 : Game.players game2 = Game.players game1)
    by (unfold game2; by destruct (_ && _)).
  assert (Hs2 : Round.submissions (Game.round game2)
                = Round.submissions (Game.round game1))
    by (unfold game2; by destruct (_ && _)).
  rewrite failsafeMoral_idle.
  2:{ rewrite Hp2, Hp. apply Forall_forall. intros q Hq.
      apply list_elem_of_In, in_map_iff in Hq as (q0 & <- & _).
      apply needsMoral_giveMoral. }
  exists game2. split; [by rewrite lookup_insert_eq|].
  split; [by rewrite Hp2|].
  intros p s Hin Hn Hfind. rewrite Hs2, Hs.
  rewrite giveMoral_submissions by done. by rewrite Hfind.
Qed.

(** The acknowledgment of [submitMoral] never depends on what the service
    calls came to. *)
Lemma onSubmitMoral_ack (draws draws' : list MoralDraw)
    (playerData : option PlayerData) (gid moral : string)
    (games : gmap string Game) :
  fst (onSubmitMoral draws playerData gid moral games)
  = fst (onSubmitMoral draws' playerData gid moral games).
Proof.
  unfold onSubmitMoral. destruct playerData as [pd|]; [|done].
  destruct (negb _); [done|]. destruct (String.eqb moral ""); [done|].
  destruct (getGameState gid games); [|done].
  destruct (submitMoral _ _ _ _) as [games' ok]. destruct ok; [|done].
  simpl. destruct (getGameState gid games'); [|done].
  by destruct (bool_decide _).
Qed.

(** C9. The fallback path of simulated-moral generation is deterministic
    and silent.  [generateAIMoral] never throws, so the manager's own
    random fallback is never reached; when the call is unavailable, fails
    or times out, the moral is [fallbackMorals[story.length % 10]], a
    function of the narrative's length alone (its length in UTF-16 code
    units, as [.length] counts), so two such runs on the same narrative
    agree; in [generateAIMorals] every simulated participant in
    need, and its submission, receive that string; and the acknowledgment
    the submitting client receives is the same whatever the service calls
    came to. *)
Theorem fallback_moral_deterministic :
  (forall story api, generateAIMoral story api <> Thrown)
  /\ (forall story api,
        api_failed api ->
        generateAIMoral story api
        = Returned (nth (js_length story mod 10) fallbackMorals ""%string))
  /\ (forall story story' api api',
        api_failed api -> api_failed api' ->
        js_length story = js_length story' ->
        generateAIMoral story api = generateAIMoral story' api')
  /\ (forall draws gid games game,
        games !! gid = Some game ->
        NoDup (List.map Player.id (Game.players game)) ->
        Forall (fun d => api_failed (api d)) draws ->
        (length (List.filter needsMoral (Game.players game))
         <= length draws)%nat ->
        let moral := generateFallbackMoral (Round.story (Game.round game)) in
        exists game',
          generateAIMorals draws gid games !! gid = Some game'
          /\ Game.players game'
             = List.map (giveMoral moral) (Game.players game)
          /\ (forall p s,
                p ∈ Game.players game -> needsMoral p = true ->
                List.find (of_player (Player.id p))
                  (Round.submissions (Game.round game)) = Some s ->
                List.find (of_player (Player.id p))
                  (Round.submissions (Game.round game'))
                = Some (Submission.with_moral (Some moral) s)))
  /\ (forall draws draws' playerData gid moral games,
        fst (onSubmitMoral draws playerData gid moral games)
        = fst (onSubmitMoral draws' playerData gid moral games)).
Proof.
  split; [|split; [|split; [|split]]].
  - intros story api. by destruct api.
  - intros story api Hf. by rewrite generateAIMoral_failed.
  - intros story story' api api' Hf Hf' Hlen.
    rewrite !generateAIMoral_failed by done.
    unfold generateFallbackMoral. by rewrite Hlen.
  - apply generateAIMorals_failed.
  - apply onSubmitMoral_ack.
Qed.


Lemma fallback_moral_deterministic_witness :
  generateAIMoral "Once upon a time" TimedOut
  = generateAIMoral "In a lighthouse!" Rejected
  /\ generateAIMoral "In a café" TimedOut
     = Returned
         "In the twilight between logic and fear lies the truth we dare not face."%string
  /\ exists game',
       sampleVoting !! "ABC123"%string = Some game'
       /\ List.map Player.submittedMoral (Game.players game')
          = [value "Never answer a phone in the wall."%string;
             value "Names are borrowed."%string;
             value (generateFallbackMoral
                      (Round.story (Game.round (sampleGame sampleStorytelling))));
             value (generateFallbackMoral
                      (Round.story (Game.round (sampleGame sampleStorytelling))));
             value (generateFallbackMoral
                      (Round.story (Game.round (sampleGame sampleStorytelling))))].
Proof.
  destruct fallback_moral_deterministic as (_ & Hidx & Hdet & Hgame & _).
  split; [|split].
  - apply Hdet; [exact I | exact I | reflexivity].
  - rewrite Hidx by exact I. vm_compute. reflexivity.
  - set (games :=
           fst (submitMoral "ABC123" "p2" "Names are borrowed."
                  (fst (submitMoral "ABC123" "p1"
                          "Never answer a phone in the wall."
                          sampleStorytelling)))).
    destruct (Hgame
                [ {| api := TimedOut; funnyPick := 0 |};
                  {| api := Unavailable; funnyPick := 0 |};
                  {| api := Rejected; funnyPick := 0 |} ]
                "ABC123"%string games (sampleGame games))
      as (game' & Hg' & Hp & _).
    + vm_compute. reflexivity.
    + apply (bool_decide_unpack _). vm_compute. exact I.
    + repeat constructor.
    + vm_compute. lia.
    + exists game'. split; [exact Hg'|]. rewrite Hp. vm_compute. reflexivity.
Defined.

(** ** The host flag *)

Lemma hosted_insert games gid game :
  hosted games -> hasHost game = true -> hosted (<[gid:=game]> games).
Proof.
  intros Hinv Hh gid' game'. rewrite lookup_insert.
  case_decide; [by intros [= <-]|]. apply Hinv.
Qed.

Lemma hosted_delete games gid : hosted games -> hosted (delete gid games).
Proof.
  intros Hinv gid' game'. rewrite lookup_delete.
  case_decide; [done|]. apply Hinv.
Qed.

Section host_flags.
Implicit Types (upd : Player -> Player) (players : list Player).

Lemma existsb_isHost_update_first f upd players :
  (forall p, Player.isHost (upd p) = Player.isHost p) ->
  existsb Player.isHost (update_first f upd players)
  = existsb Player.isHost players.
Proof.
  intros Hupd. induction players as [|p players IH]; simpl; [done|].
  destruct (f p); simpl; [by rewrite Hupd | by rewrite IH].
Qed.

Lemma existsb_isHost_alter upd i players :
  (forall p, Player.isHost (upd p) = Player.isHost p) ->
  existsb Player.isHost (alter upd i players)
  = existsb Player.isHost players.
Proof.
  intros Hupd. revert i. induction players as [|p players IH]; intros i;
    [done|].
  destruct i as [|i]; [simpl; by rewrite Hupd|].
  change (alter upd (S i) (p :: players)) with (p :: alter upd i players).
  simpl. by rewrite IH.
Qed.

Lemma existsb_isHost_map upd players :
  (forall p, Player.isHost (upd p) = Player.isHost p) ->
  existsb Player.isHost (List.map upd players)
  = existsb Player.isHost players.
Proof.
  intros Hupd. induction players as [|p players IH]; simpl; [done|].
  by rewrite Hupd, IH.
Qed.

Lemma existsb_isHost_forEachi off order i players :
  existsb Player.isHost (forEachi (assignRole off) i order players)
  = existsb Player.isHost players.
Proof.
  revert i players. induction order as [|x order IH]; intros i players;
    simpl; [done|].
  rewrite IH. unfold assignRole. by apply existsb_isHost_alter.
Qed.

Lemma existsb_isHost_dealPlayers cardData next players draws :
  existsb Player.isHost (dealPlayers cardData next players draws)
  = existsb Player.isHost players.
Proof.
  revert next draws. induction players as [|p players IH]; intros next draws;
    [done|].
  destruct draws as [|d draws]; [done|]. simpl.
  destruct (dealPlayer cardData next p d) as [next' p'] eqn:E. simpl.
  rewrite IH. f_equal.
  unfold dealPlayer in E. destruct (_ && _); by injection E as _ <-.
Qed.

Lemma existsb_isHost_addScore submissions players :
  existsb Player.isHost (fold_left addScore submissions players)
  = existsb Player.isHost players.
Proof.
  revert players. induction submissions as [|s submissions IH];
    intros players; simpl; [done|].
  rewrite IH. unfold addScore. by apply existsb_isHost_update_first.
Qed.

End host_flags.

Lemma hasHost_advanceIfAllSelected game :
  hasHost (advanceIfAllSelected game) = hasHost game.
Proof. unfold hasHost. by rewrite advanceIfAllSelected_players. Qed.

Lemma hasHost_markVoted voterId game :
  hasHost (markVoted voterId game) = hasHost game.
Proof.
  unfold markVoted, hasHost. destruct (List.find _ _); [|done].
  simpl. by apply existsb_isHost_update_first.
Qed.

Lemma hasHost_generateAIMorals_loop todo draws game :
  hasHost (generateAIMorals_loop todo draws game) = hasHost game.
Proof.
  revert draws game. induction todo as [|p todo IH]; intros draws game;
    simpl; [done|].
  destruct (needsMoral p); [|apply IH].
  destruct draws as [|d draws]; [done|]. rewrite IH.
  unfold hasHost, generateAIMorals_step. simpl.
  by apply existsb_isHost_update_first.
Qed.

Lemma hasHost_failsafe players game :
  hasHost (fold_left failsafeMoral players game) = hasHost game.
Proof.
  revert game. induction players as [|p players IH]; intros game; simpl;
    [done|].
  rewrite IH. unfold failsafeMoral. destruct (needsMoral p); [|done].
  unfold hasHost. simpl. by apply existsb_isHost_update_first.
Qed.

(** [startNewRound] keeps the host flags. *)
Lemma hosted_startNewRound cardData draws gid games :
  hosted games -> hosted (startNewRound cardData draws gid games).
Proof.
  intros Hinv. unfold startNewRound.
  destruct (games !! gid) as [game|] eqn:Hg; [|done].
  pose proof (Hinv _ _ Hg) as Hh.
  destruct (bool_decide _); [done|].
  destruct (_ >=? _); apply hosted_insert; try done.
  unfold hasHost, dealCards, assignCardTypes in *. simpl.
  rewrite existsb_isHost_dealPlayers, existsb_isHost_forEachi.
  by rewrite existsb_isHost_map.
Qed.

(** The host [removePlayer] appoints: the first remaining human, or the
    first remaining participant when none is human. *)
Lemma assignNewHost_spec (players : list Player) :
  players <> [] ->
  exists k h,
    players !! k = Some h
    /\ assignNewHost players = <[k:=Player.with_isHost true h]> players
    /\ ((Player.isAI h = false
         /\ forall j q, (j < k)%nat -> players !! j = Some q ->
                        Player.isAI q = true)
        \/ (k = 0%nat /\ Forall (fun q => Player.isAI q = true) players)).
Proof.
  intros Hne. unfold assignNewHost.
  destruct (List.find _ players) as [h0|] eqn:Hfind.
  - clear Hne. revert h0 Hfind.
    induction players as [|p players IH]; intros h0 Hfind; [done|].
    simpl in *. destruct (negb (Player.isAI p)) eqn:Hp.
    + exists 0%nat, p. split; [done|]. split; [done|]. left.
      split; [by apply negb_true_iff|]. intros j q Hj. lia.
    + destruct (IH h0 Hfind) as (k & h & Hk & Hupd & Hcase).
      exists (S k), h. split; [done|]. split; [simpl; by rewrite Hupd|].
      left. destruct Hcase as [[Hh Hbefore]|[-> Hall]].
      * split; [done|]. intros [|j] q Hj Hq; simpl in Hq.
        -- injection Hq as <-. by apply negb_false_iff.
        -- apply (Hbefore j q); [lia|done].
      * exfalso. apply find_some in Hfind as [Hin Hh0].
        eapply Forall_forall in Hall; [|by apply list_elem_of_In].
        by rewrite Hall in Hh0.
  - destruct players as [|p players]; [done|].
    exists 0%nat, p. split; [done|]. split; [done|]. right. split; [done|].
    apply Forall_forall. intros q Hq.
    apply list_elem_of_In in Hq.
    pose proof (find_none _ _ Hfind q Hq) as Hq'. simpl in Hq'.
    by apply negb_false_iff.
Qed.

Lemma hasHost_assignNewHost (players : list Player) :
  players <> [] -> existsb Player.isHost (assignNewHost players) = true.
Proof.
  intros Hne. destruct (assignNewHost_spec players Hne) as (k & h & Hk & -> & _).
  apply existsb_exists. exists (Player.with_isHost true h). split; [|done].
  apply list_elem_of_In. eapply list_elem_of_lookup_2.
  apply list_lookup_insert_eq. by eapply lookup_lt_Some.
Qed.

Lemma delete_absent {A} (l : list A) (i : nat) :
  l !! i = None -> delete i l = l.
Proof.
  revert i. induction l as [|x l IH]; intros i Hi; [done|].
  destruct i as [|i]; [done|]. simpl in *. by rewrite (IH i).
Qed.

Lemma existsb_isHost_delete (players : list Player) i p :
  players !! i = Some p -> Player.isHost p = false ->
  existsb Player.isHost (delete i players) = existsb Player.isHost players.
Proof.
  revert i. induction players as [|q players IH]; intros i Hi Hp; [done|].
  destruct i as [|i]; simpl in *.
  - injection Hi as ->. by rewrite Hp.
  - by rewrite (IH i).
Qed.

Lemma removePlayer_players gid pid games game game' :
  games !! gid = Some game ->
  fst (removePlayer gid pid games) !! gid = Some game' ->
  match findIndex (has_id pid) (Game.players game) with
  | None => Game.players game' = Game.players game
  | Some i =>
      Game.players game' = remaining i (Game.players game)
      /\ remaining i (Game.players game) <> []
  end.
Proof.
  intros Hg. unfold removePlayer. rewrite Hg.
  destruct (findIndex _ _) as [i|] eqn:Hi; simpl;
    [|rewrite Hg; by intros [= <-]].
  fold (remaining i (Game.players game)).
  destruct (length (remaining i (Game.players game)) =? 0)%nat eqn:Hlen.
  { simpl. by rewrite lookup_delete_eq. }
  assert (remaining i (Game.players game) <> []) as Hne.
  { intros Hnil. rewrite Hnil in Hlen. done. }
  set (game1 := Game.with_players (remaining i (Game.players game)) game).
  match goal with
  | |- context [bool_decide (Game.status ?g = gameStatus.ACTIVE)] =>
      destruct (bool_decide (Game.status g = gameStatus.ACTIVE))
  end; simpl; rewrite lookup_insert_eq; intros [= <-];
    (split; [|done]); [|done].
  destruct (findIndex _ (Round.submissions _)); simpl;
    repeat (match goal with |- context [if ?b then _ else _] => destruct b end;
            simpl; rewrite ?advanceIfAllSelected_players; try done).
Qed.

Lemma hasHost_remaining i (players : list Player) :
  existsb Player.isHost players = true ->
  remaining i players <> [] ->
  existsb Player.isHost (remaining i players) = true.
Proof.
  intros Hh Hne. unfold remaining in *.
  destruct (players !! i) as [p|] eqn:Hp.
  - destruct (Player.isHost p) eqn:Hhost; simpl in *.
    + destruct (0 <? _)%nat eqn:Hlen; [|by destruct (delete i players)].
      apply hasHost_assignNewHost. intros Hnil. by rewrite Hnil in Hlen.
    + by rewrite (existsb_isHost_delete players i p).
  - simpl in *. by rewrite delete_absent.
Qed.

Lemma hosted_removePlayer gid pid games :
  hosted games -> hosted (fst (removePlayer gid pid games)).
Proof.
  intros Hinv gid' game'.
  destruct (decide (gid' = gid)) as [->|Hne].
  - destruct (games !! gid) as [game|] eqn:Hg.
    + intros Hg'. pose proof (Hinv _ _ Hg) as Hh.
      pose proof (removePlayer_players gid pid games game game' Hg Hg') as Hp.
      unfold hasHost in *.
      destruct (findIndex _ _) as [i|]; [|by rewrite Hp].
      destruct Hp as [-> Hne]. by apply hasHost_remaining.
    + unfold removePlayer. rewrite Hg. simpl. by rewrite Hg.
  - unfold removePlayer. destruct (games !! gid) as [game|]; [|apply Hinv].
    destruct (findIndex _ _); [|apply Hinv].
    repeat (match goal with |- context [if ?b then _ else _] => destruct b end);
      simpl; rewrite ?lookup_delete_ne, ?lookup_insert_ne by done; apply Hinv.
Qed.

(** Case analysis on the guards of a manager call. *)
Ltac guards :=
  repeat match goal with
    | |- context [match ?x with _ => _ end] =>
        lazymatch x with
        | context [match _ with _ => _ end] => fail
        | _ => destruct x eqn:?
        end
    end; simpl; try assumption.

Lemma hosted_createGame candidates host games games' gid :
  hosted games -> createGame candidates host games = Some (games', gid) ->
  hosted games'.
Proof.
  intros Hinv. unfold createGame. destruct (generateGameId _ _); [|done].
  intros [= <- <-]. by apply hosted_insert.
Qed.

Lemma hosted_joinGame gid player games :
  hosted games -> hosted (fst (joinGame gid player games)).
Proof.
  intros Hinv. unfold joinGame.
  destruct (games !! gid) as [game|] eqn:Hg; [|done].
  pose proof (Hinv _ _ Hg) as Hh. guards. apply hosted_insert; [done|].
  unfold hasHost in *. simpl. rewrite existsb_app, Hh. done.
Qed.

Lemma hosted_startGame cardData fresh draws gid games :
  hosted games -> hosted (fst (startGame cardData fresh draws gid games)).
Proof.
  intros Hinv. unfold startGame.
  destruct (games !! gid) as [game|] eqn:Hg; [|done].
  pose proof (Hinv _ _ Hg) as Hh. guards.
  apply hosted_startNewRound, hosted_insert; [done|].
  unfold hasHost in *. simpl. rewrite existsb_app, Hh. done.
Qed.

Lemma hosted_updateCustomCard gid pid cardId text games :
  hosted games -> hosted (fst (updateCustomCard gid pid cardId text games)).
Proof.
  intros Hinv. unfold updateCustomCard.
  destruct (games !! gid) as [game|] eqn:Hg; [|done].
  pose proof (Hinv _ _ Hg) as Hh. guards. apply hosted_insert; [done|].
  unfold hasHost in *. simpl. by rewrite existsb_isHost_update_first.
Qed.

Lemma hosted_selectCard gid pid cardId text games :
  hosted games -> hosted (fst (selectCard gid pid cardId text games)).
Proof.
  intros Hinv. unfold selectCard.
  destruct (games !! gid) as [game|] eqn:Hg; [|done].
  pose proof (Hinv _ _ Hg) as Hh.
  destruct (negb _); [done|]. destruct (List.find _ _); [|done].
  destruct (Player.hand _); [|done]. destruct (findIndex _ _); [|done].
  simpl. apply hosted_insert; [done|].
  rewrite hasHost_advanceIfAllSelected.
  unfold hasHost in *. simpl. by rewrite existsb_isHost_update_first.
Qed.

Lemma hosted_makeAISelections_begin gid games :
  hosted games -> hosted (fst (makeAISelections_begin gid games)).
Proof.
  intros Hinv. unfold makeAISelections_begin.
  destruct (games !! gid) as [game|] eqn:Hg; [|done].
  pose proof (Hinv _ _ Hg) as Hh. destruct (negb _); [done|]. simpl.
  apply hosted_insert; [done|].
  unfold hasHost in *. simpl. rewrite existsb_isHost_map; [done|].
  intros p. by destruct (pendingAI p).
Qed.

Lemma hosted_makeAISelections_pick r gid aiId games :
  hosted games -> hosted (makeAISelections_pick r gid aiId games).
Proof.
  intros Hinv. unfold makeAISelections_pick.
  destruct (games !! gid) as [game|] eqn:Hg; [|done].
  pose proof (Hinv _ _ Hg) as Hh. apply hosted_insert; [done|].
  unfold hasHost in *. simpl. rewrite existsb_isHost_update_first; [done|].
  intros p. unfold aiSelect. destruct (Player.hand p); [|done].
  by match goal with
     | |- context [match ?x with _ => _ end] => destruct x
     end.
Qed.

Lemma hosted_makeAISelections_end gid games :
  hosted games -> hosted (makeAISelections_end gid games).
Proof.
  intros Hinv. unfold makeAISelections_end.
  destruct (games !! gid) as [game|] eqn:Hg; [|done].
  pose proof (Hinv _ _ Hg) as Hh. apply hosted_insert; [done|].
  by rewrite hasHost_advanceIfAllSelected.
Qed.

Lemma hosted_submitMoral gid pid moral games :
  hosted games -> hosted (fst (submitMoral gid pid moral games)).
Proof.
  intros Hinv. unfold submitMoral.
  destruct (games !! gid) as [game|] eqn:Hg; [|done].
  pose proof (Hinv _ _ Hg) as Hh.
  destruct (negb _); [done|]. destruct (List.find _ _); [|done].
  destruct (List.find _ _); [|done]. simpl. apply hosted_insert; [done|].
  match goal with |- hasHost (if ?b then _ else _) = _ => destruct b end;
    unfold hasHost in *; simpl; by rewrite existsb_isHost_update_first.
Qed.

Lemma hosted_generateAIMorals draws gid games :
  hosted games -> hosted (generateAIMorals draws gid games).
Proof.
  intros Hinv. unfold generateAIMorals.
  destruct (games !! gid) as [game|] eqn:Hg; [|done].
  pose proof (Hinv _ _ Hg) as Hh. apply hosted_insert; [done|].
  rewrite hasHost_failsafe.
  match goal with |- hasHost (if ?b then _ else _) = _ => destruct b end;
    [change (hasHost (generateAIMorals_loop (Game.players game) draws game)
             = true)|];
    by rewrite hasHost_generateAIMorals_loop.
Qed.

Lemma hosted_castVote gid voterId votedForId games :
  hosted games -> hosted (fst (fst (castVote gid voterId votedForId games))).
Proof.
  intros Hinv. unfold castVote.
  destruct (games !! gid) as [game|] eqn:Hg; [|done].
  pose proof (Hinv _ _ Hg) as Hh.
  destruct (negb _); [done|]. destruct (List.find _ _); [|done].
  destruct (List.find _ _); [|done]. destruct (String.eqb _ _); [done|].
  destruct (List.find _ _); [|done]. simpl. apply hosted_insert; [done|].
  change (hasHost (markVoted voterId game) = true).
  by rewrite hasHost_markVoted.
Qed.

Lemma hosted_aiThinks gid aiId games :
  hosted games -> hosted (fst (aiThinks gid aiId games)).
Proof.
  intros Hinv. unfold aiThinks.
  destruct (games !! gid) as [game|] eqn:Hg; [|done].
  pose proof (Hinv _ _ Hg) as Hh. apply hosted_insert; [done|].
  unfold hasHost in *. simpl. by rewrite existsb_isHost_update_first.
Qed.

Lemma hosted_aiVotes r r' gid aiId games :
  hosted games -> hosted (aiVotes r r' gid aiId games).
Proof.
  intros Hinv. unfold aiVotes.
  destruct (games !! gid) as [game|] eqn:Hg; [|done].
  pose proof (Hinv _ _ Hg) as Hh.
  destruct (simulateAIVote _ _ _ _ _);
    [destruct (List.find _ _)|]; apply hosted_insert; try done;
    try by rewrite hasHost_markVoted.
  unfold hasHost. simpl. rewrite existsb_isHost_update_first by done.
  pose proof (hasHost_markVoted aiId game) as Hm. unfold hasHost in Hm.
  by rewrite Hm.
Qed.

Lemma hosted_endRound gid games :
  hosted games -> hosted (endRound gid games).
Proof.
  intros Hinv. unfold endRound.
  destruct (games !! gid) as [game|] eqn:Hg; [|done].
  pose proof (Hinv _ _ Hg) as Hh. destruct (bool_decide _); [done|].
  apply hosted_insert; [done|].
  match goal with |- hasHost (if ?b then _ else _) = _ => destruct b end;
    unfold hasHost in *; simpl; by rewrite existsb_isHost_addScore.
Qed.

(** Every step keeps every stored game hosted. *)
Lemma hosted_step cardData games games' :
  step cardData games games' -> hosted games -> hosted games'.
Proof.
  destruct 1; intros Hinv;
    eauto using hosted_createGame, hosted_joinGame, hosted_startGame,
      hosted_startNewRound, hosted_updateCustomCard, hosted_selectCard,
      hosted_makeAISelections_begin, hosted_makeAISelections_pick,
      hosted_makeAISelections_end, hosted_submitMoral,
      hosted_generateAIMorals, hosted_castVote, hosted_aiThinks,
      hosted_aiVotes, hosted_endRound, hosted_removePlayer.
Qed.

Lemma hosted_reachable cardData games :
  reachable cardData games -> hosted games.
Proof.
  unfold reachable. intros Hreach.
  apply (rtc_ind_r (R := step cardData) hosted ∅); [| |exact Hreach].
  - intros gid game. by rewrite lookup_empty.
  - intros games1 games2 _ Hstep Hinv. by eapply hosted_step.
Qed.

(** C10. A game is created with its creator as host; when [removePlayer]
    removes the host and participants remain, the flag goes to the first
    remaining human, or to the first remaining participant when all are
    simulated; and in every registry the server can reach, every stored
    game has at least one participant and one of them carries the host
    flag. *)
Theorem host_always_present (cardData : CardData) :
  (forall candidates host games games' gid,
      createGame candidates host games = Some (games', gid) ->
      exists game,
        games' !! gid = Some game
        /\ Game.players game
           = [Player.with_isHost true (Player.with_score 0%nat host)])
  /\ (forall gid pid games game i p game',
        games !! gid = Some game ->
        findIndex (has_id pid) (Game.players game) = Some i ->
        Game.players game !! i = Some p ->
        Player.isHost p = true ->
        fst (removePlayer gid pid games) !! gid = Some game' ->
        let rest := delete i (Game.players game) in
        exists k h,
          rest !! k = Some h
          /\ Game.players game' = <[k:=Player.with_isHost true h]> rest
          /\ ((Player.isAI h = false
               /\ forall j q, (j < k)%nat -> rest !! j = Some q ->
                              Player.isAI q = true)
              \/ (k = 0%nat
                  /\ Forall (fun q => Player.isAI q = true) rest)))
  /\ (forall games,
        reachable cardData games ->
        forall gid game,
          games !! gid = Some game ->
          Game.players game <> [] /\ hasHost game = true).
Proof.
  split; [|split].
  - intros candidates host games games' gid. unfold createGame.
    destruct (generateGameId _ _); [|done]. intros [= <- <-].
    eexists. by rewrite lookup_insert_eq.
  - intros gid pid games game i p game' Hg Hi Hp Hhost Hg' rest.
    pose proof (removePlayer_players gid pid games game game' Hg Hg') as Hrem.
    rewrite Hi in Hrem. destruct Hrem as [Hplayers Hne].
    unfold remaining in *. rewrite Hp, Hhost in *. simpl in *. fold rest in Hne, Hplayers.
    destruct (0 <? length rest)%nat eqn:Hlen.
    + rewrite Hplayers. apply assignNewHost_spec.
      intros Hnil. by rewrite Hnil in Hlen.
    + by destruct rest.
  - intros games Hreach gid game Hg.
    pose proof (hosted_reachable cardData games Hreach gid game Hg) as Hh.
    split; [|done]. intros Hnil. unfold hasHost in Hh. by rewrite Hnil in Hh.
Qed.


(** The sample session is a run of the server. *)
Lemma sampleVoting_reachable : reachable sampleCardData sampleVoting.
Proof.
  unfold reachable, sampleVoting, sampleStorytelling.
  eapply rtc_r; [|apply step_generateAIMorals].
  do 2 (eapply rtc_r; [|apply step_submitMoral]).
  eapply rtc_r; [|apply step_makeAISelections_end].
  do 3 (eapply rtc_r; [|apply step_makeAISelections_pick]).
  eapply rtc_r; [|apply step_makeAISelections_begin].
  do 2 (eapply rtc_r; [|apply step_selectCard]).
  unfold sampleStarted.
  destruct (createGame ["ABC123"%string] (newPlayer "p1" "Ada") ∅)
    as [[games gameId]|] eqn:Hcreate; [|apply rtc_refl].
  eapply rtc_r; [|apply step_startGame].
  eapply rtc_r; [|apply step_joinGame].
  eapply rtc_r; [apply rtc_refl|].
  by eapply step_createGame.
Qed.

Lemma host_always_present_witness :
  Game.players (sampleGame sampleVoting) <> []
  /\ hasHost (sampleGame sampleVoting) = true.
Proof.
  apply (proj2 (proj2 (host_always_present sampleCardData))
           sampleVoting sampleVoting_reachable "ABC123"%string).
  vm_compute. reflexivity.
Defined.

(** ** Votes *)

Section updates.
Context {A : Type}.
Implicit Types (f : A -> bool) (upd : A -> A) (a : list A).

(** An update that leaves the first match as it is changes nothing. *)
Lemma update_first_fix f upd a x :
  List.find f a = Some x -> upd x = x -> update_first f upd a = a.
Proof.
  induction a as [|y a IH]; simpl; [done|].
  destruct (f y); [by intros [= ->] -> | intros ??; by rewrite IH].
Qed.

(** A projection the update keeps reads the same on the whole array. *)
Lemma map_update_first {B} (g : A -> B) f upd a :
  (forall x, g (upd x) = g x) ->
  List.map g (update_first f upd a) = List.map g a.
Proof.
  intros Hg. induction a as [|y a IH]; simpl; [done|].
  destruct (f y); simpl; [by rewrite Hg | by rewrite IH].
Qed.

End updates.

Lemma with_hasVoted_fix (s : Submission) :
  Submission.hasVoted s = true -> Submission.with_hasVoted true s = s.
Proof. destruct s. simpl. by intros ->. Qed.

Lemma player_with_hasVoted_fix (p : Player) :
  Player.hasVoted p = true -> Player.with_hasVoted true p = p.
Proof. destruct p. simpl. by intros ->. Qed.

(** A vote added to the first submission of a participant raises the
    total by one and touches no has-voted flag. *)
Lemma sum_votes_addVote f (subs : list Submission) s :
  List.find f subs = Some s ->
  sum_list (List.map Submission.votes (update_first f addVote subs))
  = S (sum_list (List.map Submission.votes subs)).
Proof.
  induction subs as [|y subs IH]; simpl; [done|].
  destruct (f y); simpl; [intros _; lia | intros H; rewrite IH by done; lia].
Qed.

Lemma filter_hasVoted_addVote f (subs : list Submission) :
  length (List.filter Submission.hasVoted (update_first f addVote subs))
  = length (List.filter Submission.hasVoted subs).
Proof.
  induction subs as [|y subs IH]; simpl; [done|].
  destruct (f y); simpl.
  - unfold addVote. simpl. by destruct (Submission.hasVoted y).
  - destruct (Submission.hasVoted y); simpl; by rewrite IH.
Qed.

(** Recording the vote of a participant who had none recorded adds one
    voter; the votes stay as they are. *)
Lemma filter_hasVoted_mark f (subs : list Submission) s :
  List.find f subs = Some s -> Submission.hasVoted s = false ->
  length (List.filter Submission.hasVoted
            (update_first f (Submission.with_hasVoted true) subs))
  = S (length (List.filter Submission.hasVoted subs)).
Proof.
  induction subs as [|y subs IH]; simpl; [done|].
  destruct (f y); simpl.
  - intros [= ->] ->. done.
  - intros Hs Hv. destruct (Submission.hasVoted y); simpl; by rewrite IH.
Qed.

(** [markVoted] on a participant with a submission. *)
Lemma markVoted_submissions voterId game s :
  List.find (of_player voterId) (Round.submissions (Game.round game)) = Some s ->
  Round.submissions (Game.round (markVoted voterId game))
  = update_first (of_player voterId) (Submission.with_hasVoted true)
      (Round.submissions (Game.round game))
  /\ Game.players (markVoted voterId game)
     = update_first (has_id voterId) (Player.with_hasVoted true)
         (Game.players game).
Proof. intros Hs. unfold markVoted. by rewrite Hs. Qed.

(** What a successful [castVote] stored: the game with the voter marked
    and one vote added to the votee's submission. *)
Lemma castVote_success gid voterId votedForId games games' tasks :
  castVote gid voterId votedForId games = (games', true, tasks) ->
  exists game votedForSub,
    games !! gid = Some game
    /\ Round.status (Game.round game) = roundStatus.VOTING
    /\ voterId <> votedForId
    /\ List.find (of_player votedForId) (Round.submissions (Game.round game))
       = Some votedForSub
    /\ games'
       = <[gid:=Game.with_submissions
                  (update_first (of_player votedForId) addVote
                     (Round.submissions
                        (Game.round (markVoted voterId game))))
                  (markVoted voterId game)]> games.
Proof.
  unfold castVote. intros H.
  destruct (games !! gid) as [game|] eqn:Hg; [|done].
  destruct (bool_decide _) eqn:Hs; simpl in H; [|done].
  apply bool_decide_eq_true in Hs.
  destruct (List.find _ _) as [voter|]; [|done].
  destruct (List.find _ _) as [votedFor|]; [|done].
  destruct (String.eqb_spec voterId votedForId) as [|Hne]; [done|].
  destruct (List.find _ _) as [votedForSub|] eqn:Hsub; [|done].
  injection H as <- _. eauto 10.
Qed.

(** A refused [castVote] changes nothing and starts no timer. *)
Lemma castVote_failure gid voterId votedForId games games' tasks :
  castVote gid voterId votedForId games = (games', false, tasks) ->
  games' = games /\ tasks = [].
Proof.
  unfold castVote. intros H.
  destruct (games !! gid); [|by injection H as <- <-].
  destruct (negb _); [by injection H as <- <-|].
  destruct (List.find _ _); [|by injection H as <- <-].
  destruct (List.find _ _); [|by injection H as <- <-].
  destruct (String.eqb _ _); [by injection H as <- <-|].
  destruct (List.find _ _); [done|by injection H as <- <-].
Qed.

Lemma onCastVote_rejected playerData gid votedForId games ack games' tasks :
  onCastVote playerData gid votedForId games = (ack, games', tasks) ->
  success ack = false -> games' = games /\ tasks = [].
Proof.
  unfold onCastVote. intros H Hack.
  destruct playerData as [pd|]; [|by injection H as _ <- <-].
  destruct (negb _); [by injection H as _ <- <-|].
  destruct (String.eqb _ _); [by injection H as _ <- <-|].
  destruct (getGameState _ _); [|by injection H as _ <- <-].
  destruct (negb _); [by injection H as _ <- <-|].
  destruct (List.find _ _); [|by injection H as _ <- <-].
  destruct (truthy_moral _); [|by injection H as _ <- <-].
  destruct (castVote _ _ _ _) as [[g ok] ts] eqn:E.
  destruct ok; injection H as <- <- <-; [done|].
  by eapply castVote_failure.
Qed.

(** C1, as the code has it.  The server keeps no guard against a second
    vote.  In VOTING, a [castVote] request from a participant whose vote is
    already recorded, for another participant whose submission has a
    moral, is acknowledged with success: the votee's submission gains one
    more vote, the total of votes grows by one, and no has-voted flag
    changes, the voter's being set already. *)
Theorem castVote_repeat_accepted (pd : PlayerData) (gid votedForId : string)
    (games : gmap string Game) (game : Game) (voter votedFor : Player)
    (voterSub votedForSub : Submission) :
  gameId pd = gid ->
  games !! gid = Some game ->
  Round.status (Game.round game) = roundStatus.VOTING ->
  List.find (has_id (playerId pd)) (Game.players game) = Some voter ->
  List.find (has_id votedForId) (Game.players game) = Some votedFor ->
  playerId pd <> votedForId ->
  List.find (of_player (playerId pd)) (Round.submissions (Game.round game))
  = Some voterSub ->
  Submission.hasVoted voterSub = true ->
  Player.hasVoted voter = true ->
  List.find (of_player votedForId) (Round.submissions (Game.round game))
  = Some votedForSub ->
  truthy_moral (Submission.moral votedForSub) = true ->
  exists game' tasks,
    onCastVote (Some pd) gid votedForId games
    = (ack_ok, <[gid:=game']> games, tasks)
    /\ List.find (of_player votedForId)
         (Round.submissions (Game.round game'))
       = Some (addVote votedForSub)
    /\ totalVotes game' = S (totalVotes game)
    /\ List.map Submission.hasVoted (Round.submissions (Game.round game'))
       = List.map Submission.hasVoted (Round.submissions (Game.round game))
    /\ List.map Player.hasVoted (Game.players game')
       = List.map Player.hasVoted (Game.players game).
Proof.
  intros Hgid Hg Hstatus Hvoter Hvotee Hne Hvs Hvoted Hpvoted Hsub Hmoral.
  assert (Hmark : markVoted (playerId pd) game = game).
  { unfold markVoted. rewrite Hvs.
    rewrite (update_first_fix _ _ _ voterSub Hvs)
      by by apply with_hasVoted_fix.
    rewrite (update_first_fix _ _ _ voter Hvoter)
      by by apply player_with_hasVoted_fix.
    by destruct game as [? ? ? []]. }
  unfold onCastVote, getGameState, castVote.
  rewrite Hgid, String.eqb_refl. simpl.
  apply String.eqb_neq in Hne. rewrite Hne, Hg, Hstatus. simpl.
  rewrite Hsub, Hmoral, Hvoter, Hvotee, Hmark.
  eexists _, _. split; [done|]. simpl.
  split; [by rewrite find_update_first, Hsub|].
  split; [unfold totalVotes; simpl; by erewrite sum_votes_addVote|].
  split; [by apply map_update_first|done].
Qed.

Lemma castVote_repeat_accepted_witness :
  exists game' tasks,
    onCastVote (sampleSocket "p1") "ABC123" "p2"
      (snd (fst (onCastVote (sampleSocket "p1") "ABC123" "p2" sampleVoting)))
    = (ack_ok,
       <["ABC123":=game']>
         (snd (fst (onCastVote (sampleSocket "p1") "ABC123" "p2"
                      sampleVoting))),
       tasks)
    /\ totalVotes game' = 2%nat.
Proof.
  edestruct (castVote_repeat_accepted
               {| playerId := "p1"; gameId := "ABC123" |} "ABC123" "p2"
               (snd (fst (onCastVote (sampleSocket "p1") "ABC123" "p2"
                            sampleVoting))))
    as (game' & tasks & Hack & _ & Htotal & _).
  - reflexivity.
  - vm_compute. reflexivity.
  - reflexivity.
  - vm_compute. reflexivity.
  - vm_compute. reflexivity.
  - discriminate.
  - vm_compute. reflexivity.
  - reflexivity.
  - reflexivity.
  - vm_compute. reflexivity.
  - reflexivity.
  - exists game', tasks. split; [exact Hack|]. rewrite Htotal. reflexivity.
Defined.

(** C1 fails on the sample session: Ada votes for Bo, and her vote is on
    record; she votes for Bo again, the request is acknowledged with
    success and Bo's submission goes from one vote to two. *)
Lemma duplicate_vote_accepted :
  let games1 :=
    snd (fst (onCastVote (sampleSocket "p1") "ABC123" "p2" sampleVoting)) in
  let second := onCastVote (sampleSocket "p1") "ABC123" "p2" games1 in
  let games2 := snd (fst second) in
  let votesOf pid games :=
    Submission.votes
    <$> List.find (of_player pid)
          (Round.submissions (Game.round (sampleGame games))) in
  Round.status (Game.round (sampleGame games1)) = roundStatus.VOTING
  /\ Submission.hasVoted
     <$> List.find (of_player "p1")
           (Round.submissions (Game.round (sampleGame games1))) = Some true
  /\ success (fst (fst second)) = true
  /\ votesOf "p2"%string games1 = Some 1%nat
  /\ votesOf "p2"%string games2 = Some 2%nat
  /\ games2 <> games1.
Proof.
  repeat split; try (vm_compute; reflexivity).
  intros Heq.
  apply (f_equal (fun games =>
           Submission.votes
           <$> List.find (of_player "p2")
                 (Round.submissions (Game.round (sampleGame games))))) in Heq.
  vm_compute in Heq. discriminate.
Qed.

(** ** The tally of votes and voters *)

Lemma votable_update_first submissions aiPlayerId f upd :
  (forall s, Submission.playerId (upd s) = Submission.playerId s) ->
  votable (update_first f upd submissions) aiPlayerId = []
  <-> votable submissions aiPlayerId = [].
Proof.
  intros Hupd.
  assert (Hlen : forall subs : list Submission,
            length (votable subs aiPlayerId)
            = length (List.filter (fun id => negb (String.eqb id aiPlayerId))
                        (List.map Submission.playerId subs))).
  { induction subs as [|s subs IH]; simpl; [done|].
    unfold of_player at 1. destruct (negb _); simpl; by rewrite IH. }
  pose proof (Hlen submissions) as H1.
  pose proof (Hlen (update_first f upd submissions)) as H2.
  rewrite map_update_first in H2 by done.
  split; intros Hnil; apply length_zero_iff_nil;
    apply (f_equal length) in Hnil; simpl in Hnil; lia.
Qed.

(** The effect of a first vote of a participant on the two counts. *)
Lemma first_vote_counts voterId votedForId game s t :
  List.find (of_player voterId) (Round.submissions (Game.round game)) = Some s ->
  Submission.hasVoted s = false ->
  List.find (of_player votedForId) (Round.submissions (Game.round game))
  = Some t ->
  let game' :=
    Game.with_submissions
      (update_first (of_player votedForId) addVote
         (Round.submissions (Game.round (markVoted voterId game))))
      (markVoted voterId game) in
  totalVotes game' = S (totalVotes game)
  /\ votesRecorded game' = S (votesRecorded game).
Proof.
  intros Hs Hv Ht game'.
  destruct (markVoted_submissions voterId game s Hs) as [Hsubs _].
  unfold game', totalVotes, votesRecorded. simpl. rewrite Hsubs.
  assert (exists t', List.find (of_player votedForId)
                       (update_first (of_player voterId)
                          (Submission.with_hasVoted true)
                          (Round.submissions (Game.round game))) = Some t')
    as [t' Ht'].
  { destruct (String.eqb_spec voterId votedForId) as [->|Hne].
    - rewrite find_update_first by done. rewrite Ht. eauto.
    - rewrite find_update_first_disjoint; [eauto| |];
        intros x Hx; unfold of_player in *; simpl;
        apply String.eqb_eq in Hx; apply String.eqb_neq; congruence. }
  split.
  - rewrite (sum_votes_addVote _ _ t' Ht').
    by rewrite map_update_first.
  - rewrite filter_hasVoted_addVote.
    by apply (filter_hasVoted_mark _ _ s).
Qed.

(** C2, as the code has it.  Fresh submissions start with no vote and no
    voter; the first [castVote] of a participant, and the first simulated
    vote of a simulated participant that has another submission to vote
    for, each add one vote and one voter, so they keep the sum of votes
    equal to the number of recorded voters; a repeated [castVote] of a
    participant whose vote is already recorded adds a vote and no voter. *)
Theorem first_votes_keep_tally :
  (forall game,
      totalVotes (assembleStory game) = 0%nat
      /\ votesRecorded (assembleStory game) = 0%nat)
  /\ (forall gid voterId votedForId games games' tasks game s,
        castVote gid voterId votedForId games = (games', true, tasks) ->
        games !! gid = Some game ->
        List.find (of_player voterId) (Round.submissions (Game.round game))
        = Some s ->
        Submission.hasVoted s = false ->
        exists game',
          games' !! gid = Some game'
          /\ totalVotes game' = S (totalVotes game)
          /\ votesRecorded game' = S (votesRecorded game))
  /\ (forall r r' gid aiPlayerId games game s,
        (0 <= r')%Q -> (r' < 1)%Q ->
        games !! gid = Some game ->
        List.find (of_player aiPlayerId)
          (Round.submissions (Game.round game)) = Some s ->
        Submission.hasVoted s = false ->
        votable (Round.submissions (Game.round game)) aiPlayerId <> [] ->
        exists game',
          aiVotes r r' gid aiPlayerId games !! gid = Some game'
          /\ totalVotes game' = S (totalVotes game)
          /\ votesRecorded game' = S (votesRecorded game))
  /\ (forall gid voterId votedForId games games' tasks game s,
        castVote gid voterId votedForId games = (games', true, tasks) ->
        games !! gid = Some game ->
        List.find (of_player voterId) (Round.submissions (Game.round game))
        = Some s ->
        Submission.hasVoted s = true ->
        exists game',
          games' !! gid = Some game'
          /\ totalVotes game' = S (totalVotes game)
          /\ votesRecorded game' = votesRecorded game).
Proof.
  split; [|split; [|split]].
  - intros game. unfold totalVotes, votesRecorded.
    rewrite assembleStory_submissions.
    induction (Game.players game) as [|p players [IH1 IH2]]; simpl; [done|].
    by rewrite IH1, IH2.
  - intros gid voterId votedForId games games' tasks game s Hcast Hg Hs Hv.
    destruct (castVote_success _ _ _ _ _ _ Hcast)
      as (game0 & t & Hg0 & _ & _ & Ht & ->).
    rewrite Hg in Hg0. injection Hg0 as <-.
    eexists. split; [by rewrite lookup_insert_eq|].
    by eapply first_vote_counts.
  - intros r r' gid aiPlayerId games game s Hr0 Hr1 Hg Hs Hv Hcand.
    unfold aiVotes. rewrite Hg.
    destruct (markVoted_submissions aiPlayerId game s Hs) as [Hsubs _].
    assert (Hcand' : votable (Round.submissions
                               (Game.round (markVoted aiPlayerId game)))
                       aiPlayerId <> []).
    { rewrite Hsubs. by rewrite votable_update_first. }
    destruct (simulateAIVote_votes r r' _ aiPlayerId
                (Game.players (markVoted aiPlayerId game)) Hr0 Hr1 Hcand')
      as (i & c & _ & Hvote & _).
    rewrite Hvote.
    destruct (simulateAIVote_elem _ _ _ _ _ _ Hvote)
      as (_ & c' & Hin & Hid).
    destruct (List.find (of_player (Submission.playerId c)) _)
      as [t'|] eqn:Ht'.
    2:{ apply list_elem_of_In in Hin.
        pose proof (find_none _ _ Ht' c' Hin) as Hc'.
        unfold of_player in Hc'. rewrite Hid, String.eqb_refl in Hc'. done. }
    eexists. split; [by rewrite lookup_insert_eq|].
    assert (exists t, List.find (of_player (Submission.playerId c))
                        (Round.submissions (Game.round game)) = Some t)
      as [t Ht].
    { rewrite Hsubs in Ht'.
      destruct (List.find (of_player (Submission.playerId c))
                  (Round.submissions (Game.round game))) as [t|] eqn:Ht;
        [eauto|].
      exfalso. apply find_some in Ht' as [Hin' Hof].
      apply list_elem_of_In in Hin'.
      assert (Submission.playerId t'
              ∈ List.map Submission.playerId
                  (update_first (of_player aiPlayerId)
                     (Submission.with_hasVoted true)
                     (Round.submissions (Game.round game)))) as Hmem
        by (apply list_elem_of_In, in_map; by apply list_elem_of_In).
      rewrite map_update_first in Hmem by done.
      apply list_elem_of_In, in_map_iff in Hmem as (t0 & Hid0 & Hin0).
      pose proof (find_none _ _ Ht t0 Hin0) as Hno.
      unfold of_player in Hno, Hof. rewrite Hid0 in Hno. congruence. }
    pose proof (first_vote_counts aiPlayerId (Submission.playerId c) game
                  s t Hs Hv Ht) as [Htot Hrec].
    split; [exact Htot|exact Hrec].
  - intros gid voterId votedForId games games' tasks game s Hcast Hg Hs Hv.
    destruct (castVote_success _ _ _ _ _ _ Hcast)
      as (game0 & t & Hg0 & _ & _ & Ht & ->).
    rewrite Hg in Hg0. injection Hg0 as <-.
    eexists. split; [by rewrite lookup_insert_eq|].
    destruct (markVoted_submissions voterId game s Hs) as [Hsubs _].
    unfold totalVotes, votesRecorded. simpl. rewrite Hsubs.
    rewrite (update_first_fix _ _ _ s Hs) by by apply with_hasVoted_fix.
    split; [by erewrite sum_votes_addVote|apply filter_hasVoted_addVote].
Qed.

Lemma first_votes_keep_tally_witness :
  exists game',
    snd (fst (onCastVote (sampleSocket "p1") "ABC123" "p2" sampleVoting))
    !! "ABC123"%string = Some game'
    /\ totalVotes game' = 1%nat /\ votesRecorded game' = 1%nat.
Proof.
  destruct first_votes_keep_tally as (_ & Hfirst & _).
  edestruct (Hfirst "ABC123"%string "p1"%string "p2"%string sampleVoting)
    as (game' & Hg' & Htot & Hrec).
  - vm_compute. reflexivity.
  - vm_compute. reflexivity.
  - vm_compute. reflexivity.
  - reflexivity.
  - exists game'. split; [|split].
    + rewrite <- Hg'. vm_compute. reflexivity.
    + rewrite Htot. vm_compute. reflexivity.
    + rewrite Hrec. vm_compute. reflexivity.
Defined.

(** C2 fails in a state the server reaches: after Ada has voted twice for
    Bo the submissions hold two votes, and one voter is on record. *)
Lemma votes_exceed_voters :
  let games2 :=
    snd (fst (onCastVote (sampleSocket "p1") "ABC123" "p2"
                (snd (fst (onCastVote (sampleSocket "p1") "ABC123" "p2"
                             sampleVoting))))) in
  reachable sampleCardData games2
  /\ totalVotes (sampleGame games2) = 2%nat
  /\ votesRecorded (sampleGame games2) = 1%nat.
Proof.
  split; [|split; vm_compute; reflexivity].
  assert (Heq :
    snd (fst (onCastVote (sampleSocket "p1") "ABC123" "p2"
                (snd (fst (onCastVote (sampleSocket "p1") "ABC123" "p2"
                             sampleVoting)))))
    = fst (fst (castVote "ABC123" "p1" "p2"
                  (fst (fst (castVote "ABC123" "p1" "p2" sampleVoting))))))
    by (vm_compute; reflexivity).
  rewrite Heq. unfold reachable.
  do 2 (eapply rtc_r; [|apply step_castVote]).
  apply sampleVoting_reachable.
Qed.

(** ** Leaving *)

Lemma map_delete {A B} (f : A -> B) (l : list A) (i : nat) :
  List.map f (delete i l) = delete i (List.map f l).
Proof.
  revert i. induction l as [|x l IH]; intros i; [done|].
  destruct i as [|i]; simpl; [done|]. by rewrite IH.
Qed.

Lemma map_alter_same {A B} (f : A -> B) (upd : A -> A) (l : list A) (i : nat) :
  (forall x, f (upd x) = f x) -> List.map f (alter upd i l) = List.map f l.
Proof.
  intros Hf. revert i. induction l as [|x l IH]; intros i; [done|].
  destruct i as [|i]; [simpl; by rewrite Hf|].
  change (alter upd (S i) (x :: l)) with (x :: alter upd i l).
  simpl. by rewrite IH.
Qed.

Lemma NoDup_delete_absent {A} (l : list A) (i : nat) (x : A) :
  NoDup l -> l !! i = Some x -> x ∉ delete i l.
Proof.
  intros Hnd Hi. rewrite delete_take_drop.
  rewrite <- (take_drop_middle l i x Hi) in Hnd.
  apply NoDup_app in Hnd as (_ & Hdisj & Hnd).
  apply NoDup_cons in Hnd as [Hx _].
  intros [Hin|Hin]%elem_of_app; [|done].
  apply (Hdisj x Hin). left.
Qed.

Lemma ids_sansHost (players : list Player) :
  List.map Player.id players = List.map Player.id (List.map sansHost players).
Proof. induction players as [|p players IH]; simpl; [done|]. by rewrite IH. Qed.

(** Appointing a host changes nothing but host flags. *)
Lemma sansHost_remaining (i : nat) (players : list Player) :
  List.map sansHost (remaining i players)
  = delete i (List.map sansHost players).
Proof.
  unfold remaining. rewrite <- map_delete.
  destruct (_ && _); [|done].
  unfold assignNewHost. destruct (List.find _ _).
  - by apply map_update_first.
  - by apply map_alter_same.
Qed.

(** What [removePlayer] does once the player is found. *)
Lemma removePlayer_found gid pid games game i :
  games !! gid = Some game ->
  findIndex (has_id pid) (Game.players game) = Some i ->
  snd (removePlayer gid pid games) = true
  /\ (remaining i (Game.players game) = [] ->
      fst (removePlayer gid pid games) !! gid = None)
  /\ (remaining i (Game.players game) <> [] ->
      exists game',
        fst (removePlayer gid pid games) !! gid = Some game'
        /\ Game.players game' = remaining i (Game.players game)
        /\ (Game.status game = gameStatus.ACTIVE ->
            List.filter (fun q => negb (Player.isAI q)) (Game.players game')
            = [] ->
            Game.status game' = gameStatus.COMPLETED)).
Proof.
  intros Hg Hi. unfold removePlayer. rewrite Hg, Hi.
  fold (remaining i (Game.players game)).
  destruct (remaining i (Game.players game)) as [|q rest] eqn:Hrem; simpl.
  { split; [done|]. split; [intros _; by rewrite lookup_delete_eq|done]. }
  destruct (bool_decide (Game.status game = gameStatus.ACTIVE)) eqn:Hact;
    simpl.
  2:{ split; [done|]. split; [done|]. intros _. eexists.
      rewrite lookup_insert_eq. split; [done|]. split; [done|].
      intros Hactive. apply bool_decide_eq_false in Hact. done. }
  split; [done|]. split; [done|]. intros _. eexists.
  rewrite lookup_insert_eq. split; [done|].
  match goal with
  | |- context [(length (List.filter _ (Game.players ?g)) <? 1)%nat] =>
      set (game2 := g);
      assert (Hp2 : Game.players game2 = q :: rest)
        by (unfold game2; by destruct (findIndex _ (Round.submissions _)))
  end.
  destruct (length (List.filter _ (Game.players game2)) <? 1)%nat eqn:Hh.
  { split; [done|]. done. }
  assert (forall final : Game,
            Game.players final = q :: rest ->
            Game.players final = q :: rest
            /\ (Game.status game = gameStatus.ACTIVE ->
                List.filter (fun q => negb (Player.isAI q))
                  (Game.players final) = [] ->
                Game.status final = gameStatus.COMPLETED)) as Hfinal.
  { intros final Hpf. split; [done|]. intros _ Hnone.
    rewrite Hpf, <- Hp2, Hnone in *. done. }
  apply Hfinal.
  repeat match goal with
    | |- context [if ?b then _ else _] => destruct b
    end;
    rewrite ?advanceIfAllSelected_players; done.
Qed.

(** C3, as the code has it.  A participant who leaves is deleted from the
    participant list, and no stand-in is created.  [removePlayer] succeeds;
    the game of a last participant is dropped from the registry; otherwise
    the participants left are those that were there, without the leaver
    and in the same order, each unchanged but for the host flag (score,
    role, hand, selection and simulated flag included); with distinct ids
    nobody carries the leaver's id any more; and an active session left
    without a human is marked COMPLETED. *)
Theorem removePlayer_deletes (gid pid : string) (games : gmap string Game)
    (game : Game) (i : nat) :
  games !! gid = Some game ->
  findIndex (has_id pid) (Game.players game) = Some i ->
  snd (removePlayer gid pid games) = true
  /\ (length (Game.players game) = 1%nat ->
      fst (removePlayer gid pid games) !! gid = None)
  /\ ((1 < length (Game.players game))%nat ->
      exists game',
        fst (removePlayer gid pid games) !! gid = Some game'
        /\ length (Game.players game') = pred (length (Game.players game))
        /\ List.map sansHost (Game.players game')
           = delete i (List.map sansHost (Game.players game))
        /\ (NoDup (List.map Player.id (Game.players game)) ->
            pid ∉ List.map Player.id (Game.players game'))
        /\ (Game.status game = gameStatus.ACTIVE ->
            List.filter (fun q => negb (Player.isAI q)) (Game.players game')
            = [] ->
            Game.status game' = gameStatus.COMPLETED)).
Proof.
  intros Hg Hi.
  destruct (removePlayer_found gid pid games game i Hg Hi)
    as (Hok & Hlast & Hrest).
  destruct (findIndex_lookup _ _ _ Hi) as (p & Hp & Hid).
  pose proof (sansHost_remaining i (Game.players game)) as Hsans.
  assert (Hlen : length (remaining i (Game.players game))
                 = pred (length (Game.players game))).
  { rewrite <- (length_map sansHost), Hsans, length_delete, length_map;
      [lia|]. rewrite list_lookup_fmap, Hp. eauto. }
  split; [done|]. split.
  - intros H1. apply Hlast. apply length_zero_iff_nil. lia.
  - intros H1. destruct Hrest as (game' & Hg' & Hplayers & Hstatus).
    { intros Hnil. rewrite Hnil in Hlen. simpl in Hlen. lia. }
    exists game'. rewrite Hplayers.
    split; [done|]. split; [done|]. split; [done|]. split.
    + intros Hnd.
      assert (List.map Player.id (remaining i (Game.players game))
              = delete i (List.map Player.id (Game.players game))) as ->.
      { rewrite (ids_sansHost (remaining i (Game.players game))), Hsans.
        rewrite <- !map_delete. by rewrite <- ids_sansHost. }
      unfold has_id in Hid. apply String.eqb_eq in Hid. subst pid.
      apply NoDup_delete_absent; [done|].
      by rewrite list_lookup_fmap, Hp.
    + by rewrite <- Hplayers.
Qed.

Lemma removePlayer_deletes_witness :
  exists game',
    fst (removePlayer "ABC123" "p2"
           (fst (selectCard "ABC123" "p2" 32 None sampleStarted)))
    !! "ABC123"%string = Some game'
    /\ length (Game.players game') = 4%nat.
Proof.
  destruct (removePlayer_deletes "ABC123" "p2"
              (fst (selectCard "ABC123" "p2" 32 None sampleStarted))
              (sampleGame (fst (selectCard "ABC123" "p2" 32 None
                                  sampleStarted)))
              1%nat) as (_ & _ & Hrest).
  - vm_compute. reflexivity.
  - vm_compute. reflexivity.
  - destruct Hrest as (game' & Hg' & Hlen & _).
    + vm_compute. lia.
    + exists game'. split; [exact Hg'|]. rewrite Hlen. vm_compute.
      reflexivity.
Defined.

(** C3 fails on the sample session: Bo, who is not the host, has selected
    card 32 for the escalation role and leaves during SELECTION.  The
    request succeeds, and the session is left with the four others: three
    simulated participants as before, nobody with Bo's id, role or
    selection. *)
Lemma leaver_is_deleted :
  let games1 := fst (selectCard "ABC123" "p2" 32 None sampleStarted) in
  let left := onLeaveGame (sampleSocket "p2") "ABC123" games1 in
  let describe (p : Player) :=
    (Player.id p, Player.isAI p, Player.currentCardType p,
     Player.selectedCard p) in
  List.map describe (Game.players (sampleGame games1))
  = [("p1"%string, false, Some CHARACTER, null);
     ("p2"%string, false, Some ESCALATION, value 32);
     ("a1"%string, true, Some LOCATION, null);
     ("a2"%string, true, Some FINAL_TWIST, null);
     ("a3"%string, true, Some INITIAL_TWIST, null)]
  /\ success (fst (fst left)) = true
  /\ Round.status (Game.round (sampleGame (snd left))) = roundStatus.SELECTION
  /\ List.map describe (Game.players (sampleGame (snd left)))
     = [("p1"%string, false, Some CHARACTER, null);
        ("a1"%string, true, Some LOCATION, null);
        ("a2"%string, true, Some FINAL_TWIST, null);
        ("a3"%string, true, Some INITIAL_TWIST, null)].
Proof. repeat split; vm_compute; reflexivity. Qed.

(** ** Completion and the next round *)

(** C4, as the code has it.  When [endRound] brings a round whose number
    has reached rounds-to-play to RESULTS, the session becomes COMPLETED.
    A [nextRound] request that finds a completed session with its round
    in RESULTS is acknowledged with success and leaves the registry as it
    is, and so does any number of such requests in a row.  The handler
    asks only that the socket be bound to the session, not that the
    requester be the host: in RESULTS, before completion, such a request
    starts the next round.  A request that finds the round in another
    phase is refused, whatever the status of the session, and a request
    that is refused changes nothing. *)
Theorem nextRound_gate (cardData : CardData) (draws : RoundDraws)
    (playerData : option PlayerData) (gid : string)
    (games : gmap string Game) (game : Game) :
  games !! gid = Some game ->
  (Round.status (Game.round game) <> roundStatus.RESULTS ->
   Settings.roundsToPlay (Game.settings game) <= Round.number (Game.round game) ->
   exists game',
     endRound gid games !! gid = Some game'
     /\ Round.status (Game.round game') = roundStatus.RESULTS
     /\ Game.status game' = gameStatus.COMPLETED)
  /\ (authorized playerData gid = true ->
      Round.status (Game.round game) = roundStatus.RESULTS ->
      Game.status game = gameStatus.COMPLETED ->
      onNextRound cardData draws playerData gid games = (ack_ok, games))
  /\ (forall sockets : list (option PlayerData),
        Forall (fun socket => authorized socket gid = true) sockets ->
        Round.status (Game.round game) = roundStatus.RESULTS ->
        Game.status game = gameStatus.COMPLETED ->
        fold_left
          (fun games socket =>
             snd (onNextRound cardData draws socket gid games))
          sockets games = games
        /\ Forall
             (fun socket =>
                fst (onNextRound cardData draws socket gid games) = ack_ok)
             sockets)
  /\ (authorized playerData gid = true ->
      Round.status (Game.round game) = roundStatus.RESULTS ->
      Game.status game <> gameStatus.COMPLETED ->
      onNextRound cardData draws playerData gid games
      = (ack_ok, startNewRound cardData draws gid games))
  /\ (Round.status (Game.round game) <> roundStatus.RESULTS ->
      success (fst (onNextRound cardData draws playerData gid games)) = false)
  /\ (success (fst (onNextRound cardData draws playerData gid games)) = false ->
      snd (onNextRound cardData draws playerData gid games) = games).
Proof.
  intros Hg.
  assert (forall socket,
            authorized socket gid = true ->
            Round.status (Game.round game) = roundStatus.RESULTS ->
            Game.status game = gameStatus.COMPLETED ->
            onNextRound cardData draws socket gid games = (ack_ok, games))
    as Hsame.
  { intros socket Hauth Hphase Hdone. unfold onNextRound, getGameState.
    rewrite Hauth, Hg. simpl.
    by rewrite !bool_decide_eq_true_2. }
  split; [|split; [|split; [|split; [|split]]]].
  - intros Hphase Hlast. unfold endRound. rewrite Hg.
    rewrite bool_decide_eq_false_2 by done.
    eexists. rewrite lookup_insert_eq. split; [done|]. simpl.
    assert ((Round.number (Game.round game)
             >=? Settings.roundsToPlay (Game.settings game)) = true) as ->
      by lia.
    done.
  - apply Hsame.
  - intros sockets Hauth Hphase Hdone. split.
    + induction Hauth as [|socket sockets Hsocket _ IH]; simpl; [done|].
      by rewrite Hsame.
    + eapply Forall_impl; [exact Hauth|]. intros socket Hsocket.
      by rewrite Hsame.
  - intros Hauth Hphase Hdone. unfold onNextRound, getGameState.
    rewrite Hauth, Hg. simpl.
    rewrite bool_decide_eq_true_2 by done.
    by rewrite bool_decide_eq_false_2.
  - intros Hphase. unfold onNextRound, getGameState.
    destruct (authorized _ _); [|done]. simpl. rewrite Hg.
    by rewrite bool_decide_eq_false_2.
  - unfold onNextRound, getGameState.
    destruct (authorized _ _); [|done]. simpl. rewrite Hg.
    destruct (bool_decide (Round.status _ = _)); [|done]. simpl.
    by destruct (bool_decide (Game.status _ = _)).
Qed.

Lemma nextRound_gate_witness :
  onNextRound sampleCardData sampleDraws (sampleSocket "p1") "ABC123"
    sampleCompleted = (ack_ok, sampleCompleted).
Proof.
  destruct (nextRound_gate sampleCardData sampleDraws (sampleSocket "p1")
              "ABC123" sampleCompleted (sampleGame sampleCompleted))
    as (_ & Hdone & _).
  - vm_compute. reflexivity.
  - apply Hdone.
    + reflexivity.
    + vm_compute. reflexivity.
    + vm_compute. reflexivity.
Defined.

(** C4 fails on the sample session.  After its third and last round the
    session is COMPLETED and in RESULTS, and a further [nextRound] request
    is acknowledged with success, not with a failure.  And after the first
    round a [nextRound] request from Bo, who is not the host, is accepted
    and starts the second round. *)
Lemma nextRound_after_completion_succeeds :
  let completed := sampleGame sampleCompleted in
  let byGuest :=
    onNextRound sampleCardData sampleDraws (sampleSocket "p2") "ABC123"
      sampleResults in
  Game.status completed = gameStatus.COMPLETED
  /\ Round.status (Game.round completed) = roundStatus.RESULTS
  /\ Round.number (Game.round completed)
     = Settings.roundsToPlay (Game.settings completed)
  /\ success (fst (onNextRound sampleCardData sampleDraws
                     (sampleSocket "p1") "ABC123" sampleCompleted)) = true
  /\ Player.isHost
     <$> List.find (has_id "p2") (Game.players (sampleGame sampleResults))
     = Some false
  /\ success (fst byGuest) = true
  /\ Round.number (Game.round (sampleGame (snd byGuest))) = 2
  /\ Round.status (Game.round (sampleGame (snd byGuest)))
     = roundStatus.SELECTION.
Proof.
  cbv zeta.
  repeat match goal with |- _ /\ _ => split end; vm_compute; reflexivity.
Qed.

(** ** Refused requests *)

(** Case analysis on every guard of a call, the outcome in the goal. *)
Ltac refused := intros; repeat case_match; simplify_eq/=; try done.

Lemma joinGame_failure gid player games :
  snd (joinGame gid player games) = false ->
  fst (joinGame gid player games) = games.
Proof. unfold joinGame. refused. Qed.

Lemma startGame_failure cardData fresh draws gid games :
  snd (startGame cardData fresh draws gid games) = false ->
  fst (startGame cardData fresh draws gid games) = games.
Proof. unfold startGame. refused. Qed.

Lemma updateCustomCard_failure gid pid cardId text games :
  snd (updateCustomCard gid pid cardId text games) = false ->
  fst (updateCustomCard gid pid cardId text games) = games.
Proof. unfold updateCustomCard. refused. Qed.

Lemma selectCard_failure gid pid cardId customText games :
  snd (selectCard gid pid cardId customText games) = false ->
  fst (selectCard gid pid cardId customText games) = games.
Proof. unfold selectCard. refused. Qed.

Lemma submitMoral_failure gid pid moral games :
  snd (submitMoral gid pid moral games) = false ->
  fst (submitMoral gid pid moral games) = games.
Proof. unfold submitMoral. refused. Qed.

Lemma removePlayer_failure gid pid games :
  snd (removePlayer gid pid games) = false ->
  fst (removePlayer gid pid games) = games.
Proof. unfold removePlayer. refused. Qed.

(** X1. A manager call that answers [false] has left every session as it
    was; a refused vote starts no timer either. *)
Theorem refused_call_changes_nothing (cardData : CardData)
    (fresh : nat -> string * string) (draws : RoundDraws)
    (gid pid other moral text : string) (player : Player) (cardId : Z)
    (customText : option string) (games : gmap string Game) :
  (snd (joinGame gid player games) = false ->
   fst (joinGame gid player games) = games)
  /\ (snd (startGame cardData fresh draws gid games) = false ->
      fst (startGame cardData fresh draws gid games) = games)
  /\ (snd (updateCustomCard gid pid cardId text games) = false ->
      fst (updateCustomCard gid pid cardId text games) = games)
  /\ (snd (selectCard gid pid cardId customText games) = false ->
      fst (selectCard gid pid cardId customText games) = games)
  /\ (snd (submitMoral gid pid moral games) = false ->
      fst (submitMoral gid pid moral games) = games)
  /\ (snd (fst (castVote gid pid other games)) = false ->
      castVote gid pid other games = (games, false, []))
  /\ (snd (removePlayer gid pid games) = false ->
      fst (removePlayer gid pid games) = games).
Proof.
  repeat split.
  - apply joinGame_failure.
  - apply startGame_failure.
  - apply updateCustomCard_failure.
  - apply selectCard_failure.
  - apply submitMoral_failure.
  - destruct (castVote gid pid other games) as [[games' ok] tasks] eqn:E.
    simpl. intros ->. by destruct (castVote_failure _ _ _ _ _ _ E) as [-> ->].
  - apply removePlayer_failure.
Qed.

(** X2. A request that is answered with an error has changed no session, has
    left the socket bound as it was and has started nothing. *)
Theorem refused_request_changes_nothing (cardData : CardData)
    (fresh : nat -> string * string) (draws : RoundDraws)
    (moralDraws : list MoralDraw) (uuid : string)
    (playerData : option PlayerData) (gid name other moral text : string)
    (cardId : Z) (customText : option string) (games : gmap string Game) :
  (forall ack pd' games',
     onJoinGame uuid playerData gid name games = (ack, pd', games') ->
     success ack = false -> pd' = playerData /\ games' = games)
  /\ (forall ack games',
        onStartGame cardData fresh draws playerData gid games = (ack, games') ->
        success ack = false -> games' = games)
  /\ (forall ack games',
        onUpdateCustomCard playerData gid cardId text games = (ack, games') ->
        success ack = false -> games' = games)
  /\ (forall ack games' next,
        onSelectCard playerData gid cardId customText games
        = (Some ack, games', next) ->
        success ack = false -> games' = games /\ next = None)
  /\ (forall ack games',
        onSubmitMoral moralDraws playerData gid moral games = (ack, games') ->
        success ack = false -> games' = games)
  /\ (forall ack games' tasks,
        onCastVote playerData gid other games = (ack, games', tasks) ->
        success ack = false -> games' = games /\ tasks = [])
  /\ (forall ack games',
        onNextRound cardData draws playerData gid games = (ack, games') ->
        success ack = false -> games' = games)
  /\ (forall ack pd' games',
        onLeaveGame playerData gid games = (ack, pd', games') ->
        success ack = false -> pd' = playerData /\ games' = games).
Proof.
  repeat match goal with |- _ /\ _ => split end.
  - unfold onJoinGame. intros ack pd' games' H Hack.
    destruct (_ || _); [by injection H as <- <- <-|].
    destruct (getGameState _ _); [|by injection H as <- <- <-].
    destruct (joinGame _ _ _) as [g ok] eqn:E.
    destruct ok; simpl in H; injection H as <- <- <-; [done|].
    split; [done|]. by rewrite <- (joinGame_failure gid _ games), E by (by rewrite E).
  - unfold onStartGame. intros ack games' H Hack.
    destruct playerData as [pd|]; [|by injection H as <- <-].
    destruct (negb (String.eqb _ _)); [by injection H as <- <-|].
    destruct (getGameState _ _); [|by injection H as <- <-].
    destruct (negb _); [by injection H as <- <-|].
    destruct (startGame _ _ _ _ _) as [g ok] eqn:E.
    destruct ok; simpl in H; injection H as <- <-; [done|].
    by rewrite <- (startGame_failure cardData fresh draws gid games), E
      by (by rewrite E).
  - unfold onUpdateCustomCard. intros ack games' H Hack.
    destruct playerData as [pd|]; [|by injection H as <- <-].
    destruct (negb (String.eqb _ _)); [by injection H as <- <-|].
    destruct (String.eqb _ _); [by injection H as <- <-|].
    destruct (updateCustomCard _ _ _ _ _) as [g ok] eqn:E.
    destruct ok; simpl in H; injection H as <- <-; [done|].
    by rewrite <- (updateCustomCard_failure gid (playerId pd) cardId text games),
      E by (by rewrite E).
  - unfold onSelectCard. intros ack games' next H Hack.
    destruct playerData as [pd|]; [|by injection H as <- <- <-].
    destruct (negb (String.eqb _ _)); [by injection H as <- <- <-|].
    destruct (selectCard _ _ _ _ _) as [g ok] eqn:E.
    destruct ok; simpl in H.
    + destruct (getGameState _ _); [|done].
      destruct (negb _); [injection H as <- <- <-; done|].
      destruct (bool_decide _); injection H as <- <- <-; done.
    + injection H as <- <- <-. split; [|done].
      by rewrite <- (selectCard_failure gid (playerId pd) cardId customText games),
        E by (by rewrite E).
  - unfold onSubmitMoral. intros ack games' H Hack.
    destruct playerData as [pd|]; [|by injection H as <- <-].
    destruct (negb (String.eqb _ _)); [by injection H as <- <-|].
    destruct (String.eqb _ _); [by injection H as <- <-|].
    destruct (getGameState _ _); [|by injection H as <- <-].
    destruct (submitMoral _ _ _ _) as [g ok] eqn:E.
    destruct ok; simpl in H.
    + destruct (getGameState _ _); [|by injection H as <- <-].
      destruct (bool_decide _); injection H as <- <-; done.
    + injection H as <- <-.
      by rewrite <- (submitMoral_failure gid (playerId pd) moral games), E
        by (by rewrite E).
  - intros ack games' tasks. apply onCastVote_rejected.
  - unfold onNextRound. intros ack games' H Hack.
    destruct (negb (authorized _ _)); [by injection H as <- <-|].
    destruct (getGameState _ _); [|by injection H as <- <-].
    destruct (negb _); [by injection H as <- <-|].
    destruct (bool_decide _); injection H as <- <-; done.
  - unfold onLeaveGame. intros ack pd' games' H Hack.
    destruct (negb (authorized _ _)); [by injection H as <- <- <-|].
    destruct (handlePlayerLeave _ _). injection H as <- <- <-. done.
Qed.

(** ** Starting a session *)

Lemma startNewRound_lookup cardData draws gid games :
  is_Some (games !! gid) ->
  is_Some (startNewRound cardData draws gid games !! gid).
Proof.
  intros [game Hg]. unfold startNewRound. rewrite Hg.
  repeat case_match; rewrite ?lookup_insert_eq; eauto.
Qed.

Lemma startNewRound_status cardData draws gid games game game' :
  games !! gid = Some game ->
  startNewRound cardData draws gid games !! gid = Some game' ->
  Game.status game' = Game.status game
  \/ Game.status game' = gameStatus.COMPLETED.
Proof.
  intros Hg. unfold startNewRound. rewrite Hg.
  repeat case_match; rewrite ?lookup_insert_eq, ?Hg; intros [= <-]; auto.
Qed.

(** X3. Only the host starts a session: when the [startGame] handler
    answers with success, the socket is bound to a participant of the
    session that carries the host flag, the session was in the lobby,
    and it is no longer in the lobby afterwards. *)
Theorem onStartGame_host_only (cardData : CardData)
    (fresh : nat -> string * string) (draws : RoundDraws)
    (playerData : option PlayerData) (gid : string)
    (games games' : gmap string Game) (ack : Ack) :
  onStartGame cardData fresh draws playerData gid games = (ack, games') ->
  success ack = true ->
  exists pd game host game',
    playerData = Some pd /\ gameId pd = gid
    /\ games !! gid = Some game
    /\ Game.status game = gameStatus.LOBBY
    /\ List.find (has_id (playerId pd)) (Game.players game) = Some host
    /\ Player.isHost host = true
    /\ games' !! gid = Some game'
    /\ Game.status game' <> gameStatus.LOBBY.
Proof.
  unfold onStartGame, getGameState. intros H Hack.
  destruct playerData as [pd|]; [|by injection H as <- <-].
  destruct (String.eqb_spec (gameId pd) gid) as [Hgid|]; simpl in H;
    [|by injection H as <- <-].
  destruct (games !! gid) as [game|] eqn:Hg; [|by injection H as <- <-].
  destruct (List.find _ _) as [host|] eqn:Hhost; simpl in H;
    [|by injection H as <- <-].
  destruct (Player.isHost host) eqn:Hflag; simpl in H;
    [|by injection H as <- <-].
  destruct (startGame _ _ _ _ _) as [g ok] eqn:E.
  destruct ok; simpl in H; injection H as <- <-; [|done].
  unfold startGame in E. rewrite Hg in E.
  destruct (bool_decide (Game.status game = gameStatus.LOBBY)) eqn:Hs;
    simpl in E; [|done].
  apply bool_decide_eq_true in Hs.
  destruct (_ <? _)%nat; [done|]. injection E as <-.
  match goal with
  | |- context [startNewRound _ _ _ (<[gid:=?g0]> games)] => set (game0 := g0)
  end.
  destruct (startNewRound_lookup cardData draws gid (<[gid:=game0]> games))
    as [game' Hg']; [by rewrite lookup_insert_eq|].
  exists pd, game, host, game'. repeat split; try done.
  destruct (startNewRound_status cardData draws gid _ game0 game'
              (lookup_insert_eq _ _ _) Hg') as [-> | ->]; done.
Qed.

(** ** Selecting twice *)

Lemma findIndex_alter {A} (f : A -> bool) (upd : A -> A) (i : nat)
    (a : list A) :
  (forall x, f (upd x) = f x) ->
  findIndex f (alter upd i a) = findIndex f a.
Proof.
  intros Hf. revert i. induction a as [|x a IH]; intros [|i]; try done.
  - change (alter upd 0 (x :: a)) with (upd x :: a). simpl. by rewrite Hf.
  - change (alter upd (S i) (x :: a)) with (x :: alter upd i a).
    simpl. by rewrite IH.
Qed.

Lemma alter_idemp {A} (upd : A -> A) (i : nat) (a : list A) :
  (forall x, upd (upd x) = upd x) ->
  alter upd i (alter upd i a) = alter upd i a.
Proof.
  intros Hu. rewrite list_alter_alter_eq.
  apply list_alter_ext; [|done]. intros x _. apply Hu.
Qed.

(** The hand [selectCard] stores for the card at [cardIndex]. *)
Lemma selectCard_hand_idemp (customText : option string) (cardIndex : nat)
    (hand : list Card) :
  let store hand :=
    match customText with
    | Some text =>
        if match hand !! cardIndex with
           | Some card => Card.isCustom card
           | None => false
           end && truthy_text customText
        then alter (Card.with_text text) cardIndex hand
        else hand
    | None => hand
    end in
  store (store hand) = store hand.
Proof.
  intros store. unfold store. destruct customText as [text|]; [|done].
  destruct (hand !! cardIndex) as [card|] eqn:Hc; cbv beta iota;
    [|simpl; by rewrite Hc].
  destruct (Card.isCustom card && truthy_text (Some text)) eqn:Hb.
  - rewrite list_lookup_alter_eq, Hc.
    change (Card.with_text text <$> Some card)
      with (Some (Card.with_text text card)).
    cbv beta iota.
    change (Card.isCustom (Card.with_text text card)) with (Card.isCustom card).
    rewrite Hb. by apply alter_idemp.
  - by rewrite Hc, Hb.
Qed.

(** X4. Selecting is idempotent: the same request made again, whether it is
    then accepted or refused, leaves the sessions as the first one left
    them. *)
Theorem selectCard_idempotent (gid pid : string) (cardId : Z)
    (customText : option string) (games : gmap string Game) :
  fst (selectCard gid pid cardId customText
         (fst (selectCard gid pid cardId customText games)))
  = fst (selectCard gid pid cardId customText games).
Proof.
  destruct (selectCard gid pid cardId customText games) as [games1 ok] eqn:E.
  simpl. destruct ok; cycle 1.
  { pose proof (selectCard_failure gid pid cardId customText games) as Hf.
    rewrite E in Hf. simpl in Hf. specialize (Hf eq_refl). subst games1.
    by rewrite E. }
  unfold selectCard in E.
  destruct (games !! gid) as [game|] eqn:Hg; [|done].
  destruct (bool_decide _) eqn:Hs; simpl in E; [|done].
  destruct (List.find _ _) as [player|] eqn:Hp; [|done].
  destruct (Player.hand player) as [hand|] eqn:Hh; [|done].
  destruct (findIndex _ hand) as [cardIndex|] eqn:Hi; [|done].
  pose proof (selectCard_hand_idemp customText cardIndex hand) as Hidem.
  simpl in Hidem.
  match type of Hidem with
  | _ = ?h => set (hand1 := h) in *
  end.
  set (select := fun p => Player.with_selectedCard (value cardId)
                            (Player.with_hand (Some hand1) p)) in *.
  set (game1 := Game.with_players
                  (update_first (has_id pid) select (Game.players game)) game)
    in *.
  injection E as <-.
  unfold advanceIfAllSelected.
  destruct (allSelected game1) eqn:Hall.
  - unfold selectCard. rewrite lookup_insert_eq. done.
  - unfold selectCard. rewrite lookup_insert_eq.
    change (Round.status (Game.round game1))
      with (Round.status (Game.round game)).
    rewrite Hs. simpl.
    rewrite find_update_first, Hp by done. simpl.
    assert (findIndex (card_has_id cardId) hand1 = Some cardIndex) as ->.
    { unfold hand1. destruct customText as [text|]; [|done].
      destruct (_ && _); [|done]. by rewrite findIndex_alter. }
    rewrite Hidem. fold select.
    rewrite (update_first_fix _ _ _ (select player)); cycle 1.
    { by rewrite find_update_first, Hp. }
    { done. }
    unfold advanceIfAllSelected.
    change (Game.with_players
              (update_first (has_id pid) select (Game.players game)) game1)
      with game1.
    rewrite Hall. simpl. by rewrite insert_insert_eq.
Qed.

(** ** Scoring *)

Lemma addScore_ids (players : list Player) (s : Submission) :
  List.map Player.id (addScore players s) = List.map Player.id players.
Proof. unfold addScore. by apply map_update_first. Qed.

Lemma sum_score_addScore (players : list Player) (s : Submission) :
  Submission.playerId s ∈ List.map Player.id players ->
  sum_list (List.map Player.score (addScore players s))
  = (sum_list (List.map Player.score players) + Submission.votes s)%nat.
Proof.
  unfold addScore. induction players as [|p players IH]; simpl.
  - by intros ?%elem_of_nil.
  - unfold has_id at 1.
    destruct (String.eqb_spec (Player.id p) (Submission.playerId s)) as [|Hne];
      simpl; [lia|].
    rewrite elem_of_cons. intros [Heq|Hin]; [congruence|].
    rewrite IH by done. lia.
Qed.

Lemma sum_score_fold (subs : list Submission) (players : list Player) :
  Forall (fun s => Submission.playerId s ∈ List.map Player.id players) subs ->
  sum_list (List.map Player.score (fold_left addScore subs players))
  = (sum_list (List.map Player.score players)
     + sum_list (List.map Submission.votes subs))%nat.
Proof.
  revert players. induction subs as [|s subs IH]; intros players Hin; simpl.
  - lia.
  - inversion Hin as [|? ? Hs Hrest]; subst.
    rewrite IH.
    + rewrite sum_score_addScore by done. lia.
    + eapply Forall_impl; [exact Hrest|]. intros s'. by rewrite addScore_ids.
Qed.

Lemma fold_addScore_ids (subs : list Submission) (players : list Player) :
  List.map Player.id (fold_left addScore subs players)
  = List.map Player.id players.
Proof.
  revert players. induction subs as [|s subs IH]; intros players; simpl;
    [done|]. by rewrite IH, addScore_ids.
Qed.

(** X5. Scoring hands out exactly the votes that were cast.  When a round
    that is not scored yet ends and every submission belongs to a
    participant, the scores of the session grow, in total, by the votes
    its submissions hold; the round is then in RESULTS, with the same
    participants in the same order and the submissions as they were. *)
Theorem endRound_scores_votes (gid : string) (games : gmap string Game)
    (game : Game) :
  games !! gid = Some game ->
  Round.status (Game.round game) <> roundStatus.RESULTS ->
  Forall (fun s => Submission.playerId s
                   ∈ List.map Player.id (Game.players game))
    (Round.submissions (Game.round game)) ->
  exists game',
    endRound gid games !! gid = Some game'
    /\ totalScore game' = (totalScore game + totalVotes game)%nat
    /\ Round.status (Game.round game') = roundStatus.RESULTS
    /\ List.map Player.id (Game.players game')
       = List.map Player.id (Game.players game)
    /\ Round.submissions (Game.round game')
       = Round.submissions (Game.round game).
Proof.
  intros Hg Hs Hin. unfold endRound. rewrite Hg.
  rewrite bool_decide_eq_false_2 by done.
  eexists. rewrite lookup_insert_eq. split; [done|].
  unfold totalScore, totalVotes.
  repeat split; destruct (_ >=? _); simpl;
    by rewrite ?sum_score_fold, ?fold_addScore_ids by done.
Qed.

(** X6. [endRound] only acts on a round that is not yet in RESULTS.  A
    session whose round is in RESULTS is left as it is; after [endRound]
    the round of the session is in RESULTS; so ending a round twice in a
    row is the same as ending it once, and the second call adds no
    point. *)
Theorem endRound_idempotent (gid : string) (games : gmap string Game) :
  (forall game,
      games !! gid = Some game ->
      Round.status (Game.round game) = roundStatus.RESULTS ->
      endRound gid games = games)
  /\ (forall game',
        endRound gid games !! gid = Some game' ->
        Round.status (Game.round game') = roundStatus.RESULTS)
  /\ endRound gid (endRound gid games) = endRound gid games.
Proof.
  assert (forall games game,
            games !! gid = Some game ->
            Round.status (Game.round game) = roundStatus.RESULTS ->
            endRound gid games = games) as Hdone.
  { intros games0 game Hg Hs. unfold endRound.
    by rewrite Hg, bool_decide_eq_true_2. }
  assert (forall game',
            endRound gid games !! gid = Some game' ->
            Round.status (Game.round game') = roundStatus.RESULTS) as Hres.
  { intros game'. unfold endRound.
    destruct (games !! gid) as [game|] eqn:Hg; [|by rewrite Hg].
    case_bool_decide as Hs.
    - rewrite Hg. by intros [= <-].
    - rewrite lookup_insert_eq. intros [= <-]. by destruct (_ >=? _). }
  split; [apply Hdone|]. split; [exact Hres|].
  destruct (endRound gid games !! gid) as [game'|] eqn:Hg'.
  - apply (Hdone _ game'); [done|]. by apply Hres.
  - unfold endRound at 1. by rewrite Hg'.
Qed.

(** ** What a session keeps *)

Lemma later_refl game : later game game.
Proof. unfold later. repeat split; lia. Qed.

Lemma later_trans game1 game2 game3 :
  later game1 game2 -> later game2 game3 -> later game1 game3.
Proof.
  unfold later. intros (Hi & Hs & Hr & Hl & Hn) (Hi' & Hs' & Hr' & Hl' & Hn').
  rewrite Hs in Hl', Hn'. repeat split; try congruence; lia.
Qed.

(** An update of the participants or of the round that keeps their
    number. *)
Lemma later_same game game' :
  Game.gameId game' = Game.gameId game ->
  Game.settings game' = Game.settings game ->
  Game.status game' = Game.status game ->
  length (Game.players game') = length (Game.players game) ->
  Round.number (Game.round game') = Round.number (Game.round game) ->
  later game game'.
Proof. unfold later. intros -> -> -> -> ->. repeat split; lia. Qed.

Lemma ensues_refl games : ensues games games.
Proof. intros gid game Hg. eauto using later_refl. Qed.

Lemma ensues_trans games1 games2 games3 :
  ensues games1 games2 -> ensues games2 games3 -> ensues games1 games3.
Proof.
  intros H12 H23 gid game3 Hg.
  destruct (H23 _ _ Hg) as (game2 & Hg2 & Hl2).
  destruct (H12 _ _ Hg2) as (game1 & Hg1 & Hl1).
  eauto using later_trans.
Qed.

Lemma ensues_insert games gid game game' :
  games !! gid = Some game -> later game game' ->
  ensues games (<[gid:=game']> games).
Proof.
  intros Hg Hl gid' g'. destruct (decide (gid' = gid)) as [->|Hne].
  - rewrite lookup_insert_eq. intros [= <-]. eauto.
  - rewrite lookup_insert_ne by done. eauto using later_refl.
Qed.

Lemma ensues_delete games gid : ensues games (delete gid games).
Proof.
  intros gid' g'. rewrite lookup_delete_Some. intros [_ Hg].
  eauto using later_refl.
Qed.

Lemma length_dealPlayers cardData next players draws :
  length (dealPlayers cardData next players draws) = length players.
Proof.
  revert next draws. induction players as [|p players IH];
    intros next [|d draws]; simpl; try done.
  destruct (dealPlayer cardData next p d) as [next' p']. simpl.
  by rewrite IH.
Qed.

Lemma length_fold_addScore subs players :
  length (fold_left addScore subs players) = length players.
Proof.
  rewrite <- (length_map Player.id), fold_addScore_ids.
  apply length_map.
Qed.

Lemma later_advanceIfAllSelected game :
  later game (advanceIfAllSelected game).
Proof.
  unfold advanceIfAllSelected. destruct (allSelected game);
    [by apply later_same | apply later_refl].
Qed.

Lemma later_markVoted voterId game : later game (markVoted voterId game).
Proof.
  unfold markVoted. destruct (List.find _ _); [|apply later_refl].
  apply later_same; simpl; try done. apply length_update_first.
Qed.

Lemma later_generateAIMorals_loop todo draws game :
  later game (generateAIMorals_loop todo draws game).
Proof.
  revert draws game. induction todo as [|p todo IH]; intros draws game; simpl;
    [apply later_refl|].
  destruct (needsMoral p); [|apply IH].
  destruct draws as [|d draws]; [apply later_refl|].
  eapply later_trans; [|apply IH].
  apply later_same; simpl; try done. apply length_update_first.
Qed.

Lemma later_failsafe players game :
  later game (fold_left failsafeMoral players game).
Proof.
  revert game. induction players as [|p players IH]; intros game; simpl;
    [apply later_refl|].
  eapply later_trans; [|apply IH].
  unfold failsafeMoral. destruct (needsMoral p); [|apply later_refl].
  apply later_same; simpl; try done. apply length_update_first.
Qed.

Lemma length_assignNewHost players :
  length (assignNewHost players) = length players.
Proof.
  unfold assignNewHost. destruct (List.find _ _).
  - apply length_update_first.
  - apply length_alter.
Qed.

Lemma length_delete_le {A} (l : list A) (i : nat) :
  (length (delete i l) <= length l)%nat.
Proof.
  revert i. induction l as [|x l IH]; intros [|i]; simpl; try lia.
  specialize (IH i). simpl in IH. lia.
Qed.

Lemma length_remaining i players :
  (length (remaining i players) <= length players)%nat.
Proof.
  unfold remaining. destruct (_ && _);
    rewrite ?length_assignNewHost; apply length_delete_le.
Qed.

Lemma ensues_joinGame gid player games :
  ensues games (fst (joinGame gid player games)).
Proof.
  unfold joinGame. destruct (games !! gid) as [game|] eqn:Hg;
    [|apply ensues_refl].
  destruct (negb _); [apply ensues_refl|].
  destruct (_ >=? _) eqn:Hfull; [apply ensues_refl|].
  apply (ensues_insert _ _ game); [done|].
  unfold later. simpl. rewrite length_app. simpl.
  repeat split; lia.
Qed.

Lemma ensues_startNewRound cardData draws gid games :
  ensues games (startNewRound cardData draws gid games).
Proof.
  unfold startNewRound. destruct (games !! gid) as [game|] eqn:Hg;
    [|apply ensues_refl].
  destruct (bool_decide _); [apply ensues_refl|].
  destruct (_ >=? _) eqn:Hge.
  - apply (ensues_insert _ _ game); [done|].
    unfold later. simpl. repeat split; try lia.
    destruct (Game.status game); simpl; lia.
  - apply (ensues_insert _ _ game); [done|].
    rewrite Z.geb_leb in Hge. apply Z.leb_gt in Hge.
    unfold later, dealCards, assignCardTypes. simpl.
    rewrite length_dealPlayers, forEachi_assignRole_length, length_map.
    destruct (negb _); simpl; repeat split; lia.
Qed.

Lemma ensues_startGame cardData fresh draws gid games :
  ensues games (fst (startGame cardData fresh draws gid games)).
Proof.
  unfold startGame. destruct (games !! gid) as [game|] eqn:Hg;
    [|apply ensues_refl].
  destruct (bool_decide _) eqn:Hs; [|apply ensues_refl].
  apply bool_decide_eq_true in Hs.
  destruct (_ <? _)%nat; [apply ensues_refl|]. simpl.
  eapply ensues_trans; [|apply ensues_startNewRound].
  apply (ensues_insert _ _ game); [done|].
  unfold later. simpl. rewrite Hs, length_app, length_map, length_seq.
  repeat split; simpl; lia.
Qed.

Lemma ensues_updateCustomCard gid pid cardId text games :
  ensues games (fst (updateCustomCard gid pid cardId text games)).
Proof.
  unfold updateCustomCard. repeat case_match; try apply ensues_refl.
  eapply ensues_insert; [done|].
  apply later_same; try done. apply length_update_first.
Qed.

Lemma ensues_selectCard gid pid cardId text games :
  ensues games (fst (selectCard gid pid cardId text games)).
Proof.
  unfold selectCard. destruct (games !! gid) as [game|] eqn:Hg;
    [|apply ensues_refl].
  destruct (negb _); [apply ensues_refl|].
  destruct (List.find _ _); [|apply ensues_refl].
  destruct (Player.hand _); [|apply ensues_refl].
  destruct (findIndex _ _); [|apply ensues_refl].
  apply (ensues_insert _ _ game); [done|].
  eapply later_trans; [|apply later_advanceIfAllSelected].
  apply later_same; try done. apply length_update_first.
Qed.

Lemma ensues_makeAISelections_begin gid games :
  ensues games (fst (makeAISelections_begin gid games)).
Proof.
  unfold makeAISelections_begin. destruct (games !! gid) as [game|] eqn:Hg;
    [|apply ensues_refl].
  destruct (negb _); [apply ensues_refl|].
  apply (ensues_insert _ _ game); [done|].
  apply later_same; try done. apply length_map.
Qed.

Lemma ensues_makeAISelections_pick r gid aiId games :
  ensues games (makeAISelections_pick r gid aiId games).
Proof.
  unfold makeAISelections_pick. destruct (games !! gid) as [game|] eqn:Hg;
    [|apply ensues_refl].
  apply (ensues_insert _ _ game); [done|].
  apply later_same; try done. apply length_update_first.
Qed.

Lemma ensues_makeAISelections_end gid games :
  ensues games (makeAISelections_end gid games).
Proof.
  unfold makeAISelections_end. destruct (games !! gid) as [game|] eqn:Hg;
    [|apply ensues_refl].
  apply (ensues_insert _ _ game); [done|]. apply later_advanceIfAllSelected.
Qed.

Lemma ensues_submitMoral gid pid moral games :
  ensues games (fst (submitMoral gid pid moral games)).
Proof.
  unfold submitMoral. destruct (games !! gid) as [game|] eqn:Hg;
    [|apply ensues_refl].
  destruct (negb _); [apply ensues_refl|].
  destruct (List.find _ _); [|apply ensues_refl].
  destruct (List.find _ _); [|apply ensues_refl].
  apply (ensues_insert _ _ game); [done|].
  destruct (_ && _); apply later_same; try done; apply length_update_first.
Qed.

Lemma ensues_generateAIMorals draws gid games :
  ensues games (generateAIMorals draws gid games).
Proof.
  unfold generateAIMorals. destruct (games !! gid) as [game|] eqn:Hg;
    [|apply ensues_refl].
  apply (ensues_insert _ _ game); [done|].
  eapply later_trans; [|apply later_failsafe].
  destruct (_ && _); [|apply later_generateAIMorals_loop].
  eapply later_trans; [apply later_generateAIMorals_loop|].
  by apply later_same.
Qed.

Lemma ensues_castVote gid voterId votedForId games :
  ensues games (fst (fst (castVote gid voterId votedForId games))).
Proof.
  unfold castVote. destruct (games !! gid) as [game|] eqn:Hg;
    [|apply ensues_refl].
  destruct (negb _); [apply ensues_refl|].
  destruct (List.find _ _); [|apply ensues_refl].
  destruct (List.find _ _); [|apply ensues_refl].
  destruct (String.eqb _ _); [apply ensues_refl|].
  destruct (List.find _ _); [|apply ensues_refl].
  apply (ensues_insert _ _ game); [done|].
  eapply later_trans; [apply (later_markVoted voterId)|].
  by apply later_same.
Qed.

Lemma ensues_aiThinks gid aiId games :
  ensues games (fst (aiThinks gid aiId games)).
Proof.
  unfold aiThinks. destruct (games !! gid) as [game|] eqn:Hg;
    [|apply ensues_refl].
  apply (ensues_insert _ _ game); [done|].
  apply later_same; try done. apply length_update_first.
Qed.

Lemma ensues_aiVotes r r' gid aiId games :
  ensues games (aiVotes r r' gid aiId games).
Proof.
  unfold aiVotes. destruct (games !! gid) as [game|] eqn:Hg;
    [|apply ensues_refl].
  repeat case_match; apply (ensues_insert _ _ game); try done;
    (eapply later_trans; [apply (later_markVoted aiId)|]);
    try apply later_refl.
  apply later_same; try done. apply length_update_first.
Qed.

Lemma ensues_endRound gid games : ensues games (endRound gid games).
Proof.
  unfold endRound. destruct (games !! gid) as [game|] eqn:Hg;
    [|apply ensues_refl].
  destruct (bool_decide _); [apply ensues_refl|].
  apply (ensues_insert _ _ game); [done|].
  unfold later. destruct (_ >=? _); simpl; rewrite length_fold_addScore;
    repeat split; try lia.
  destruct (Game.status game); simpl; lia.
Qed.

Lemma ensues_removePlayer gid pid games :
  ensues games (fst (removePlayer gid pid games)).
Proof.
  unfold removePlayer. destruct (games !! gid) as [game|] eqn:Hg;
    [|apply ensues_refl].
  destruct (findIndex _ _) as [i|]; [|apply ensues_refl].
  fold (remaining i (Game.players game)).
  pose proof (length_remaining i (Game.players game)) as Hlen.
  destruct (_ =? _)%nat; [apply ensues_delete|].
  set (game1 := Game.with_players (remaining i (Game.players game)) game).
  assert (later game game1) as H1.
  { unfold later, game1. simpl. repeat split; lia. }
  destruct (bool_decide (Game.status game1 = gameStatus.ACTIVE)) eqn:Hs;
    simpl; apply (ensues_insert _ _ game); try done.
  apply bool_decide_eq_true in Hs. simpl in Hs.
  eapply later_trans; [exact H1|].
  destruct (findIndex _ (Round.submissions _));
    repeat (match goal with |- context [if ?b then _ else _] => destruct b end);
    first
      [ apply later_refl
      | by apply later_same
      | eapply later_trans; [|apply later_advanceIfAllSelected];
        by apply later_same
      | unfold later; simpl; rewrite Hs; simpl; repeat split; lia ].
Qed.

Lemma generateGameId_free candidates games gid :
  generateGameId candidates games = Some gid -> games !! gid = None.
Proof.
  unfold generateGameId. intros H. apply find_some in H as [_ H].
  by apply bool_decide_eq_true in H.
Qed.

(** A step creates a session, or every session it leaves is a later
    state of one that was there. *)
Lemma step_ensues cardData games games' :
  step cardData games games' ->
  ensues games games'
  \/ exists candidates host gid,
       createGame candidates host games = Some (games', gid).
Proof.
  intros Hstep. destruct Hstep; eauto;
    left; auto using ensues_joinGame, ensues_startGame, ensues_startNewRound,
      ensues_updateCustomCard, ensues_selectCard, ensues_makeAISelections_begin,
      ensues_makeAISelections_pick, ensues_makeAISelections_end,
      ensues_submitMoral, ensues_generateAIMorals, ensues_castVote,
      ensues_aiThinks, ensues_aiVotes, ensues_endRound, ensues_removePlayer.
Qed.

(** X7. The status of a session only moves forward.  Whatever call the
    server makes, a session that is still there afterwards has the id and
    the settings it had, and its status has not gone back: a session that
    has left the lobby never returns to it, and a completed one stays
    completed. *)
Theorem status_never_goes_back (cardData : CardData)
    (games games' : gmap string Game) (gid : string) (game game' : Game) :
  step cardData games games' ->
  games !! gid = Some game ->
  games' !! gid = Some game' ->
  Game.gameId game' = Game.gameId game
  /\ Game.settings game' = Game.settings game
  /\ (statusRank (Game.status game) <= statusRank (Game.status game'))%nat
  /\ (Game.status game <> gameStatus.LOBBY ->
      Game.status game' <> gameStatus.LOBBY)
  /\ (Game.status game = gameStatus.COMPLETED ->
      Game.status game' = gameStatus.COMPLETED).
Proof.
  intros Hstep Hg Hg'.
  assert (later game game') as (Hi & Hs & Hr & _).
  { destruct (step_ensues _ _ _ Hstep) as [Hens|(cs & host & gid' & Hc)].
    - destruct (Hens _ _ Hg') as (game0 & Hg0 & Hl). congruence.
    - unfold createGame in Hc.
      destruct (generateGameId cs games) as [gid0|] eqn:Hid; [|done].
      injection Hc as <- <-. apply generateGameId_free in Hid.
      rewrite lookup_insert_ne in Hg' by congruence.
      replace game' with game by congruence. apply later_refl. }
  repeat split; try done.
  - destruct (Game.status game), (Game.status game'); simpl in *; done || lia.
  - destruct (Game.status game), (Game.status game'); simpl in *; done || lia.
Qed.

Lemma wellFormed_ensues games games' :
  wellFormed games -> ensues games games' -> wellFormed games'.
Proof.
  intros Hwf Hens gid game' Hg'.
  destruct (Hens _ _ Hg') as (game & Hg & Hi & Hs & _ & Hl & Hn).
  destruct (Hwf _ _ Hg) as (Hid & Hset & Hlen & Hnum).
  rewrite Hset in Hl, Hn. simpl in Hl, Hn.
  repeat split; try congruence; lia.
Qed.

Lemma wellFormed_step cardData games games' :
  wellFormed games -> step cardData games games' -> wellFormed games'.
Proof.
  intros Hwf Hstep.
  destruct (step_ensues _ _ _ Hstep) as [Hens|(cs & host & gid' & Hc)];
    [by eapply wellFormed_ensues|].
  unfold createGame in Hc.
  destruct (generateGameId cs games) as [gid0|] eqn:Hid; [|done].
  injection Hc as <- <-. intros gid game.
  destruct (decide (gid = gid0)) as [->|Hne].
  - rewrite lookup_insert_eq. intros [= <-]. simpl. repeat split; lia.
  - rewrite lookup_insert_ne by done. apply Hwf.
Qed.

(** X8. A session stays within its settings.  In every registry the server
    can reach, each session is stored under its own id, has the settings
    it was created with (at most 5 participants, 3 rounds), holds at most
    5 participants, and is in a round numbered from 0 to 3. *)
Theorem session_within_settings (cardData : CardData)
    (games : gmap string Game) (gid : string) (game : Game) :
  reachable cardData games ->
  games !! gid = Some game ->
  Game.gameId game = gid
  /\ Game.settings game = Settings.mk 5 3
  /\ (length (Game.players game) <= 5)%nat
  /\ 0 <= Round.number (Game.round game) <= 3.
Proof.
  intros Hreach. revert gid game. fold (wellFormed games).
  unfold reachable in Hreach.
  apply (rtc_ind_r (R := step cardData) wellFormed ∅); [| |exact Hreach].
  - intros gid game. by rewrite lookup_empty.
  - intros games1 games2 _ Hstep Hinv. by eapply wellFormed_step.
Qed.

(** ** The view sent to a participant *)

Lemma is_selected_value (selected : nullable Z) (c : Card) :
  is_selected selected c = true -> selected = value (Card.id c).
Proof.
  destruct selected as [| |cardId]; simpl; try done.
  intros H. apply Z.eqb_eq in H. by subst.
Qed.

Lemma sanitizePlayer_shownAs status playerId p :
  shownAs status playerId p (sanitizePlayer status playerId p).
Proof.
  unfold shownAs, sanitizePlayer.
  destruct (String.eqb (Player.id p) playerId) eqn:Hown.
  { repeat split; done. }
  destruct (Player.hand p) as [hand|] eqn:Hh; cycle 1.
  { repeat split; done. }
  case_bool_decide as Hst; simpl.
  - rewrite andb_false_r. simpl. repeat split; done.
  - rewrite andb_true_r.
    destruct (Player.selectedCard p) as [| |cardId] eqn:Hsel; simpl.
    + assert (List.find (is_selected undefined) hand = None) as ->
        by (clear; by induction hand).
      repeat split; done.
    + repeat split; done.
    + change (is_selected (value cardId))
        with (fun c : Card => Card.id c =? cardId).
      destruct (List.find _ hand) as [card|]; simpl; repeat split; done.
Qed.

Lemma shownAs_hasVoted status playerId p q :
  shownAs status playerId p q ->
  shownAs status playerId p (Player.with_hasVoted true q).
Proof. unfold shownAs. by destruct q. Qed.

Lemma Forall2_update_first {A B} (R : A -> B -> Prop) (f : B -> bool)
    (upd : B -> B) (l : list A) (l' : list B) :
  (forall x y, R x y -> R x (upd y)) ->
  Forall2 R l l' -> Forall2 R l (update_first f upd l').
Proof.
  intros Hupd H. induction H as [|x y l l' Hxy Hrest IH]; simpl; [constructor|].
  destruct (f y); constructor; auto.
Qed.

Lemma Forall2_map_r_self {A} (R : A -> A -> Prop) (g : A -> A) (l : list A) :
  (forall x, R x (g x)) -> Forall2 R l (List.map g l).
Proof. intros Hg. induction l; simpl; constructor; auto. Qed.

(** X9. The view sent to a participant hides the cards of the other
    hands.  Of the game it is a view of, it keeps the statuses, the
    settings, the round number and the narrative, the submissions up to
    their vote flags, and the participants in their order with every
    field but the hand and the vote flag, the id of the selected card
    among them, in every phase.  The recipient's own hand is shown as it
    is.  Another participant's hand is shown as placeholders, one per
    card, during the selection phase and as long as that participant's
    selection is null; once the selection phase is over, it is shown as
    the selected card alone. *)
Theorem sanitize_hides_hands (game : Game) (playerId : string) :
  let view := sanitizeGameStateForPlayer game playerId in
  Game.gameId view = Game.gameId game
  /\ Game.status view = Game.status game
  /\ Game.settings view = Game.settings game
  /\ Round.number (Game.round view) = Round.number (Game.round game)
  /\ Round.status (Game.round view) = Round.status (Game.round game)
  /\ Round.story (Game.round view) = Round.story (Game.round game)
  /\ Forall2 (shownAs (Round.status (Game.round game)) playerId)
       (Game.players game) (Game.players view)
  /\ Forall2 (fun s t => Submission.with_hasVoted false t
                         = Submission.with_hasVoted false s)
       (Round.submissions (Game.round game))
       (Round.submissions (Game.round view)).
Proof.
  intros view. unfold view, sanitizeGameStateForPlayer.
  set (status := Round.status (Game.round game)).
  assert (Forall2 (shownAs status playerId) (Game.players game)
            (List.map (sanitizePlayer status playerId) (Game.players game)))
    as Hplayers.
  { apply Forall2_map_r_self. apply sanitizePlayer_shownAs. }
  assert (Forall2 (fun s t => Submission.with_hasVoted false t
                              = Submission.with_hasVoted false s)
            (Round.submissions (Game.round game))
            (Round.submissions (Game.round game))) as Hsubs.
  { apply Forall_Forall2_diag, Forall_forall. done. }
  repeat case_match; simpl; repeat split; try done.
  - apply Forall2_update_first; [|done]. apply shownAs_hasVoted.
  - apply Forall2_update_first; [|done]. intros ? sub <-. by destruct sub.
Qed.

(** ** The rate limit *)

Lemma checkRateLimit_in_window now tracker :
  now <= resetTime tracker ->
  checkRateLimit now tracker
  = if (maxCalls tracker <=? calls tracker)%nat then (tracker, false)
    else ({| calls := calls tracker + 1; resetTime := resetTime tracker;
             maxCalls := maxCalls tracker |}, true).
Proof.
  intros Hnow. unfold checkRateLimit.
  destruct (resetTime tracker <? now) eqn:Hlt; [|done].
  apply Z.ltb_lt in Hlt. lia.
Qed.

(** X10. Within a window the limiter lets [maxCalls] counted calls through
    and no more.  Of successive calls made no later than the reset time,
    the first ones are granted until the count has reached the cap, and
    every later one is refused; the count ends at what it was plus the
    calls granted, and the reset time is not moved. *)
Theorem checkRateLimit_caps_window (times : list Z)
    (tracker : ApiCallTracker) :
  Forall (fun now => now <= resetTime tracker) times ->
  let granted :=
    Nat.min (length times) (maxCalls tracker - calls tracker) in
  checkRateLimits times tracker
  = ({| calls := calls tracker + granted; resetTime := resetTime tracker;
        maxCalls := maxCalls tracker |},
     replicate granted true ++ replicate (length times - granted) false).
Proof.
  revert tracker. induction times as [|now times IH]; intros tracker Hin.
  - simpl. destruct tracker as [c r m]. simpl. do 2 f_equal. lia.
  - inversion Hin as [|? ? Hnow Hrest]; subst.
    cbn [checkRateLimits]. rewrite checkRateLimit_in_window by done.
    destruct (Nat.leb_spec (maxCalls tracker) (calls tracker)) as [Hfull|Hroom].
    + rewrite (IH tracker Hrest). cbv zeta.
      replace (maxCalls tracker - calls tracker)%nat with 0%nat by lia.
      rewrite !Nat.min_0_r. simpl. rewrite Nat.sub_0_r.
      by destruct tracker as [c r m].
    + rewrite IH by done. cbv zeta. simpl calls. simpl resetTime.
      simpl maxCalls. simpl length.
      replace (maxCalls tracker - calls tracker)%nat
        with (S (maxCalls tracker - (calls tracker + 1))) by lia.
      rewrite <- Nat.succ_min_distr. simpl. do 2 f_equal. lia.
Qed.

Lemma checkRateLimit_caps_window_witness :
  checkRateLimits (List.map Z.of_nat (seq 1 25)) (apiCallTracker 0)
  = ({| calls := 20; resetTime := 60000; maxCalls := 20 |},
     replicate 20 true ++ replicate 5 false).
Proof.
  apply (checkRateLimit_caps_window (List.map Z.of_nat (seq 1 25))
           (apiCallTracker 0)).
  apply (bool_decide_unpack _). vm_compute. exact I.
Defined.

(** ** The length of a generated moral *)

Lemma js_length_append (s1 s2 : string) :
  js_length (String.append s1 s2) = (js_length s1 + js_length s2)%nat.
Proof.
  induction s1 as [|c s1 IH]; simpl; [done|]. rewrite IH. lia.
Qed.

Lemma utf16_units_cases (c : ascii) :
  utf16_units c = 0%nat \/ utf16_units c = 1%nat \/ utf16_units c = 2%nat.
Proof. unfold utf16_units. repeat case_match; auto. Qed.

Lemma utf16_units_of_N (n : N) :
  (n < 256)%N ->
  utf16_units (ascii_of_N n)
  = if (n <? 128)%N then 1%nat
    else if (n <? 192)%N then 0%nat
    else if (n <? 240)%N then 1%nat else 2%nat.
Proof. intros Hn. unfold utf16_units. by rewrite N_ascii_embedding. Qed.

(** What is left of a surrogate pair cut in two is one code unit. *)
Lemma js_length_high_surrogate (c : ascii) (s : string) :
  js_length (high_surrogate c s) = 1%nat.
Proof.
  unfold high_surrogate. cbv zeta. cbn [js_length].
  match goal with
  | |- context [(55296 + ?x mod 1024)%N] => set (high := (55296 + x mod 1024)%N)
  end.
  clearbody high.
  pose proof (N.mod_upper_bound (high / 64) 64 ltac:(lia)).
  pose proof (N.mod_upper_bound high 64 ltac:(lia)).
  rewrite !utf16_units_of_N by lia.
  change (237 <? 128)%N with false. change (237 <? 192)%N with false.
  change (237 <? 240)%N with true. cbv iota.
  assert (forall k, (k < 64)%N ->
            (if (128 + k <? 128)%N then 1%nat
             else if (128 + k <? 192)%N then 0%nat
             else if (128 + k <? 240)%N then 1%nat else 2%nat) = 0%nat)
    as Hcont.
  { intros k Hk. destruct (N.ltb_spec (128 + k) 128); [lia|].
    destruct (N.ltb_spec (128 + k) 192); [done|lia]. }
  by rewrite !Hcont.
Qed.

(** [substring(0, n)] has [n] code units, or all there are. *)
Lemma js_length_prefix (n : nat) (s : string) :
  js_length (js_prefix n s) = Nat.min n (js_length s).
Proof.
  revert n. induction s as [|c s IH]; intros n; [by destruct n|].
  cbn [js_prefix js_length].
  destruct (utf16_units_cases c) as [Hc|[Hc|Hc]]; rewrite Hc.
  - cbn [js_length]. rewrite Hc, IH. done.
  - destruct n as [|n]; [done|]. cbn [js_length]. rewrite Hc, IH. done.
  - destruct n as [|[|n]]; [done| |].
    + rewrite js_length_high_surrogate. done.
    + cbn [js_length]. rewrite Hc, IH. done.
Qed.

(** [substring(0, n)] is the string up to a point, or up to a surrogate
    pair of which it keeps the first half. *)
Lemma js_prefix_cut (n : nat) (s : string) :
  (exists rest, s = String.append (js_prefix n s) rest)
  \/ (exists pre c rest,
        s = String.append pre (String c rest)
        /\ utf16_units c = 2%nat
        /\ js_prefix n s = String.append pre (high_surrogate c rest)).
Proof.
  revert n. induction s as [|c s IH]; intros n.
  { left. exists EmptyString. done. }
  cbn [js_prefix].
  assert (forall m,
            (exists rest,
               String c s = String.append (String c (js_prefix m s)) rest)
            \/ (exists pre c0 rest,
                  String c s = String.append pre (String c0 rest)
                  /\ utf16_units c0 = 2%nat
                  /\ String c (js_prefix m s)
                     = String.append pre (high_surrogate c0 rest))) as Hkeep.
  { intros m. destruct (IH m) as [(rest & Hrest)|(pre & c0 & rest & Hs & Hc0 & Hp)].
    - left. exists rest.
      change (String c s = String c (String.append (js_prefix m s) rest)).
      by f_equal.
    - right. exists (String c pre), c0, rest.
      change (String c s = String c (String.append pre (String c0 rest))
              /\ utf16_units c0 = 2%nat
              /\ String c (js_prefix m s)
                 = String c (String.append pre (high_surrogate c0 rest))).
      split; [by f_equal|]. split; [done|]. by f_equal. }
  destruct (utf16_units_cases c) as [Hc|[Hc|Hc]]; rewrite Hc.
  - apply Hkeep.
  - destruct n as [|n]; [left; by exists (String c s)|]. apply Hkeep.
  - destruct n as [|[|n]]; [left; by exists (String c s)| |apply Hkeep].
    right. exists EmptyString, c, s. done.
Qed.

Lemma generateFallbackMoral_length (story : string) :
  (js_length (generateFallbackMoral story) <= 150)%nat.
Proof.
  unfold generateFallbackMoral.
  assert (Forall (fun m => (js_length m <= 150)%nat) fallbackMorals)
    as Hall.
  { apply (bool_decide_unpack _). vm_compute. exact I. }
  apply Forall_nth; [done|]. apply Nat.mod_upper_bound. done.
Qed.

(** X11. A generated moral is at most 150 UTF-16 code units long, the
    unit [.length] counts in.  [generateAIMoral] always returns, whatever
    the service call came to; a reply of at most 150 code units is
    returned as it is; a longer one is cut to its first 147 code units
    followed by three dots, which makes exactly 150.  The cut keeps the
    reply up to a point, or up to a surrogate pair of which it keeps the
    first half. *)
Theorem generateAIMoral_at_most_150 (story : string) (api : ApiOutcome) :
  exists moral,
    generateAIMoral story api = Returned moral
    /\ (js_length moral <= 150)%nat
    /\ (forall reply,
          api = Responded reply ->
          if (js_length reply <=? 150)%nat then moral = reply
          else
            exists kept,
              moral = String.append kept "..."
              /\ js_length kept = 147%nat
              /\ js_length moral = 150%nat
              /\ ((exists rest, reply = String.append kept rest)
                  \/ (exists pre c rest,
                        reply = String.append pre (String c rest)
                        /\ utf16_units c = 2%nat
                        /\ kept = String.append pre (high_surrogate c rest)))).
Proof.
  unfold generateAIMoral, generateAIMoral_try.
  destruct api as [|reply| |];
    try (eexists; split; [done|]; split;
         [apply generateFallbackMoral_length | done]).
  eexists. split; [done|].
  assert (js_length (String.append (js_prefix 147 reply) "...")
          = (Nat.min 147 (js_length reply) + 3)%nat) as Hcut.
  { by rewrite js_length_append, js_length_prefix. }
  destruct (Nat.ltb_spec 150 (js_length reply)) as [Hlong|Hshort].
  - split; [rewrite Hcut; lia|].
    intros ? [= <-]. rewrite (proj2 (Nat.leb_gt _ _)) by done.
    exists (js_prefix 147 reply). split; [done|].
    split; [rewrite js_length_prefix; lia|].
    split; [rewrite Hcut; lia|]. apply js_prefix_cut.
  - split; [done|].
    intros ? [= <-]. by rewrite (proj2 (Nat.leb_le _ _)).
Qed.

(** ** The morals of the simulated players *)

Lemma Forall2_update_first_if {A B} (R : A -> B -> Prop) (f : B -> bool)
    (upd : B -> B) (l : list A) (l' : list B) :
  (forall x y, R x y -> f y = true -> R x (upd y)) ->
  Forall2 R l l' -> Forall2 R l (update_first f upd l').
Proof.
  intros Hupd H. induction H as [|x y l l' Hxy Hrest IH]; simpl; [constructor|].
  destruct (f y) eqn:Hf; constructor; auto.
Qed.

(** What the loop of [generateAIMorals] may have done to [p], as [q]:
    only a participant whose id is among [ids] can have changed, and then
    in its moral only. *)
Lemma generateAIMorals_loop_touches (ids : list string) (todo : list Player)
    (draws : list MoralDraw) (game : Game) (players : list Player) :
  let touched p q :=
    sansMoral q = sansMoral p /\ (Player.id p ∉ ids -> q = p) in
  Forall (fun p => needsMoral p = true -> Player.id p ∈ ids) todo ->
  Forall2 touched players (Game.players game) ->
  Forall2 touched players
    (Game.players (generateAIMorals_loop todo draws game)).
Proof.
  intros touched. revert draws game.
  induction todo as [|p todo IH]; intros draws game Htodo Hinv; [done|].
  apply Forall_cons in Htodo as [Hp Htodo]. simpl.
  destruct (needsMoral p) eqn:Hn; [|by apply IH].
  destruct draws as [|d draws]; [done|].
  apply IH; [done|]. simpl.
  apply Forall2_update_first_if; [|done].
  intros p0 q [Hsans Hsame] Hid. unfold has_id in Hid.
  apply String.eqb_eq in Hid.
  assert (Player.id p0 = Player.id p) as Hid0.
  { rewrite <- Hid. change (Player.id p0) with (Player.id (sansMoral p0)).
    by rewrite <- Hsans. }
  split.
  - rewrite <- Hsans. by destruct q.
  - intros Hout. exfalso. apply Hout. rewrite Hid0. by apply Hp.
Qed.

Lemma failsafeMoral_players (todo : list Player) (game : Game) :
  Game.players (fold_left failsafeMoral todo game)
  = fold_left
      (fun ps p =>
         if needsMoral p
         then update_first (has_id (Player.id p))
                (Player.with_submittedMoral (value defaultMoral)) ps
         else ps) todo (Game.players game).
Proof.
  revert game. induction todo as [|p todo IH]; intros game; simpl; [done|].
  rewrite IH. unfold failsafeMoral. by destruct (needsMoral p).
Qed.

Lemma needs_id_elem (players : list Player) (p : Player) :
  NoDup (List.map Player.id players) ->
  p ∈ players ->
  Player.id p ∈ List.map Player.id (List.filter needsMoral players) ->
  needsMoral p = true.
Proof.
  intros Hnd Hp Hin.
  apply list_elem_of_In, in_map_iff in Hin as (p' & Hid & Hp').
  apply filter_In in Hp' as [Hp' Hn].
  assert (p' = p) as <-; [|done].
  apply list_elem_of_In in Hp'.
  apply list_elem_of_lookup in Hp as [i Hi], Hp' as [j Hj].
  assert (i = j) as ->; [|congruence].
  eapply NoDup_lookup; [exact Hnd| |];
    rewrite list_lookup_fmap; [by rewrite Hi|rewrite Hj; simpl; by rewrite Hid].
Qed.

(** X12. Every simulated participant ends up with a moral.  Whatever the
    service calls come to, and however many of them are made, after
    [generateAIMorals] each simulated participant of a game with distinct
    ids holds a non-empty moral, the one it had if it had one; nothing
    else of it has changed, and human participants are as they were. *)
Theorem generateAIMorals_completes (draws : list MoralDraw) (gid : string)
    (games : gmap string Game) (game : Game) :
  games !! gid = Some game ->
  NoDup (List.map Player.id (Game.players game)) ->
  exists game',
    generateAIMorals draws gid games !! gid = Some game'
    /\ Forall2
         (fun p q =>
            sansMoral q = sansMoral p
            /\ if Player.isAI p
               then truthy_string (Player.submittedMoral q) = true
                    /\ (truthy_string (Player.submittedMoral p) = true ->
                        q = p)
               else q = p)
         (Game.players game) (Game.players game').
Proof.
  intros Hg Hnd. unfold generateAIMorals. rewrite Hg.
  eexists. rewrite lookup_insert_eq. split; [done|].
  set (ids := List.map Player.id (List.filter needsMoral (Game.players game))).
  pose proof (generateAIMorals_loop_touches ids (Game.players game) draws game
                (Game.players game)) as Hloop.
  simpl in Hloop.
  set (game1 := generateAIMorals_loop (Game.players game) draws game) in *.
  match goal with
  | |- context [fold_left failsafeMoral (Game.players ?g) ?g] =>
      set (game2 := g)
  end.
  assert (Hp2 : Game.players game2 = Game.players game1)
    by (unfold game2; by destruct (_ && _)).
  assert (Forall2 (fun p q => sansMoral q = sansMoral p
                              /\ (Player.id p ∉ ids -> q = p))
            (Game.players game) (Game.players game1)) as H1.
  { apply Hloop.
    - apply Forall_forall. intros p Hp Hn. unfold ids.
      apply list_elem_of_In, in_map, filter_In. split; [|done].
      by apply list_elem_of_In.
    - apply Forall_Forall2_diag, Forall_forall. done. }
  clear Hloop.
  assert (List.map Player.id (Game.players game1)
          = List.map Player.id (Game.players game)) as Hids.
  { clear -H1. induction H1 as [|p q l l' [Hs _] _ IH]; simpl; [done|].
    rewrite IH. f_equal. change (Player.id q) with (Player.id (sansMoral q)).
    by rewrite Hs. }
  rewrite failsafeMoral_players, Hp2.
  pose proof (giveMoral_fold defaultMoral [] (Game.players game1)) as Hfold.
  simpl in Hfold. rewrite Hfold by (by rewrite Hids). clear Hfold.
  apply Forall2_fmap_r.
  apply Forall2_same_length_lookup. split; [by eapply Forall2_length|].
  intros i p q Hp Hq.
  destruct (Forall2_lookup_lr _ _ _ _ _ _ H1 Hp Hq) as [Hsans Hsame].
  assert (needsMoral p = false -> q = p) as Hkeep.
  { intros Hn. apply Hsame. intros Hin.
    rewrite (needs_id_elem (Game.players game) p) in Hn; try done.
    by eapply list_elem_of_lookup_2. }
  assert (Player.isAI q = Player.isAI p) as Hai.
  { change (Player.isAI q) with (Player.isAI (sansMoral q)).
    by rewrite Hsans. }
  split.
  { rewrite <- Hsans. unfold giveMoral. destruct (needsMoral q); [|done].
    by destruct q. }
  unfold giveMoral.
  destruct (Player.isAI p) eqn:Hp_ai.
  - split.
    + destruct (needsMoral q) eqn:Hn; [done|].
      unfold needsMoral in Hn. rewrite Hai in Hn. simpl in Hn.
      by apply negb_false_iff in Hn.
    + intros Ht.
      assert (needsMoral p = false) as Hn
        by (unfold needsMoral; by rewrite Ht, andb_false_r).
      rewrite (Hkeep Hn). by rewrite Hn.
  - assert (needsMoral p = false) as Hn
      by (unfold needsMoral; by rewrite Hp_ai).
    rewrite (Hkeep Hn). by rewrite Hn.
Qed.

(** ** A new round *)

Lemma sansDeal_forEachi off order i players :
  List.map sansDeal (forEachi (assignRole off) i order players)
  = List.map sansDeal players.
Proof.
  revert i players. induction order as [|idx order IH]; intros i players;
    simpl; [done|].
  rewrite IH. unfold assignRole. by apply map_alter_same.
Qed.

Lemma sansDeal_dealPlayers cardData next players draws :
  List.map sansDeal (dealPlayers cardData next players draws)
  = List.map sansDeal players.
Proof.
  revert next draws. induction players as [|p players IH];
    intros next [|d draws]; simpl; try done.
  destruct (dealPlayer cardData next p d) as [next' p'] eqn:E. simpl.
  rewrite IH. f_equal. unfold dealPlayer in E.
  destruct (_ && _); injection E as _ <-; done.
Qed.

(** What [startNewRound] does to a session that is not completed and has
    rounds left. *)
Lemma startNewRound_started (cardData : CardData) (draws : RoundDraws)
    (gid : string) (games : gmap string Game) (game : Game) :
  games !! gid = Some game ->
  Game.status game <> gameStatus.COMPLETED ->
  Round.number (Game.round game) < Settings.roundsToPlay (Game.settings game) ->
  exists game',
    startNewRound cardData draws gid games !! gid = Some game'
    /\ Game.gameId game' = Game.gameId game
    /\ Game.status game' = Game.status game
    /\ Game.settings game' = Game.settings game
    /\ Game.round game'
       = Round.mk
           (if bool_decide (Round.status (Game.round game)
                            = roundStatus.WAITING)
            then Round.number (Game.round game)
            else Round.number (Game.round game) + 1)
           roundStatus.SELECTION "" []
    /\ List.map sansDeal (Game.players game')
       = List.map (fun p => sansDeal (resetPlayer p)) (Game.players game).
Proof.
  intros Hg Hs Hn. unfold startNewRound. rewrite Hg.
  rewrite bool_decide_eq_false_2 by done.
  rewrite Z.geb_leb, (proj2 (Z.leb_gt _ _)) by done.
  eexists. rewrite lookup_insert_eq. split; [done|].
  unfold dealCards, assignCardTypes. simpl.
  repeat split.
  - by destruct (bool_decide _).
  - by rewrite sansDeal_dealPlayers, sansDeal_forEachi, map_map.
Qed.

(** Two lists that agree under two maps agree element by element. *)
Lemma Forall2_of_map_eq {A B C} (f : B -> C) (g : A -> C)
    (l : list A) (l' : list B) :
  List.map f l' = List.map g l -> Forall2 (fun x y => f y = g x) l l'.
Proof.
  revert l'. induction l as [|x l IH]; intros [|y l'] H; try done.
  injection H as Hxy H. constructor; [done|]. by apply IH.
Qed.

(** A participant that agrees with a reset one up to role and hand has
    the reset fields and the other fields as they were. *)
Lemma sansDeal_reset (p q : Player) :
  sansDeal q = sansDeal (resetPlayer p) ->
  q = Player.mk (Player.id p) (Player.name p) (Player.isHost p)
        (Player.isAI p) false (Player.score p) (Player.currentCardType q)
        (Player.hand q) null null false.
Proof.
  destruct p, q. unfold sansDeal, resetPlayer. simpl.
  intros [= -> -> -> -> -> -> -> -> ->]. done.
Qed.

(** X13. A new round keeps the participants and their scores, and starts
    them afresh.  When a session that is not completed and has rounds
    left starts a round, its id, status and settings stay, the round is
    in SELECTION under the next number (the same number right after the
    lobby), with an empty narrative and no submissions, and the
    participants are the same in the same order: each keeps its id, name,
    host flag, simulated flag and score, has a null selection and a null
    moral, and its vote and thinking flags are false; role and hand are
    those of the new deal. *)
Theorem startNewRound_resets (cardData : CardData) (draws : RoundDraws)
    (gid : string) (games : gmap string Game) (game : Game) :
  games !! gid = Some game ->
  Game.status game <> gameStatus.COMPLETED ->
  Round.number (Game.round game) < Settings.roundsToPlay (Game.settings game) ->
  exists game',
    startNewRound cardData draws gid games !! gid = Some game'
    /\ Game.gameId game' = Game.gameId game
    /\ Game.status game' = Game.status game
    /\ Game.settings game' = Game.settings game
    /\ Game.round game'
       = Round.mk
           (if bool_decide (Round.status (Game.round game)
                            = roundStatus.WAITING)
            then Round.number (Game.round game)
            else Round.number (Game.round game) + 1)
           roundStatus.SELECTION "" []
    /\ Forall2
         (fun p q =>
            q = Player.mk (Player.id p) (Player.name p) (Player.isHost p)
                  (Player.isAI p) false (Player.score p)
                  (Player.currentCardType q) (Player.hand q) null null
                  false)
         (Game.players game) (Game.players game').
Proof.
  intros Hg Hs Hn.
  destruct (startNewRound_started cardData draws gid games game Hg Hs Hn)
    as (game' & Hg' & Hid & Hst & Hset & Hr & Hp).
  exists game'. repeat (split; [done|]).
  apply Forall2_of_map_eq in Hp.
  eapply Forall2_impl; [exact Hp|]. intros p q. apply sansDeal_reset.
Qed.

Lemma length_addAIPlayers fresh game :
  (length (Game.players game) <= 5)%nat ->
  5 <= Settings.maxPlayers (Game.settings game) ->
  Game.players (addAIPlayers fresh game)
  = Game.players game
    ++ List.map (fun i => aiPlayer (fresh i))
         (seq 0 (5 - length (Game.players game))).
Proof.
  intros Hlen Hmax. unfold addAIPlayers. simpl. do 3 f_equal. lia.
Qed.

(** X14. A started session has five participants.  When a lobby of one to
    five participants, in a session that allows five and plays more than
    one round, is started, the session becomes ACTIVE in round 1, phase
    SELECTION, with no narrative and no submissions.  Its five
    participants are the ones of the lobby, in order, each with its id,
    name, host flag, simulated flag and score, followed by as many new
    participants as it takes to make five: the i-th of them is simulated,
    is not the host, has the i-th fresh id and name and no point.  Every
    one of the five has a null selection, a null moral and false vote and
    thinking flags. *)
Theorem startGame_fills_to_five (cardData : CardData)
    (fresh : nat -> string * string) (draws : RoundDraws) (gid : string)
    (games : gmap string Game) (game : Game) :
  games !! gid = Some game ->
  Game.status game = gameStatus.LOBBY ->
  Round.status (Game.round game) = roundStatus.WAITING ->
  (1 <= length (Game.players game) <= 5)%nat ->
  5 <= Settings.maxPlayers (Game.settings game) ->
  1 < Settings.roundsToPlay (Game.settings game) ->
  exists game',
    snd (startGame cardData fresh draws gid games) = true
    /\ fst (startGame cardData fresh draws gid games) !! gid = Some game'
    /\ Game.status game' = gameStatus.ACTIVE
    /\ Game.round game' = Round.mk 1 roundStatus.SELECTION "" []
    /\ length (Game.players game') = 5%nat
    /\ Forall2
         (fun p q =>
            q = Player.mk (Player.id p) (Player.name p) (Player.isHost p)
                  (Player.isAI p) false (Player.score p)
                  (Player.currentCardType q) (Player.hand q) null null
                  false)
         (Game.players game)
         (take (length (Game.players game)) (Game.players game'))
    /\ (forall i,
          (i < 5 - length (Game.players game))%nat ->
          exists q,
            Game.players game' !! (length (Game.players game) + i)%nat
            = Some q
            /\ q = Player.mk (fst (fresh i)) (snd (fresh i)) false true false
                     0%nat (Player.currentCardType q) (Player.hand q) null
                     null false).
Proof.
  intros Hg Hs Hw Hlen Hmax Hrounds. unfold startGame. rewrite Hg.
  rewrite bool_decide_eq_true_2 by done. simpl.
  rewrite (proj2 (Nat.ltb_ge _ _)) by lia.
  set (game0 := Game.with_round _ _).
  destruct (startNewRound_started cardData draws gid (<[gid:=game0]> games)
              game0) as (game' & Hg' & _ & Hs' & _ & Hr & Hp).
  { apply lookup_insert_eq. }
  { done. }
  { done. }
  exists game'. split; [done|]. split; [exact Hg'|].
  split; [by rewrite Hs'|].
  split.
  { rewrite Hr. unfold game0. simpl. rewrite Hw.
    by rewrite bool_decide_eq_true_2. }
  assert (Game.players game0
          = Game.players game
            ++ List.map (fun i => aiPlayer (fresh i))
                 (seq 0 (5 - length (Game.players game)))) as Hplayers.
  { unfold game0. simpl. apply length_addAIPlayers; [lia|done]. }
  rewrite Hplayers in Hp.
  assert (length (Game.players game') = 5%nat) as Hfive.
  { rewrite <- (length_map sansDeal), Hp, length_map, length_app, length_map,
      length_seq. lia. }
  split; [exact Hfive|].
  apply Forall2_of_map_eq in Hp.
  apply Forall2_app_inv_l in Hp as (kept & added & Hkept & Hadded & Heq).
  pose proof (Forall2_length _ _ _ Hkept) as Hlk.
  rewrite Heq. split.
  - rewrite Hlk, take_app_length.
    eapply Forall2_impl; [exact Hkept|]. intros p q. apply sansDeal_reset.
  - intros i Hi.
    assert (List.map (fun i => aiPlayer (fresh i))
              (seq 0 (5 - length (Game.players game))) !! i
            = Some (aiPlayer (fresh i))) as Hith.
    { rewrite list_lookup_fmap, lookup_seq_lt by done. done. }
    destruct (Forall2_lookup_l _ _ _ _ _ Hadded Hith) as (q & Hq & Hrel).
    exists q. split.
    + rewrite Hlk, lookup_app_r by lia.
      replace (length kept + i - length kept)%nat with i by lia. done.
    + apply sansDeal_reset in Hrel. exact Hrel.
Qed.

(** ** Custom text *)

Lemma cardKept_refl c : cardKept c c.
Proof. by split. Qed.

Lemma handKept_refl pid p : handKept pid p p.
Proof.
  unfold handKept. repeat split. destruct (Player.hand p); [|done].
  apply Forall_Forall2_diag, Forall_forall. intros. apply cardKept_refl.
Qed.

Lemma Forall2_alter_self {A} (R : A -> A -> Prop) (upd : A -> A) (i : nat)
    (l : list A) :
  (forall x, R x x) ->
  (forall x, l !! i = Some x -> R x (upd x)) ->
  Forall2 R l (alter upd i l).
Proof.
  intros Hrefl. revert i. induction l as [|x l IH]; intros i Hupd;
    [constructor|].
  destruct i as [|i].
  - change (alter upd 0%nat (x :: l)) with (upd x :: l).
    constructor; [by apply Hupd|].
    apply Forall_Forall2_diag, Forall_forall. auto.
  - change (alter upd (S i) (x :: l)) with (x :: alter upd i l).
    constructor; [done|]. apply IH. intros y Hy. by apply Hupd.
Qed.

Lemma Forall2_update_first_found {A} (R : A -> A -> Prop) (f : A -> bool)
    (upd : A -> A) (l : list A) (x0 : A) :
  (forall x, R x x) ->
  List.find f l = Some x0 -> R x0 (upd x0) ->
  Forall2 R l (update_first f upd l).
Proof.
  intros Hrefl. induction l as [|x l IH]; simpl; [done|].
  destruct (f x).
  - intros [= ->] Hupd. constructor; [done|].
    apply Forall_Forall2_diag, Forall_forall. auto.
  - intros Hfind Hupd. constructor; auto.
Qed.

Lemma cardKept_alter (text : string) (i : nat) (hand : list Card) :
  (forall c, hand !! i = Some c -> Card.isCustom c = true) ->
  Forall2 cardKept hand (alter (Card.with_text text) i hand).
Proof.
  intros Hcustom. apply Forall2_alter_self; [apply cardKept_refl|].
  intros c Hc. split; [done|]. rewrite (Hcustom c Hc). done.
Qed.

Lemma find_has_id (pid : string) (players : list Player) (p : Player) :
  List.find (has_id pid) players = Some p -> Player.id p = pid.
Proof.
  intros H. apply find_some in H as [_ H]. by apply String.eqb_eq in H.
Qed.

(** X15. Custom text lands on custom cards only.  Whatever a participant
    sends with [updateCustomCard] or [selectCard], the session keeps its
    participants in order, the hands of the others are untouched, and in
    the sender's hand every card keeps its id, type and flags, and every
    card that is not custom keeps its text too. *)
Theorem custom_text_only_on_custom_cards (gid pid : string) (cardId : Z)
    (text : string) (customText : option string)
    (games : gmap string Game) (game : Game) :
  games !! gid = Some game ->
  (forall game',
     fst (updateCustomCard gid pid cardId text games) !! gid = Some game' ->
     Forall2 (handKept pid) (Game.players game) (Game.players game'))
  /\ (forall game',
        fst (selectCard gid pid cardId customText games) !! gid = Some game' ->
        Forall2 (handKept pid) (Game.players game) (Game.players game')).
Proof.
  intros Hg.
  assert (Forall2 (handKept pid) (Game.players game) (Game.players game))
    as Hsame.
  { apply Forall_Forall2_diag, Forall_forall. intros. apply handKept_refl. }
  split; intros game'.
  - unfold updateCustomCard. rewrite Hg.
    destruct (negb _); [simpl; rewrite Hg; by intros [= <-]|].
    destruct (List.find _ _) as [player|] eqn:Hp;
      [|simpl; rewrite Hg; by intros [= <-]].
    destruct (Player.hand player) as [hand|] eqn:Hh;
      [|simpl; rewrite Hg; by intros [= <-]].
    destruct (findIndex _ hand) as [i|] eqn:Hi;
      [|simpl; rewrite Hg; by intros [= <-]].
    simpl. rewrite lookup_insert_eq. intros [= <-]. simpl.
    apply (Forall2_update_first_found _ _ _ _ player);
      [apply handKept_refl|done|].
    unfold handKept. simpl. rewrite Hh.
    split; [done|]. split; [by rewrite (find_has_id _ _ _ Hp)|].
    apply cardKept_alter. intros c Hc.
    apply findIndex_lookup in Hi as (c' & Hc' & Hb).
    apply andb_true_iff in Hb as [_ Hb]. congruence.
  - unfold selectCard. rewrite Hg.
    destruct (negb _); [simpl; rewrite Hg; by intros [= <-]|].
    destruct (List.find _ _) as [player|] eqn:Hp;
      [|simpl; rewrite Hg; by intros [= <-]].
    destruct (Player.hand player) as [hand|] eqn:Hh;
      [|simpl; rewrite Hg; by intros [= <-]].
    destruct (findIndex _ hand) as [i|] eqn:Hi;
      [|simpl; rewrite Hg; by intros [= <-]].
    simpl. rewrite lookup_insert_eq. intros [= <-].
    rewrite advanceIfAllSelected_players. simpl.
    apply (Forall2_update_first_found _ _ _ _ player);
      [apply handKept_refl|done|].
    unfold handKept. simpl. rewrite Hh.
    split; [done|]. split; [by rewrite (find_has_id _ _ _ Hp)|].
    destruct customText as [t|];
      [|apply Forall_Forall2_diag, Forall_forall; intros;
        apply cardKept_refl].
    destruct (hand !! i) as [c|] eqn:Hc;
      [|apply Forall_Forall2_diag, Forall_forall; intros;
        apply cardKept_refl].
    destruct (Card.isCustom c && truthy_text (Some t)) eqn:Hb;
      [|apply Forall_Forall2_diag, Forall_forall; intros;
        apply cardKept_refl].
    apply cardKept_alter. intros c' Hc'.
    apply andb_true_iff in Hb as [Hb _]. congruence.
Qed.

(** ** Submitting a moral *)

(** X16. The vote opens when the last moral arrives.  A successful
    [submitMoral] happens in STORYTELLING and stores the moral both on the
    participant and on its submission, leaving the others in their
    places.  The phase it leaves is VOTING exactly when every submission
    then holds a moral and every participant has submitted one; otherwise
    it is still STORYTELLING. *)
Theorem submitMoral_opens_vote (gid pid moral : string)
    (games games' : gmap string Game) :
  submitMoral gid pid moral games = (games', true) ->
  exists game game' p s,
    games !! gid = Some game
    /\ games' !! gid = Some game'
    /\ Round.status (Game.round game) = roundStatus.STORYTELLING
    /\ List.find (has_id pid) (Game.players game) = Some p
    /\ List.find (of_player pid) (Round.submissions (Game.round game)) = Some s
    /\ Game.players game'
       = update_first (has_id pid) (Player.with_submittedMoral (value moral))
           (Game.players game)
    /\ Round.submissions (Game.round game')
       = update_first (of_player pid) (Submission.with_moral (Some moral))
           (Round.submissions (Game.round game))
    /\ List.find (has_id pid) (Game.players game')
       = Some (Player.with_submittedMoral (value moral) p)
    /\ List.find (of_player pid) (Round.submissions (Game.round game'))
       = Some (Submission.with_moral (Some moral) s)
    /\ (Round.status (Game.round game') = roundStatus.VOTING
        <-> Forall (fun s => Submission.moral s <> None)
              (Round.submissions (Game.round game'))
            /\ Forall (fun p => has_moral p = true) (Game.players game'))
    /\ (Round.status (Game.round game') <> roundStatus.VOTING ->
        Round.status (Game.round game') = roundStatus.STORYTELLING).
Proof.
  unfold submitMoral. intros H.
  destruct (games !! gid) as [game|] eqn:Hg; [|done].
  destruct (bool_decide _) eqn:Hs; simpl in H; [|done].
  apply bool_decide_eq_true in Hs.
  destruct (List.find (has_id pid) _) as [p|] eqn:Hp; [|done].
  destruct (List.find (of_player pid) _) as [s|] eqn:Hsub; [|done].
  injection H as <-.
  eexists game, _, p, s. rewrite lookup_insert_eq.
  split; [done|]. split; [done|]. split; [done|]. split; [done|].
  split; [done|].
  match goal with
  | |- context [if ?b then _ else _] => destruct b eqn:Hall
  end; simpl.
  - split; [done|]. split; [done|].
    split; [by rewrite find_update_first, Hp|].
    split; [by rewrite find_update_first, Hsub|].
    split; [|done]. split; [intros _|done].
    apply andb_true_iff in Hall as [Hsubs Hplayers].
    unfold allSubmissionsHaveMorals in Hsubs. simpl in *.
    split; apply Forall_forall; intros x Hx%list_elem_of_In.
    + eapply forallb_forall in Hsubs; [|exact Hx].
      by apply bool_decide_eq_true in Hsubs.
    + eapply forallb_forall in Hplayers; [|exact Hx]. done.
  - split; [done|]. split; [done|].
    split; [by rewrite find_update_first, Hp|].
    split; [by rewrite find_update_first, Hsub|].
    rewrite Hs. split; [|done]. split; [done|].
    intros [Hsubs Hplayers]. exfalso.
    apply andb_false_iff in Hall as [Hall|Hall];
      apply not_true_iff_false in Hall; apply Hall.
    + unfold allSubmissionsHaveMorals. simpl. apply forallb_forall.
      intros x Hx%list_elem_of_In.
      apply bool_decide_eq_true. by eapply Forall_forall in Hsubs.
    + simpl. apply forallb_forall. intros x Hx%list_elem_of_In.
      by eapply Forall_forall in Hplayers.
Qed.

(** ** The vote flags in a view *)

Lemma sanitizePlayer_id status pid p :
  Player.id (sanitizePlayer status pid p) = Player.id p.
Proof. unfold sanitizePlayer. by repeat case_match. Qed.

Lemma sanitizePlayer_own status pid p :
  String.eqb (Player.id p) pid = true -> sanitizePlayer status pid p = p.
Proof. unfold sanitizePlayer. by intros ->. Qed.

Lemma find_sanitized status pid players :
  List.find (has_id pid) (List.map (sanitizePlayer status pid) players)
  = List.find (has_id pid) players.
Proof.
  induction players as [|p players IH]; simpl; [done|].
  unfold has_id at 1 3. rewrite sanitizePlayer_id.
  destruct (String.eqb (Player.id p) pid) eqn:Hid; [|done].
  by rewrite sanitizePlayer_own.
Qed.

(** X17. In the view a voter is sent during the vote, its two vote flags
    agree: both are set as soon as one of them is set in the game, on the
    participant or on its submission. *)
Theorem sanitize_vote_flags_agree (game : Game) (pid : string)
    (p : Player) (s : Submission) :
  Round.status (Game.round game) = roundStatus.VOTING ->
  List.find (has_id pid) (Game.players game) = Some p ->
  List.find (of_player pid) (Round.submissions (Game.round game)) = Some s ->
  let view := sanitizeGameStateForPlayer game pid in
  exists p' s',
    List.find (has_id pid) (Game.players view) = Some p'
    /\ List.find (of_player pid) (Round.submissions (Game.round view))
       = Some s'
    /\ Player.hasVoted p' = Player.hasVoted p || Submission.hasVoted s
    /\ Submission.hasVoted s' = Player.hasVoted p || Submission.hasVoted s
    /\ Player.with_hasVoted false p' = Player.with_hasVoted false p
    /\ Submission.with_hasVoted false s' = Submission.with_hasVoted false s.
Proof.
  intros Hs Hp Hsub view. unfold view, sanitizeGameStateForPlayer.
  cbn [Game.players Game.with_players Game.round Round.submissions].
  rewrite find_sanitized, Hp, Hsub, Hs.
  rewrite bool_decide_eq_true_2 by done. simpl negb.
  destruct (Player.hasVoted p) eqn:Hvp, (Submission.hasVoted s) eqn:Hvs;
    simpl;
    rewrite ?find_update_first, ?find_sanitized, ?Hp, ?Hsub by done;
    simpl; eexists _, _; repeat split; try done;
    try (by destruct p; simpl in *; subst);
    try (by destruct s; simpl in *; subst).
Qed.

(** ** Creating a session *)

Lemma find_first {A} (f : A -> bool) (l : list A) (x : A) :
  List.find f l = Some x ->
  exists pre post,
    l = pre ++ x :: post /\ Forall (fun y => f y = false) pre /\ f x = true.
Proof.
  induction l as [|y l IH]; simpl; [done|].
  destruct (f y) eqn:Hy.
  - intros [= ->]. exists [], l. auto.
  - intros H. destruct (IH H) as (pre & post & -> & Hpre & Hx).
    exists (y :: pre), post. auto.
Qed.

(** X18. A new session never takes the place of another.  The id
    [createGame] gives it is the first candidate that is not in use; the
    session is stored under it as a lobby holding the creator alone, as
    host with score 0, in round 0, phase WAITING, for at most 5
    participants and 3 rounds; every other session is as it was. *)
Theorem createGame_fresh (candidates : list string) (host : Player)
    (games games' : gmap string Game) (gid : string) :
  createGame candidates host games = Some (games', gid) ->
  games !! gid = None
  /\ (exists pre post,
        candidates = pre ++ gid :: post
        /\ Forall (fun c => is_Some (games !! c)) pre)
  /\ games' !! gid
     = Some (Game.mk gid gameStatus.LOBBY
               [Player.with_isHost true (Player.with_score 0%nat host)]
               (Round.mk 0 roundStatus.WAITING "" []) (Settings.mk 5 3))
  /\ (forall gid', gid' <> gid -> games' !! gid' = games !! gid').
Proof.
  unfold createGame, generateGameId.
  destruct (List.find _ candidates) as [gid0|] eqn:Hfind; [|done].
  intros [= <- <-].
  destruct (find_first _ _ _ Hfind) as (pre & post & -> & Hpre & Hfree).
  apply bool_decide_eq_true in Hfree.
  split; [done|]. split.
  - exists pre, post. split; [done|].
    eapply Forall_impl; [exact Hpre|]. intros c Hc.
    apply bool_decide_eq_false in Hc.
    by destruct (games !! c).
  - split; [by rewrite lookup_insert_eq|].
    intros gid' Hne. by rewrite lookup_insert_ne.
Qed.

(** ** The narrative of a round *)

(** X19. The narrative takes, for each role, the card its holder selected.
    When no two participants hold the same role, the narrative
    [assembleStory] stores is made of one fragment per role whose holder
    has selected a card of its hand, in the order location, character,
    first twist, escalation, final twist; each fragment is the connective
    of the role ("In a ", ", a ", " NOTICES ", ". But then, ",
    " ALL BECAUSE ") followed by the text of that card, or by the stock
    phrase of the role when the card has no text; the fragments are joined
    by single spaces.  The submissions are one fresh entry per
    participant, in order. *)
Theorem assembleStory_from_roles (game : Game) :
  NoDup (omap Player.currentCardType (Game.players game)) ->
  let chosen := holderCard (Game.players game) in
  let fragment (lead stock : string) (t : cardType) : list string :=
    match chosen t with
    | Some card =>
        [String.append lead
           (if String.eqb (Card.text card) "" then stock else Card.text card)]
    | None => []
    end in
  Round.story (Game.round (assembleStory game))
  = String.concat " "
      (fragment "In a " "a mysterious place" LOCATION
       ++ fragment ", a " "strange character" CHARACTER
       ++ fragment " NOTICES " "something unusual" INITIAL_TWIST
       ++ fragment ". But then, " "the situation escalates" ESCALATION
       ++ fragment " ALL BECAUSE " "a final twist occurs" FINAL_TWIST)
  /\ Forall2
       (fun p s =>
          Submission.playerId s = Player.id p
          /\ Submission.cardId s
             = match Player.selectedCard p with
               | value cardId => cardId
               | _ => 0
               end
          /\ Submission.moral s = None
          /\ Submission.votes s = 0%nat
          /\ Submission.hasVoted s = false)
       (Game.players game)
       (Round.submissions (Game.round (assembleStory game))).
Proof.
  intros Hnd chosen fragment. split; [|apply assembleStory_fresh].
  rewrite assembleStory_narrative by done.
  unfold narrativeOf, fragment, chosen. simpl.
  by destruct (holderCard (Game.players game) LOCATION),
    (holderCard (Game.players game) CHARACTER),
    (holderCard (Game.players game) INITIAL_TWIST),
    (holderCard (Game.players game) ESCALATION),
    (holderCard (Game.players game) FINAL_TWIST).
Qed.

(** ** The picks of the simulated players *)

Lemma aiSelect_id r p : Player.id (aiSelect r p) = Player.id p.
Proof. unfold aiSelect. by repeat case_match. Qed.

Lemma update_first_unique (x : string) (upd : Player -> Player)
    (players : list Player) :
  NoDup (List.map Player.id players) ->
  update_first (has_id x) upd players
  = List.map (fun p => if has_id x p then upd p else p) players.
Proof.
  induction players as [|p players IH]; simpl; [done|].
  intros [Hp Hnd]%NoDup_cons.
  destruct (has_id x p) eqn:Hx; [|by rewrite IH].
  f_equal. apply String.eqb_eq in Hx. subst x.
  rewrite <- (map_id players) at 1. apply map_ext_in. intros q Hq.
  destruct (has_id (Player.id p) q) eqn:Hq'; [|done].
  apply String.eqb_eq in Hq'. exfalso. apply Hp. rewrite <- Hq'.
  apply list_elem_of_In, in_map. done.
Qed.

Lemma fold_picks_pointwise (gid : string) (picks : list (string * Q))
    (players : list Player) :
  NoDup (List.map Player.id players) ->
  fold_left
    (fun ps pick => update_first (has_id (fst pick)) (aiSelect (snd pick)) ps)
    picks players
  = List.map (fun p => fold_left pickOf picks p) players.
Proof.
  revert players. induction picks as [|[x r] picks IH]; intros players Hnd;
    simpl.
  - by rewrite map_id.
  - rewrite update_first_unique by done.
    rewrite IH.
    + by rewrite map_map.
    + rewrite map_map. erewrite map_ext; [exact Hnd|].
      intros p. simpl. destruct (has_id x p); [|done]. apply aiSelect_id.
Qed.

Lemma fold_pickOf_absent picks q :
  Player.id q ∉ List.map fst picks -> fold_left pickOf picks q = q.
Proof.
  revert q. induction picks as [|[x r] picks IH]; intros q Hq; simpl; [done|].
  simpl in Hq. apply not_elem_of_cons in Hq as [Hx Hq].
  unfold pickOf at 2. simpl. unfold has_id.
  rewrite (proj2 (String.eqb_neq _ _)) by done. by apply IH.
Qed.

Lemma fold_pickOf_present picks q k r :
  NoDup (List.map fst picks) ->
  picks !! k = Some (Player.id q, r) ->
  fold_left pickOf picks q = aiSelect r q.
Proof.
  revert q k. induction picks as [|[x r'] picks IH]; intros q k Hnd Hk;
    [done|].
  simpl in Hnd. apply NoDup_cons in Hnd as [Hx Hnd].
  destruct k as [|k]; simpl in Hk.
  - injection Hk as -> ->. simpl. unfold pickOf at 2. simpl.
    unfold has_id. rewrite String.eqb_refl.
    apply fold_pickOf_absent. by rewrite aiSelect_id.
  - simpl. unfold pickOf at 2. simpl. unfold has_id.
    rewrite (proj2 (String.eqb_neq _ _)).
    + by eapply IH.
    + intros Heq. apply Hx. rewrite <- Heq.
      apply list_elem_of_In, (in_map fst _ (Player.id q, r)),
        list_elem_of_In.
      by eapply list_elem_of_lookup_2.
Qed.

Lemma NoDup_map_filter {A B} `{EqDecision B} (f : A -> B) (g : A -> bool)
    (l : list A) :
  NoDup (List.map f l) -> NoDup (List.map f (List.filter g l)).
Proof.
  induction l as [|x l IH]; simpl; [done|].
  intros [Hx Hnd]%NoDup_cons. destruct (g x); simpl; [|by apply IH].
  apply NoDup_cons. split; [|by apply IH].
  intros Hin. apply Hx.
  apply list_elem_of_In, in_map_iff in Hin as (y & Hy & Hin).
  apply filter_In in Hin as [Hin _].
  rewrite <- Hy. by apply list_elem_of_In, in_map.
Qed.

Lemma pending_id_elem (players : list Player) (p : Player) :
  NoDup (List.map Player.id players) ->
  p ∈ players ->
  Player.id p ∈ List.map Player.id (List.filter pendingAI players) ->
  pendingAI p = true.
Proof.
  intros Hnd Hp Hin.
  apply list_elem_of_In, in_map_iff in Hin as (p' & Hid & Hp').
  apply filter_In in Hp' as [Hp' Hn].
  assert (p' = p) as <-; [|done].
  apply list_elem_of_In in Hp'.
  apply list_elem_of_lookup in Hp as [i Hi], Hp' as [j Hj].
  assert (i = j) as ->; [|congruence].
  eapply NoDup_lookup; [exact Hnd| |];
    rewrite list_lookup_fmap; [by rewrite Hi|rewrite Hj; simpl; by rewrite Hid].
Qed.

(** X20. Every simulated participant picks a card of its own hand.  When
    [makeAISelections] runs in SELECTION on a game with distinct ids,
    each simulated participant that has cards and a null selection ends
    up with the id of one of the cards of its hand as its selection, and
    is no longer thinking; nobody else has changed.  If some simulated
    participant was to pick, the phase then is STORYTELLING exactly when
    no selection is null any more; otherwise it is still SELECTION. *)
Theorem makeAISelections_picks_from_hand (draws : list Q) (gid : string)
    (games : gmap string Game) (game : Game) :
  games !! gid = Some game ->
  Round.status (Game.round game) = roundStatus.SELECTION ->
  NoDup (List.map Player.id (Game.players game)) ->
  (length (List.filter pendingAI (Game.players game)) <= length draws)%nat ->
  Forall (fun r => (0 <= r)%Q /\ (r < 1)%Q) draws ->
  exists game',
    makeAISelections draws gid games !! gid = Some game'
    /\ Forall2
         (fun p q =>
            if pendingAI p
            then exists hand c,
                   Player.hand p = Some hand /\ c ∈ hand
                   /\ q = Player.with_isThinking false
                            (Player.with_selectedCard (value (Card.id c)) p)
            else q = p)
         (Game.players game) (Game.players game')
    /\ (List.filter pendingAI (Game.players game) <> [] ->
        (Round.status (Game.round game') = roundStatus.STORYTELLING
         <-> Forall (fun q => not_null (Player.selectedCard q) = true)
               (Game.players game')))
    /\ (Round.status (Game.round game') = roundStatus.STORYTELLING
        \/ Round.status (Game.round game') = roundStatus.SELECTION).
Proof.
  intros Hg Hs Hnd Hlen Hdraws.
  unfold makeAISelections, makeAISelections_begin. rewrite Hg, Hs.
  rewrite bool_decide_eq_true_2 by done. simpl negb. cbv iota.
  set (mark := fun p => if pendingAI p then Player.with_isThinking true p
                        else p).
  set (pending := List.filter pendingAI (Game.players game)) in *.
  rewrite length_map.
  destruct (length pending =? 0)%nat eqn:Hnone.
  { apply Nat.eqb_eq, length_zero_iff_nil in Hnone.
    eexists. rewrite lookup_insert_eq. split; [done|]. simpl.
    assert (Forall (fun p => pendingAI p = false) (Game.players game)) as Hno.
    { apply Forall_forall. intros p Hp%list_elem_of_In.
      destruct (pendingAI p) eqn:Hpend; [|done]. exfalso.
      assert (In p pending) as Hin by (apply filter_In; done).
      rewrite Hnone in Hin. done. }
    split; [|split; [intros Hne; by destruct (Hne Hnone)|by right]].
    apply Forall2_fmap_r, Forall_Forall2_diag.
    eapply Forall_impl; [exact Hno|]. intros p Hp. simpl in *.
    unfold mark. by rewrite Hp. }
  assert (pending <> []) as Hsome.
  { intros Hnil. rewrite Hnil in Hnone. done. }
  set (picks := zip (List.map Player.id pending) draws).
  set (game1 := Game.with_players (List.map mark (Game.players game)) game).
  assert (fold_left
            (fun games pick =>
               makeAISelections_pick (snd pick) gid (fst pick) games)
            picks (<[gid:=game1]> games)
          = <[gid:=Game.with_players
                     (fold_left
                        (fun ps pick =>
                           update_first (has_id (fst pick))
                             (aiSelect (snd pick)) ps)
                        picks (Game.players game1)) game1]> games) as ->.
  { generalize game1. clear. induction picks as [|pick picks IH];
      intros game1; simpl.
    - by destruct game1.
    - unfold makeAISelections_pick at 2. rewrite lookup_insert_eq.
      rewrite insert_insert_eq. by rewrite IH. }
  assert (NoDup (List.map Player.id (Game.players game1))) as Hnd1.
  { unfold game1. simpl. rewrite map_map. erewrite map_ext; [exact Hnd|].
    intros p. unfold mark. by destruct (pendingAI p). }
  rewrite fold_picks_pointwise by done.
  unfold makeAISelections_end. rewrite lookup_insert_eq, insert_insert_eq.
  eexists. rewrite lookup_insert_eq. split; [done|].
  rewrite advanceIfAllSelected_players.
  cbn [Game.players Game.with_players game1]. rewrite map_map.
  assert (NoDup (List.map fst picks)) as Hndp.
  { unfold picks. rewrite fst_zip by (by rewrite length_map).
    by apply NoDup_map_filter. }
  split; [|split].
  - apply Forall2_fmap_r, Forall_Forall2_diag, Forall_forall.
    intros p Hp. unfold compose. cbv beta.
    destruct (pendingAI p) eqn:Hpend.
    + assert (Player.id p ∈ List.map Player.id pending) as Hin.
      { apply list_elem_of_In, in_map, filter_In.
        split; [by apply list_elem_of_In|done]. }
      apply list_elem_of_lookup in Hin as [k Hk].
      assert (k < length draws)%nat as Hkd.
      { apply lookup_lt_Some in Hk. rewrite length_map in Hk. lia. }
      apply lookup_lt_is_Some in Hkd as [r Hr].
      assert (picks !! k = Some (Player.id (mark p), r)) as Hpick.
      { unfold picks. rewrite lookup_zip_with, Hk. simpl. rewrite Hr. simpl.
        unfold mark. by rewrite Hpend. }
      rewrite (fold_pickOf_present picks (mark p) k r) by done.
      unfold mark. rewrite Hpend.
      unfold pendingAI in Hpend.
      apply andb_true_iff in Hpend as [_ Hhand].
      destruct (Player.hand p) as [hand|] eqn:Hh; [|done].
      apply Nat.ltb_lt in Hhand.
      eapply Forall_forall in Hdraws as [Hr0 Hr1];
        [|by eapply list_elem_of_lookup_2].
      pose proof (random_index_lt r (length hand) Hr0 Hr1 Hhand) as Hidx.
      apply lookup_lt_is_Some in Hidx as [c Hc].
      exists hand, c. split; [done|].
      split; [by eapply list_elem_of_lookup_2|].
      unfold aiSelect. simpl. rewrite Hh, Hc. by destruct p.
    + rewrite fold_pickOf_absent; unfold mark; rewrite Hpend; [done|].
      unfold picks. rewrite fst_zip by (by rewrite length_map).
      intros Hin. apply (pending_id_elem _ _ Hnd Hp) in Hin. congruence.
  - intros _. unfold advanceIfAllSelected, allSelected. simpl.
    match goal with
    | |- context [forallb ?f ?l] => destruct (forallb f l) eqn:Hall
    end; simpl.
    + split; [intros _|done]. apply Forall_forall.
      intros q Hq%list_elem_of_In. by eapply forallb_forall in Hall.
    + rewrite Hs. split; [done|]. intros Hforall. exfalso.
      apply not_true_iff_false in Hall. apply Hall, forallb_forall.
      intros q Hq%list_elem_of_In. by eapply Forall_forall in Hforall.
  - unfold advanceIfAllSelected. destruct (allSelected _); simpl; auto.
Qed.

(** ** After a selection *)

Lemma allSelected_advance game :
  allSelected (advanceIfAllSelected game) = allSelected game.
Proof. unfold advanceIfAllSelected. by destruct (allSelected game) eqn:E. Qed.

(** X21. The [selectCard] handler always answers, and an accepted selection
    always starts something.  When it answers with success the session
    is there, and either some selection is still null, the phase is
    SELECTION and the simulated selections are started, or no selection
    is null, the phase is STORYTELLING and the simulated morals are
    started; the plain broadcast that closes the handler is never
    reached. *)
Theorem onSelectCard_follow_up (playerData : option PlayerData)
    (gid : string) (cardId : Z) (customText : option string)
    (games games' : gmap string Game) (ack : option Ack)
    (next : option FollowUp) :
  onSelectCard playerData gid cardId customText games = (ack, games', next) ->
  exists a,
    ack = Some a
    /\ (success a = true ->
        exists game',
          games' !! gid = Some game'
          /\ (next = Some AISelections
              /\ allSelected game' = false
              /\ Round.status (Game.round game') = roundStatus.SELECTION
              \/ next = Some AIMorals
                 /\ allSelected game' = true
                 /\ Round.status (Game.round game')
                    = roundStatus.STORYTELLING)).
Proof.
  unfold onSelectCard, getGameState. intros H.
  destruct playerData as [pd|]; [|injection H as <- <- <-; by eexists].
  destruct (negb (String.eqb _ _)); [injection H as <- <- <-; by eexists|].
  destruct (selectCard _ _ _ _ _) as [games1 ok] eqn:E.
  destruct ok; simpl in H; [|injection H as <- <- <-; by eexists].
  apply selectCard_success in E
    as (game & player & hand & Hg & Hs & Hp & ->).
  rewrite lookup_insert_eq in H.
  set (game1 := Game.with_players _ game) in *.
  rewrite allSelected_advance in H.
  assert (Round.status (Game.round game1) = roundStatus.SELECTION) as Hs1
    by done.
  unfold advanceIfAllSelected in *.
  destruct (allSelected game1) eqn:Hall; simpl in H.
  - injection H as <- <- <-. eexists. split; [done|]. intros _.
    eexists. rewrite lookup_insert_eq. split; [done|]. right.
    split; [done|]. split; [exact Hall|done].
  - injection H as <- <- <-. eexists. split; [done|]. intros _.
    eexists. rewrite lookup_insert_eq. split; [done|]. left.
    split; [done|]. split; [exact Hall|done].
Qed.

(** ** Joining *)

(** X22. An accepted join adds the newcomer last and binds the socket to
    it.  When the [joinGame] handler answers with success, the session
    was there, in the lobby and not full, and neither the id nor the
    name sent was empty; the session now holds the participants it had,
    unchanged and in order, followed by the newcomer, a human
    participant that is not the host, with score 0 and the id drawn for
    it; the socket is bound to that id and to the session; every other
    session is as it was. *)
Theorem onJoinGame_adds_last (uuid : string) (playerData : option PlayerData)
    (gid name : string) (games games' : gmap string Game) (ack : Ack)
    (pd' : option PlayerData) :
  onJoinGame uuid playerData gid name games = (ack, pd', games') ->
  success ack = true ->
  exists game,
    games !! gid = Some game
    /\ gid <> "" /\ name <> ""
    /\ Game.status game = gameStatus.LOBBY
    /\ Z.of_nat (length (Game.players game))
       < Settings.maxPlayers (Game.settings game)
    /\ pd' = Some {| playerId := uuid; gameId := gid |}
    /\ games'
       = <[gid:=Game.with_players
                  (Game.players game
                   ++ [Player.mk uuid name false false false 0%nat None None
                         undefined undefined false]) game]> games.
Proof.
  unfold onJoinGame, getGameState, joinGame. intros H Hack.
  destruct (String.eqb_spec gid "") as [|Hgid]; simpl in H;
    [by injection H as <- <- <-|].
  destruct (String.eqb_spec name "") as [|Hname]; simpl in H;
    [by injection H as <- <- <-|].
  destruct (games !! gid) as [game|] eqn:Hg; [|by injection H as <- <- <-].
  destruct (bool_decide (Game.status game = gameStatus.LOBBY)) eqn:Hs;
    simpl in H; [|by injection H as <- <- <-].
  apply bool_decide_eq_true in Hs.
  destruct (_ >=? _) eqn:Hfull; simpl in H; [by injection H as <- <- <-|].
  injection H as <- <- <-.
  rewrite Z.geb_leb in Hfull. apply Z.leb_gt in Hfull.
  exists game. repeat split; done.
Qed.

(** ** When the simulated votes start *)

Lemma find_has_id_NoDup (players : list Player) (i : nat) (p : Player) :
  NoDup (List.map Player.id players) ->
  players !! i = Some p ->
  List.find (has_id (Player.id p)) players = Some p.
Proof.
  revert i. induction players as [|q players IH]; intros i Hnd Hi; [done|].
  simpl in Hnd. apply NoDup_cons in Hnd as [Hq Hnd].
  destruct i as [|i]; simpl in Hi.
  - injection Hi as ->. simpl. unfold has_id. by rewrite String.eqb_refl.
  - simpl. unfold has_id at 1.
    destruct (String.eqb_spec (Player.id q) (Player.id p)) as [Heq|Hne];
      [|by eapply IH].
    exfalso. apply Hq. rewrite Heq.
    apply list_elem_of_In, in_map, list_elem_of_In.
    by eapply list_elem_of_lookup_2.
Qed.

(** The submissions counted by [humanPlayersWhoVoted] against the human
    participants, when each submission is looked up to its participant. *)
Lemma humans_voted_count (all ps : list Player) (ss : list Submission) :
  Forall2
    (fun p s => List.find (has_id (Submission.playerId s)) all = Some p) ps ss ->
  let voted s :=
    match List.find (has_id (Submission.playerId s)) all with
    | Some player => negb (Player.isAI player) && Submission.hasVoted s
    | None => false
    end in
  (length (List.filter voted ss)
   <= length (List.filter (fun p => negb (Player.isAI p)) ps))%nat
  /\ ((length (List.filter (fun p => negb (Player.isAI p)) ps)
       <= length (List.filter voted ss))%nat
      <-> Forall2
            (fun p s => Player.isAI p = false -> Submission.hasVoted s = true)
            ps ss).
Proof.
  intros Hal voted.
  induction Hal as [|p s ps ss Hps _ [IHle IHiff]]; simpl.
  - split; [lia|]. split; [constructor|lia].
  - replace (voted s) with (negb (Player.isAI p) && Submission.hasVoted s)
      by (unfold voted; by rewrite Hps).
    destruct (Player.isAI p) eqn:Hai; simpl.
    + split; [done|]. split.
      * intros H. constructor; [congruence|by apply IHiff].
      * intros [_ H]%Forall2_cons. by apply IHiff.
    + destruct (Submission.hasVoted s) eqn:Hv; simpl.
      * split; [lia|]. split.
        -- intros H. constructor; [done|]. apply IHiff. lia.
        -- intros [_ H]%Forall2_cons. apply IHiff in H. lia.
      * split; [lia|]. split; [lia|].
        intros [H _]%Forall2_cons. specialize (H Hai). congruence.
Qed.

Lemma aligned_lookup (players : list Player) (subs : list Submission) :
  NoDup (List.map Player.id players) ->
  List.map Submission.playerId subs = List.map Player.id players ->
  Forall2
    (fun p s => List.find (has_id (Submission.playerId s)) players = Some p)
    players subs.
Proof.
  intros Hnd Hal. apply Forall2_same_length_lookup. split.
  - rewrite <- (length_map Player.id players), <- Hal. by rewrite length_map.
  - intros i p s Hp Hs.
    assert (Submission.playerId s = Player.id p) as ->.
    { assert (List.map Submission.playerId subs !! i
              = List.map Player.id players !! i) as Hi by (by rewrite Hal).
      rewrite !list_lookup_fmap, Hp, Hs in Hi. by injection Hi. }
    by eapply find_has_id_NoDup.
Qed.

(** X23. The simulated votes and the end of the round are scheduled when,
    and only when, every human has voted.  In a game with distinct ids
    and one submission per participant, in order, an accepted [castVote]
    schedules one thinking timer per simulated participant, in order,
    followed by the end of the round, if the submission of every human
    participant then carries the has-voted flag; otherwise it schedules
    nothing. *)
Theorem castVote_schedules_when_humans_voted (gid voterId votedForId : string)
    (games games' : gmap string Game) (tasks : list Task) (game : Game) :
  games !! gid = Some game ->
  NoDup (List.map Player.id (Game.players game)) ->
  List.map Submission.playerId (Round.submissions (Game.round game))
  = List.map Player.id (Game.players game) ->
  castVote gid voterId votedForId games = (games', true, tasks) ->
  exists game',
    games' !! gid = Some game'
    /\ (humansHaveVoted game' ->
        tasks
        = List.map (fun p => AIThinks (Game.gameId game') (Player.id p))
            (List.filter Player.isAI (Game.players game'))
          ++ [EndRound gid])
    /\ (~ humansHaveVoted game' -> tasks = []).
Proof.
  intros Hg Hnd Hal H. unfold castVote in H. rewrite Hg in H.
  destruct (negb _); [done|].
  destruct (List.find (has_id voterId) _) as [voter|]; [|done].
  destruct (List.find (has_id votedForId) _) as [votedFor|]; [|done].
  destruct (String.eqb _ _); [done|].
  destruct (List.find (of_player votedForId) _) as [sub|]; [|done].
  match type of H with
  | (<[gid:=?g]> games, _, _) = _ => set (game' := g) in *
  end.
  assert (List.map Player.id (Game.players game')
          = List.map Player.id (Game.players game)) as Hids.
  { unfold game', markVoted. destruct (List.find _ _); simpl; [|done].
    by apply map_update_first. }
  assert (List.map Submission.playerId (Round.submissions (Game.round game'))
          = List.map Submission.playerId
              (Round.submissions (Game.round game))) as Hsids.
  { unfold game', markVoted. destruct (List.find _ _); simpl;
      rewrite !map_update_first; done. }
  pose proof (aligned_lookup (Game.players game')
                (Round.submissions (Game.round game'))) as Hlook.
  rewrite Hids, Hsids in Hlook. specialize (Hlook Hnd Hal).
  destruct (humans_voted_count _ _ _ Hlook) as [_ Hiff].
  fold (humanPlayersWhoVoted game') in Hiff. fold (humansHaveVoted game') in Hiff.
  exists game'. injection H as <- <-. rewrite lookup_insert_eq.
  split; [done|].
  destruct (_ <=? _)%nat eqn:Hle.
  - split; [done|]. intros Hnot. exfalso. apply Hnot, Hiff.
    by apply Nat.leb_le.
  - split; [|done]. intros Hall. apply Hiff in Hall.
    apply Nat.leb_gt in Hle.
    destruct (Nat.lt_irrefl _ (Nat.lt_le_trans _ _ _ Hle Hall)).
Qed.

(** ** The ids of the blank cards *)

Lemma Forall_sort_random {A} (P : A -> Prop) (order : list nat) (a : list A) :
  Forall P a -> Forall P (sort_random order a).
Proof.
  intros Ha. unfold sort_random. apply Forall_forall. intros x Hx.
  apply list_elem_of_omap in Hx as (i & _ & Hi).
  eapply Forall_forall; [exact Ha|]. by eapply list_elem_of_lookup_2.
Qed.

Section blank_ids.
Variable cardData : CardData.
(** Modelled from the spec: no card of the decks that [loadCardData]
    reads is a custom card. *)
Hypothesis deck_not_custom :
  Forall (fun c => Card.isCustom c = false) (deckCards cardData).

Lemma drawn_not_custom (order : list nat) (t : option cardType) (n : nat) :
  Forall (fun c => Card.isCustom c = false)
    (getRandomCards order (deckFor cardData t) n).
Proof.
  unfold getRandomCards. apply Forall_take, Forall_sort_random.
  eapply Forall_forall. intros c Hc.
  eapply Forall_forall in deck_not_custom; [exact deck_not_custom|].
  unfold deckCards. destruct t as [[]|]; simpl in Hc;
    rewrite ?elem_of_app; auto 10. by apply elem_of_nil in Hc.
Qed.

(** A participant is dealt no custom card, or one, numbered with the
    next free id. *)
Lemma dealPlayer_custom (next : Z) (player : Player) (d : DealDraw) :
  let '(next', player') := dealPlayer cardData next player d in
  customCards [player'] = [] /\ next' = next
  \/ List.map Card.id (customCards [player']) = [next] /\ next' = next + 1.
Proof.
  unfold dealPlayer, customCards.
  pose proof (drawn_not_custom (deckOrder d)
                (Player.currentCardType player) 3) as Hdrawn.
  set (hand := getRandomCards _ _ _) in *.
  destruct (_ && _); simpl; rewrite app_nil_r.
  - right. split; [|done]. unfold array_set.
    destruct (decide _) as [Hlt|Hge].
    + by rewrite filter_custom_insert.
    + rewrite List.filter_app, filter_custom_none by done. done.
  - left. split; [|done]. by apply filter_custom_none.
Qed.

Lemma customCards_cons (p : Player) (players : list Player) :
  customCards (p :: players) = customCards [p] ++ customCards players.
Proof. unfold customCards. simpl. by rewrite app_nil_r. Qed.

Lemma dealPlayers_custom_ids (next : Z) (players : list Player)
    (draws : list DealDraw) :
  (length players <= length draws)%nat ->
  let customs := customCards (dealPlayers cardData next players draws) in
  List.map Card.id customs
  = List.map (fun k => next + Z.of_nat k) (seq 0 (length customs)).
Proof.
  revert next draws. induction players as [|p players IH];
    intros next draws Hlen; [done|].
  destruct draws as [|d draws]; [simpl in Hlen; lia|].
  simpl in Hlen. cbn [dealPlayers].
  pose proof (dealPlayer_custom next p d) as Hp.
  destruct (dealPlayer cardData next p d) as [next' p'].
  cbv zeta. rewrite customCards_cons, map_app, length_app.
  specialize (IH next' draws ltac:(lia)). cbv zeta in IH.
  destruct Hp as [[Hnone ->] | [Hone ->]].
  - rewrite Hnone. simpl. exact IH.
  - assert (length (customCards [p']) = 1%nat) as Hl
      by (by rewrite <- (length_map Card.id), Hone).
    rewrite Hone, Hl, IH. simpl. rewrite Z.add_0_r. f_equal.
    rewrite <- seq_shift, map_map. apply map_ext. intros k. lia.
Qed.

(** X24. The blank cards of a deal are numbered consecutively.  When every
    participant is dealt to, the custom cards the participants hold after
    [dealCards], taken in participant order, carry the ids 10000, 10001
    and so on; so no two of them share an id. *)
Theorem dealCards_custom_ids (draws : list DealDraw) (game : Game) :
  (length (Game.players game) <= length draws)%nat ->
  let customs := customCards (Game.players (dealCards cardData draws game)) in
  List.map Card.id customs
  = List.map (fun k => CUSTOM_CARD_ID_START + Z.of_nat k)
      (seq 0 (length customs))
  /\ NoDup (List.map Card.id customs).
Proof.
  intros Hlen customs.
  assert (List.map Card.id customs
          = List.map (fun k => CUSTOM_CARD_ID_START + Z.of_nat k)
              (seq 0 (length customs))) as Hids
    by exact (dealPlayers_custom_ids CUSTOM_CARD_ID_START (Game.players game)
                draws Hlen).
  split; [exact Hids|]. rewrite Hids.
  apply NoDup_fmap_2; [|apply NoDup_seq]. intros j k Hjk. lia.
Qed.

End blank_ids.

(** ** A leave in the middle of a round *)

Lemma forallb_map_eq {A B} (f : A -> bool) (g : B -> bool) (h : A -> B)
    (l : list A) :
  (forall x, f x = g (h x)) -> forallb f l = forallb g (List.map h l).
Proof.
  intros Hf. induction l as [|x l IH]; simpl; [done|]. by rewrite Hf, IH.
Qed.

Lemma allSelected_remaining (i : nat) (players : list Player) :
  forallb (fun p => not_null (Player.selectedCard p)) (remaining i players)
  = forallb (fun p => not_null (Player.selectedCard p)) (delete i players).
Proof.
  rewrite (forallb_map_eq _ (fun p => not_null (Player.selectedCard p))
             sansHost (remaining i players)) by done.
  rewrite (forallb_map_eq _ (fun p => not_null (Player.selectedCard p))
             sansHost (delete i players)) by done.
  by rewrite sansHost_remaining, map_delete.
Qed.

(** X25. What a leave does to the round.  When a participant leaves an
    active session in which a human remains, the session stays active,
    the leaver is taken out of the participants and its submission out of
    the submissions.  In SELECTION the phase becomes STORYTELLING, with
    the narrative told from the roles of the remaining participants and
    one fresh submission for each of them, exactly when every remaining
    participant has a non-null selection.  In STORYTELLING the phase
    becomes VOTING exactly when every remaining submission holds a moral.
    In every other phase, VOTING among them, the phase stays as it is:
    the leave neither casts a vote nor ends the round. *)
Theorem removePlayer_moves_round_on (gid pid : string)
    (games : gmap string Game) (game : Game) (i : nat) :
  games !! gid = Some game ->
  findIndex (has_id pid) (Game.players game) = Some i ->
  Game.status game = gameStatus.ACTIVE ->
  List.filter (fun p => negb (Player.isAI p)) (remaining i (Game.players game))
  <> [] ->
  let others := delete i (Game.players game) in
  let submissions :=
    remainingSubmissions pid (Round.submissions (Game.round game)) in
  exists game',
    fst (removePlayer gid pid games) !! gid = Some game'
    /\ Game.status game' = gameStatus.ACTIVE
    /\ Game.players game' = remaining i (Game.players game)
    /\ match Round.status (Game.round game) with
       | roundStatus.SELECTION =>
           if forallb (fun p => not_null (Player.selectedCard p)) others
           then Round.status (Game.round game') = roundStatus.STORYTELLING
                /\ Round.submissions (Game.round game')
                   = List.map
                       (fun p =>
                          Submission.mk (Player.id p)
                            (match Player.selectedCard p with
                             | value cardId => cardId
                             | _ => 0
                             end) None 0%nat false)
                       (Game.players game')
                /\ (NoDup (omap Player.currentCardType (Game.players game'))
                    -> Round.story (Game.round game')
                       = narrativeOf (Game.players game'))
           else Round.status (Game.round game') = roundStatus.SELECTION
                /\ Round.submissions (Game.round game') = submissions
       | roundStatus.STORYTELLING =>
           Round.submissions (Game.round game') = submissions
           /\ Round.status (Game.round game')
              = if forallb (fun s => bool_decide (Submission.moral s <> None))
                     submissions
                then roundStatus.VOTING else roundStatus.STORYTELLING
       | status =>
           Round.status (Game.round game') = status
           /\ Round.submissions (Game.round game') = submissions
       end.
Proof.
  intros Hg Hi Hactive Hhuman others submissions.
  assert (remaining i (Game.players game) <> []) as Hne.
  { intros Hnil. rewrite Hnil in Hhuman. done. }
  destruct (removePlayer_found gid pid games game i Hg Hi) as (_ & _ & Hfound).
  destruct (Hfound Hne) as (game' & Hg' & Hp' & _).
  exists game'. split; [exact Hg'|]. revert Hg'.
  unfold removePlayer. rewrite Hg, Hi.
  fold (remaining i (Game.players game)).
  destruct (length (remaining i (Game.players game)) =? 0)%nat eqn:Hlen.
  { apply Nat.eqb_eq, length_zero_iff_nil in Hlen. done. }
  set (game1 := Game.with_players (remaining i (Game.players game)) game).
  change (Game.status game1) with (Game.status game).
  rewrite (bool_decide_eq_true_2 (Game.status game = gameStatus.ACTIVE))
    by exact Hactive.
  change (Round.submissions (Game.round game1))
    with (Round.submissions (Game.round game)).
  set (game2 :=
         match findIndex (of_player pid) (Round.submissions (Game.round game))
         with
         | Some submissionIndex =>
             Game.with_submissions
               (delete submissionIndex (Round.submissions (Game.round game)))
               game1
         | None => game1
         end).
  assert (Game.players game2 = remaining i (Game.players game)) as Hp2
    by (unfold game2; by destruct (findIndex (of_player pid) _)).
  assert (Round.submissions (Game.round game2) = submissions) as Hs2
    by (unfold game2, submissions, remainingSubmissions;
        by destruct (findIndex (of_player pid) _)).
  assert (Round.status (Game.round game2) = Round.status (Game.round game))
    as Hst2 by (unfold game2; by destruct (findIndex (of_player pid) _)).
  assert (Game.status game2 = gameStatus.ACTIVE) as Hact2
    by (unfold game2; by destruct (findIndex (of_player pid) _)).
  rewrite Hp2.
  destruct (length (List.filter _ _) <? 1)%nat eqn:Hnone.
  { apply Nat.ltb_lt in Hnone.
    destruct (List.filter _ (remaining i (Game.players game))); [done|].
    simpl in Hnone. lia. }
  simpl. rewrite lookup_insert_eq, Hst2. intros [= <-].
  destruct (Round.status (Game.round game)) eqn:Hst; simpl;
    rewrite ?Hp2, ?Hs2, ?Hst2, ?Hst; try done.
  - unfold advanceIfAllSelected, allSelected. rewrite Hp2.
    rewrite allSelected_remaining. fold others.
    destruct (forallb _ others); simpl; rewrite ?Hp2, ?Hs2, ?Hst2, ?Hst;
      [|done].
    repeat (split; [done|]). intros Hnd.
    exact (assembleStory_narrative
             (Game.with_players (remaining i (Game.players game)) game) Hnd).
  - unfold allSubmissionsHaveMorals. rewrite Hs2.
    destruct (forallb _ submissions); simpl;
      rewrite ?Hp2, ?Hs2, ?Hst2, ?Hst; done.
Qed.

(** ** Requests that are refused *)

(** X26. A socket acts on its own session only.  A request that names a
    session the socket is not bound to (or that comes from a socket bound
    to none) is answered with an error by the [startGame],
    [updateCustomCard], [selectCard], [submitMoral], [castVote],
    [nextRound] and [leaveGame] handlers alike, and changes nothing. *)
Theorem unbound_socket_is_refused (cardData : CardData)
    (fresh : nat -> string * string) (draws : RoundDraws)
    (moralDraws : list MoralDraw) (playerData : option PlayerData)
    (gid other moral text : string) (cardId : Z)
    (customText : option string) (games : gmap string Game) :
  authorized playerData gid = false ->
  onStartGame cardData fresh draws playerData gid games
  = (ack_error "Not authorized to start this game", games)
  /\ onUpdateCustomCard playerData gid cardId text games
     = (ack_error "Not authorized to update this card", games)
  /\ onSelectCard playerData gid cardId customText games
     = (Some (ack_error "Not authorized to select a card"), games, None)
  /\ onSubmitMoral moralDraws playerData gid moral games
     = (ack_error "Not authorized to submit a moral", games)
  /\ onCastVote playerData gid other games
     = (ack_error "Not authorized to cast a vote", games, [])
  /\ onNextRound cardData draws playerData gid games
     = (ack_error "Not authorized for this game", games)
  /\ onLeaveGame playerData gid games
     = (ack_error "Not in this game", playerData, games).
Proof.
  intros Hno.
  unfold onStartGame, onUpdateCustomCard, onSelectCard, onSubmitMoral,
    onCastVote, onNextRound, onLeaveGame.
  rewrite Hno. unfold authorized in Hno.
  destruct playerData as [pd|]; [|done]. by rewrite Hno.
Qed.

(** X27. Blank input and a vote for oneself are refused.  Whatever the
    socket is bound to, a join without a session id or without a name, a
    custom text or a moral that is empty, and a vote of a participant for
    itself are answered with an error, and change nothing. *)
Theorem blank_requests_are_refused (uuid : string) (moralDraws : list MoralDraw)
    (playerData : option PlayerData) (pd : PlayerData)
    (gid name : string) (cardId : Z) (games : gmap string Game) :
  onJoinGame uuid playerData "" name games
  = (ack_error "Game ID and player name are required", playerData, games)
  /\ onJoinGame uuid playerData gid "" games
     = (ack_error "Game ID and player name are required", playerData, games)
  /\ (success (fst (onUpdateCustomCard playerData gid cardId "" games)) = false
      /\ snd (onUpdateCustomCard playerData gid cardId "" games) = games)
  /\ (success (fst (onSubmitMoral moralDraws playerData gid "" games)) = false
      /\ snd (onSubmitMoral moralDraws playerData gid "" games) = games)
  /\ (success (fst (fst (onCastVote (Some pd) gid (playerId pd) games)))
      = false
      /\ snd (fst (onCastVote (Some pd) gid (playerId pd) games)) = games
      /\ snd (onCastVote (Some pd) gid (playerId pd) games) = []).
Proof.
  repeat match goal with |- _ /\ _ => split end.
  - done.
  - unfold onJoinGame. by rewrite orb_true_r.
  - unfold onUpdateCustomCard. destruct playerData; [|done].
    by destruct (negb _).
  - unfold onUpdateCustomCard. destruct playerData; [|done].
    by destruct (negb _).
  - unfold onSubmitMoral. destruct playerData; [|done]. by destruct (negb _).
  - unfold onSubmitMoral. destruct playerData; [|done]. by destruct (negb _).
  - unfold onCastVote. destruct (negb _); [done|]. by rewrite String.eqb_refl.
  - unfold onCastVote. destruct (negb _); [done|]. by rewrite String.eqb_refl.
  - unfold onCastVote. destruct (negb _); [done|]. by rewrite String.eqb_refl.
Qed.

(** ** Scores never go down *)

Lemma find_idScore (pid : string) (l l' : list Player) (p q : Player) :
  List.map idScore l' = List.map idScore l ->
  List.find (has_id pid) l = Some p ->
  List.find (has_id pid) l' = Some q ->
  Player.score q = Player.score p.
Proof.
  revert l'. induction l as [|x l IH]; intros [|y l'] Hmap Hp Hq;
    try done.
  simpl in Hmap. injection Hmap as Hid Hscore Hmap. simpl in Hp, Hq.
  unfold has_id in Hp at 1. unfold has_id in Hq at 1. rewrite Hid in Hq.
  destruct (String.eqb (Player.id x) pid).
  - injection Hp as <-. injection Hq as <-. done.
  - by eapply IH.
Qed.

Lemma scoresGrow_same game game' :
  List.map idScore (Game.players game') = List.map idScore (Game.players game) ->
  scoresGrow game game'.
Proof.
  intros Hmap pid p q Hp Hq. by rewrite (find_idScore _ _ _ _ _ Hmap Hp Hq).
Qed.

Lemma scoresGrow_refl game : scoresGrow game game.
Proof. by apply scoresGrow_same. Qed.

Lemma scoresGrowIn_refl games : scoresGrowIn games games.
Proof.
  intros gid game game' Hg Hg' _. replace game' with game by congruence.
  apply scoresGrow_refl.
Qed.

Lemma scoresGrowIn_insert games gid game game' :
  games !! gid = Some game ->
  (NoDup (List.map Player.id (Game.players game)) -> scoresGrow game game') ->
  scoresGrowIn games (<[gid:=game']> games).
Proof.
  intros Hg Hgrow gid' g g'. destruct (decide (gid' = gid)) as [->|Hne].
  - rewrite lookup_insert_eq, Hg. intros [= <-] [= <-]. exact Hgrow.
  - rewrite lookup_insert_ne by done. intros H1 H2 _.
    replace g' with g by congruence. apply scoresGrow_refl.
Qed.

Lemma scoresGrowIn_delete games gid : scoresGrowIn games (delete gid games).
Proof.
  intros gid' g g' Hg. rewrite lookup_delete_Some. intros [_ Hg'] _.
  replace g' with g by congruence. apply scoresGrow_refl.
Qed.

(** The same participants with the same scores, whatever else changed. *)
Ltac same_scores :=
  apply scoresGrow_same; simpl;
  rewrite ?advanceIfAllSelected_players; simpl;
  rewrite ?map_update_first by done; try done.

Lemma idScore_sansDeal (players players' : list Player) :
  List.map sansDeal players' = List.map sansDeal players ->
  List.map idScore players' = List.map idScore players.
Proof.
  intros H.
  assert (forall l, List.map idScore l = List.map idScore (List.map sansDeal l))
    as Hm by (intros l; by rewrite map_map).
  by rewrite (Hm players'), (Hm players), H.
Qed.

Lemma idScore_markVoted voterId game :
  List.map idScore (Game.players (markVoted voterId game))
  = List.map idScore (Game.players game).
Proof.
  unfold markVoted. destruct (List.find _ _); simpl; [|done].
  by apply map_update_first.
Qed.

Lemma idScore_generateAIMorals_loop todo draws game :
  List.map idScore (Game.players (generateAIMorals_loop todo draws game))
  = List.map idScore (Game.players game).
Proof.
  revert draws game. induction todo as [|p todo IH]; intros draws game; simpl;
    [done|].
  destruct (needsMoral p); [|apply IH].
  destruct draws as [|d draws]; [done|].
  rewrite IH. simpl. by apply map_update_first.
Qed.

Lemma idScore_failsafe players game :
  List.map idScore (Game.players (fold_left failsafeMoral players game))
  = List.map idScore (Game.players game).
Proof.
  revert game. induction players as [|p players IH]; intros game; simpl;
    [done|].
  rewrite IH. unfold failsafeMoral. destruct (needsMoral p); simpl; [|done].
  by apply map_update_first.
Qed.

Lemma find_app_l (pid : string) (l l' : list Player) (p : Player) :
  List.find (has_id pid) l = Some p ->
  List.find (has_id pid) (l ++ l') = Some p.
Proof.
  induction l as [|x l IH]; simpl; [done|]. by destruct (has_id pid x).
Qed.

Lemma scoresGrowIn_joinGame gid player games :
  scoresGrowIn games (fst (joinGame gid player games)).
Proof.
  unfold joinGame. destruct (games !! gid) as [game|] eqn:Hg;
    [|apply scoresGrowIn_refl].
  destruct (negb _); [apply scoresGrowIn_refl|].
  destruct (_ >=? _); [apply scoresGrowIn_refl|].
  apply (scoresGrowIn_insert _ _ game); [done|].
  intros _ pid p q Hp Hq. simpl in Hq.
  rewrite (find_app_l _ _ _ _ Hp) in Hq. injection Hq as <-. done.
Qed.

Lemma idScore_startNewRound cardData draws gid games game game' :
  games !! gid = Some game ->
  startNewRound cardData draws gid games !! gid = Some game' ->
  List.map idScore (Game.players game') = List.map idScore (Game.players game).
Proof.
  intros Hg. unfold startNewRound. rewrite Hg.
  destruct (bool_decide _); [rewrite Hg; by intros [= <-]|].
  destruct (_ >=? _); rewrite lookup_insert_eq; intros [= <-]; [done|].
  unfold dealCards, assignCardTypes. simpl.
  rewrite (idScore_sansDeal _ _ (sansDeal_dealPlayers _ _ _ _)).
  rewrite (idScore_sansDeal _ _ (sansDeal_forEachi _ _ _ _)).
  by rewrite map_map.
Qed.

Lemma scoresGrowIn_startNewRound cardData draws gid games :
  scoresGrowIn games (startNewRound cardData draws gid games).
Proof.
  intros gid' g g' Hg Hg' _. destruct (decide (gid' = gid)) as [->|Hne].
  - apply scoresGrow_same. by eapply idScore_startNewRound.
  - assert (startNewRound cardData draws gid games !! gid' = games !! gid')
      as Hsame.
    { unfold startNewRound. repeat case_match;
        rewrite ?lookup_insert_ne by done; done. }
    rewrite Hsame in Hg'. replace g' with g by congruence.
    apply scoresGrow_refl.
Qed.

Lemma scoresGrowIn_startGame cardData fresh draws gid games :
  scoresGrowIn games (fst (startGame cardData fresh draws gid games)).
Proof.
  unfold startGame. destruct (games !! gid) as [game|] eqn:Hg;
    [|apply scoresGrowIn_refl].
  destruct (negb _); [apply scoresGrowIn_refl|].
  destruct (_ <? _)%nat; [apply scoresGrowIn_refl|]. simpl.
  set (game0 := Game.with_round _ _).
  intros gid' g g' Hg1 Hg' _. destruct (decide (gid' = gid)) as [->|Hne].
  - replace g with game by congruence.
    pose proof (idScore_startNewRound cardData draws gid
                  (<[gid:=game0]> games) game0 g'
                  (lookup_insert_eq _ _ _) Hg') as Hmap.
    intros pid p q Hp Hq.
    assert (List.find (has_id pid) (Game.players game0) = Some p) as Hp0.
    { unfold game0, addAIPlayers. simpl. by apply find_app_l. }
    by rewrite (find_idScore _ _ _ _ _ Hmap Hp0 Hq).
  - assert (startNewRound cardData draws gid (<[gid:=game0]> games) !! gid'
            = games !! gid') as Hsame.
    { unfold startNewRound. repeat case_match;
        rewrite ?lookup_insert_ne by done; done. }
    rewrite Hsame in Hg'. replace g' with g by congruence.
    apply scoresGrow_refl.
Qed.

Lemma scoresGrowIn_updateCustomCard gid pid cardId text games :
  scoresGrowIn games (fst (updateCustomCard gid pid cardId text games)).
Proof.
  unfold updateCustomCard. repeat case_match; try apply scoresGrowIn_refl.
  eapply scoresGrowIn_insert; [done|]. intros _. same_scores.
Qed.

Lemma scoresGrowIn_selectCard gid pid cardId text games :
  scoresGrowIn games (fst (selectCard gid pid cardId text games)).
Proof.
  unfold selectCard. destruct (games !! gid) as [game|] eqn:Hg;
    [|apply scoresGrowIn_refl].
  destruct (negb _); [apply scoresGrowIn_refl|].
  destruct (List.find _ _); [|apply scoresGrowIn_refl].
  destruct (Player.hand _); [|apply scoresGrowIn_refl].
  destruct (findIndex _ _); [|apply scoresGrowIn_refl].
  apply (scoresGrowIn_insert _ _ game); [done|]. intros _. same_scores.
Qed.

Lemma scoresGrowIn_makeAISelections_begin gid games :
  scoresGrowIn games (fst (makeAISelections_begin gid games)).
Proof.
  unfold makeAISelections_begin. destruct (games !! gid) as [game|] eqn:Hg;
    [|apply scoresGrowIn_refl].
  destruct (negb _); [apply scoresGrowIn_refl|].
  apply (scoresGrowIn_insert _ _ game); [done|]. intros _.
  apply scoresGrow_same. simpl. rewrite map_map. apply map_ext.
  intros p. by destruct (pendingAI p).
Qed.

Lemma scoresGrowIn_makeAISelections_pick r gid aiId games :
  scoresGrowIn games (makeAISelections_pick r gid aiId games).
Proof.
  unfold makeAISelections_pick. destruct (games !! gid) as [game|] eqn:Hg;
    [|apply scoresGrowIn_refl].
  apply (scoresGrowIn_insert _ _ game); [done|]. intros _.
  apply scoresGrow_same. simpl. apply map_update_first.
  intros p. unfold aiSelect. by repeat case_match.
Qed.

Lemma scoresGrowIn_makeAISelections_end gid games :
  scoresGrowIn games (makeAISelections_end gid games).
Proof.
  unfold makeAISelections_end. destruct (games !! gid) as [game|] eqn:Hg;
    [|apply scoresGrowIn_refl].
  apply (scoresGrowIn_insert _ _ game); [done|]. intros _. same_scores.
Qed.

Lemma scoresGrowIn_submitMoral gid pid moral games :
  scoresGrowIn games (fst (submitMoral gid pid moral games)).
Proof.
  unfold submitMoral. destruct (games !! gid) as [game|] eqn:Hg;
    [|apply scoresGrowIn_refl].
  destruct (negb _); [apply scoresGrowIn_refl|].
  destruct (List.find _ _); [|apply scoresGrowIn_refl].
  destruct (List.find _ _); [|apply scoresGrowIn_refl].
  apply (scoresGrowIn_insert _ _ game); [done|]. intros _.
  destruct (_ && _); same_scores.
Qed.

Lemma scoresGrowIn_generateAIMorals draws gid games :
  scoresGrowIn games (generateAIMorals draws gid games).
Proof.
  unfold generateAIMorals. destruct (games !! gid) as [game|] eqn:Hg;
    [|apply scoresGrowIn_refl].
  apply (scoresGrowIn_insert _ _ game); [done|]. intros _.
  apply scoresGrow_same. rewrite idScore_failsafe.
  destruct (_ && _); simpl; apply idScore_generateAIMorals_loop.
Qed.

Lemma scoresGrowIn_castVote gid voterId votedForId games :
  scoresGrowIn games (fst (fst (castVote gid voterId votedForId games))).
Proof.
  unfold castVote. destruct (games !! gid) as [game|] eqn:Hg;
    [|apply scoresGrowIn_refl].
  destruct (negb _); [apply scoresGrowIn_refl|].
  destruct (List.find _ _); [|apply scoresGrowIn_refl].
  destruct (List.find _ _); [|apply scoresGrowIn_refl].
  destruct (String.eqb _ _); [apply scoresGrowIn_refl|].
  destruct (List.find _ _); [|apply scoresGrowIn_refl].
  apply (scoresGrowIn_insert _ _ game); [done|]. intros _.
  apply scoresGrow_same. simpl. apply idScore_markVoted.
Qed.

Lemma scoresGrowIn_aiThinks gid aiId games :
  scoresGrowIn games (fst (aiThinks gid aiId games)).
Proof.
  unfold aiThinks. destruct (games !! gid) as [game|] eqn:Hg;
    [|apply scoresGrowIn_refl].
  apply (scoresGrowIn_insert _ _ game); [done|]. intros _. same_scores.
Qed.

Lemma scoresGrowIn_aiVotes r r' gid aiId games :
  scoresGrowIn games (aiVotes r r' gid aiId games).
Proof.
  unfold aiVotes. destruct (games !! gid) as [game|] eqn:Hg;
    [|apply scoresGrowIn_refl].
  repeat case_match; apply (scoresGrowIn_insert _ _ game); try done;
    intros _; apply scoresGrow_same; simpl;
    rewrite ?map_update_first by done; apply idScore_markVoted.
Qed.

Lemma find_addScore pid players s p :
  List.find (has_id pid) players = Some p ->
  exists q,
    List.find (has_id pid) (addScore players s) = Some q
    /\ (Player.score p <= Player.score q)%nat.
Proof.
  unfold addScore. intros Hp.
  destruct (find_update_first_other
              (has_id (Submission.playerId s)) (has_id pid)
              (fun p => Player.with_score
                          (Player.score p + Submission.votes s)%nat p)
              players) as [Hq|Hq]; [done| |]; rewrite Hq, Hp.
  - simpl. eexists. split; [done|]. destruct (has_id _ p); simpl; lia.
  - eauto.
Qed.

Lemma find_fold_addScore pid subs players p :
  List.find (has_id pid) players = Some p ->
  exists q,
    List.find (has_id pid) (fold_left addScore subs players) = Some q
    /\ (Player.score p <= Player.score q)%nat.
Proof.
  revert players p. induction subs as [|s subs IH]; intros players p Hp;
    simpl; [eauto|].
  destruct (find_addScore pid players s p Hp) as (q & Hq & Hle).
  destruct (IH _ _ Hq) as (q' & Hq' & Hle'). exists q'. split; [done|]. lia.
Qed.

Lemma scoresGrowIn_endRound gid games : scoresGrowIn games (endRound gid games).
Proof.
  unfold endRound. destruct (games !! gid) as [game|] eqn:Hg;
    [|apply scoresGrowIn_refl].
  destruct (bool_decide _); [apply scoresGrowIn_refl|].
  apply (scoresGrowIn_insert _ _ game); [done|]. intros _ pid p q Hp Hq.
  destruct (find_fold_addScore pid (Round.submissions (Game.round game))
              _ _ Hp) as (q' & Hq' & Hle).
  assert (q = q') as ->; [|done].
  destruct (_ >=? _); simpl in Hq; congruence.
Qed.

Lemma same_id_same_player (players : list Player) (p q : Player) :
  NoDup (List.map Player.id players) ->
  p ∈ players -> q ∈ players -> Player.id p = Player.id q -> p = q.
Proof.
  intros Hnd Hp Hq Hid.
  apply list_elem_of_lookup in Hp as [i Hi], Hq as [j Hj].
  assert (i = j) as ->; [|congruence].
  eapply NoDup_lookup; [exact Hnd| |];
    rewrite list_lookup_fmap; [by rewrite Hi|rewrite Hj; simpl; by rewrite Hid].
Qed.

Lemma scoresGrow_remaining (i : nat) (game game' : Game) :
  NoDup (List.map Player.id (Game.players game)) ->
  Game.players game' = remaining i (Game.players game) ->
  scoresGrow game game'.
Proof.
  intros Hnd Hplayers pid p q Hp Hq. rewrite Hplayers in Hq.
  apply find_some in Hp as [Hp Hpid], Hq as [Hq Hqid].
  apply String.eqb_eq in Hpid, Hqid.
  assert (sansHost q ∈ List.map sansHost (Game.players game)) as Hin.
  { assert (sansHost q ∈ List.map sansHost (remaining i (Game.players game)))
      as Hin by (by apply list_elem_of_In, in_map).
    rewrite sansHost_remaining in Hin.
    eapply elem_of_sublist; [exact Hin|apply sublist_delete]. }
  apply list_elem_of_In, in_map_iff in Hin as (p' & Hp' & Hin').
  assert (p' = p) as ->.
  { apply (same_id_same_player (Game.players game)); try done.
    - by apply list_elem_of_In.
    - by apply list_elem_of_In.
    - change (Player.id p') with (Player.id (sansHost p')).
      rewrite Hp'. simpl. congruence. }
  change (Player.score p) with (Player.score (sansHost p)).
  rewrite Hp'. done.
Qed.

Lemma scoresGrowIn_removePlayer gid pid games :
  scoresGrowIn games (fst (removePlayer gid pid games)).
Proof.
  intros gid' g g' Hg Hg' Hnd. destruct (decide (gid' = gid)) as [->|Hne].
  - pose proof (removePlayer_players gid pid games g g' Hg Hg') as Hp.
    destruct (findIndex _ _) as [i|].
    + destruct Hp as [Hp _]. by eapply scoresGrow_remaining.
    + apply scoresGrow_same. by rewrite Hp.
  - assert (fst (removePlayer gid pid games) !! gid' = games !! gid') as Hsame.
    { unfold removePlayer. repeat case_match; simpl;
        rewrite ?lookup_insert_ne, ?lookup_delete_ne by done; done. }
    rewrite Hsame in Hg'. replace g' with g by congruence.
    apply scoresGrow_refl.
Qed.

(** X28. Scores never go down.  Whatever call the server makes, in a
    session with distinct ids that is still there afterwards, every
    participant that is still there has at least the score it had. *)
Theorem scores_never_go_down (cardData : CardData)
    (games games' : gmap string Game) (gid pid : string) (game game' : Game)
    (p q : Player) :
  step cardData games games' ->
  games !! gid = Some game ->
  games' !! gid = Some game' ->
  NoDup (List.map Player.id (Game.players game)) ->
  List.find (has_id pid) (Game.players game) = Some p ->
  List.find (has_id pid) (Game.players game') = Some q ->
  (Player.score p <= Player.score q)%nat.
Proof.
  intros Hstep Hg Hg' Hnd Hp Hq.
  assert (scoresGrowIn games games') as Hgrow.
  { destruct Hstep;
      auto using scoresGrowIn_joinGame, scoresGrowIn_startGame,
        scoresGrowIn_startNewRound, scoresGrowIn_updateCustomCard,
        scoresGrowIn_selectCard, scoresGrowIn_makeAISelections_begin,
        scoresGrowIn_makeAISelections_pick, scoresGrowIn_makeAISelections_end,
        scoresGrowIn_submitMoral, scoresGrowIn_generateAIMorals,
        scoresGrowIn_castVote, scoresGrowIn_aiThinks, scoresGrowIn_aiVotes,
        scoresGrowIn_endRound, scoresGrowIn_removePlayer.
    match goal with
    | H : createGame _ _ _ = Some _ |- _ => rename H into Hc
    end.
    unfold createGame in Hc.
    destruct (generateGameId _ _) as [gid0|] eqn:Hid; [|done].
    injection Hc as <- <-. apply generateGameId_free in Hid.
    intros gid1 g1 g1' Hg1 Hg1' _.
    rewrite lookup_insert_ne in Hg1' by congruence.
    replace g1' with g1 by congruence. apply scoresGrow_refl. }
  exact (Hgrow gid game game' Hg Hg' Hnd pid p q Hp Hq).
Qed.

(** ** Roles in a smaller session *)

Lemma NoDup_omap {A B} (f : A -> option B) (l : list A) :
  NoDup (List.map f l) -> NoDup (omap f l).
Proof.
  induction l as [|x l IH]; simpl; [constructor|].
  intros [Hx Hnd]%NoDup_cons. destruct (f x) as [y|] eqn:Hy; [|by apply IH].
  apply NoDup_cons. split; [|by apply IH].
  intros (x' & Hx' & Hy')%list_elem_of_omap. apply Hx. rewrite <- Hy'.
  by apply list_elem_of_In, in_map, list_elem_of_In.
Qed.

(** X29. With five participants or fewer, no two get the same role.  In a
    round (number at least 1) of a session with at most five
    participants, whatever order the shuffle produced, [assignCardTypes]
    gives every participant a role, and no role twice. *)
Theorem assignCardTypes_roles_distinct (order : list nat) (game : Game) :
  (length (Game.players game) <= 5)%nat ->
  1 <= Round.number (Game.round game) ->
  order ≡ₚ seq 0 (length (Game.players game)) ->
  let game' := assignCardTypes order game in
  length (Game.players game') = length (Game.players game)
  /\ Forall (fun p => is_Some (Player.currentCardType p)) (Game.players game')
  /\ NoDup (List.map Player.currentCardType (Game.players game'))
  /\ NoDup (omap Player.currentCardType (Game.players game')).
Proof.
  intros Hlen Hnum Hperm game'.
  set (n := length (Game.players game)) in *.
  set (offset := (Round.number (Game.round game) - 1) `mod` 5).
  assert (Hnd : NoDup order) by (rewrite Hperm; apply NoDup_seq).
  assert (Hlt : Forall (fun i => i < n)%nat order).
  { apply Forall_forall. intros i Hi. rewrite Hperm in Hi.
    apply elem_of_seq in Hi. lia. }
  assert (Hoff : roundOffset game = offset).
  { unfold roundOffset, js_rem, offset. change (Z.of_nat (length types)) with 5.
    apply Z.rem_mod_nonneg; lia. }
  assert (Hoff0 : 0 <= offset < 5) by (apply Z.mod_pos_bound; lia).
  assert (Hplayers : Game.players game'
            = forEachi (assignRole offset) 0 order (Game.players game)).
  { unfold game', assignCardTypes. simpl. fold n.
    by rewrite sort_random_seq, Hoff. }
  assert (Hsize : length (Game.players game') = n)
    by (by rewrite Hplayers, forEachi_assignRole_length).
  assert (Hrole : forall idx p,
            Game.players game' !! idx = Some p ->
            exists k,
              order !! k = Some idx /\ (k < 5)%nat
              /\ Player.currentCardType p
                 = types !! Z.to_nat ((Z.of_nat k + offset) `mod` 5)).
  { intros idx p Hp.
    assert (idx < n)%nat as Hidx
      by (rewrite <- Hsize; by eapply lookup_lt_Some).
    assert (idx ∈ order) as Hin
      by (rewrite Hperm; apply elem_of_seq; lia).
    apply list_elem_of_lookup in Hin as [k Hk].
    assert (k < 5)%nat as Hk5.
    { apply lookup_lt_Some in Hk.
      rewrite (Permutation_length Hperm), length_seq in Hk. lia. }
    exists k. split; [done|]. split; [done|].
    rewrite Hplayers in Hp.
    rewrite (forEachi_assignRole_at offset order 0 _ k idx) in Hp by done.
    change (0 + k)%nat with k in Hp.
    destruct (Game.players game !! idx) as [p0|]; [|done].
    injection Hp as <-.
    cbn [Player.currentCardType Player.with_currentCardType].
    unfold types_at, js_rem. change (Z.of_nat (length types)) with 5.
    change (Z.of_nat 5) with 5.
    rewrite Z.rem_mod_nonneg by lia.
    pose proof (Z.mod_pos_bound (Z.of_nat k + offset) 5 ltac:(lia)).
    by assert (((Z.of_nat k + offset) `mod` 5 <? 0) = false) as -> by lia. }
  assert (Hsome : Forall (fun p => is_Some (Player.currentCardType p))
                    (Game.players game')).
  { apply Forall_forall. intros p Hp.
    apply list_elem_of_lookup in Hp as [idx Hp].
    destruct (Hrole idx p Hp) as (k & _ & _ & ->).
    apply lookup_lt_is_Some.
    pose proof (Z.mod_pos_bound (Z.of_nat k + offset) 5 ltac:(lia)).
    change (length types) with 5%nat. lia. }
  assert (Hdistinct : NoDup (List.map Player.currentCardType
                               (Game.players game'))).
  { apply NoDup_alt. intros i j r Hi Hj.
    rewrite list_lookup_fmap in Hi, Hj.
    destruct (Game.players game' !! i) as [p1|] eqn:Hp1; [|done].
    destruct (Game.players game' !! j) as [p2|] eqn:Hp2; [|done].
    simpl in Hi, Hj.
    destruct (Hrole i p1 Hp1) as (k1 & Hk1 & Hb1 & Hr1).
    destruct (Hrole j p2 Hp2) as (k2 & Hk2 & Hb2 & Hr2).
    pose proof (Z.mod_pos_bound (Z.of_nat k1 + offset) 5 ltac:(lia)) as Hm1.
    pose proof (Z.mod_pos_bound (Z.of_nat k2 + offset) 5 ltac:(lia)) as Hm2.
    assert (Z.to_nat ((Z.of_nat k1 + offset) `mod` 5)
            = Z.to_nat ((Z.of_nat k2 + offset) `mod` 5)) as Heq.
    { assert (is_Some (Player.currentCardType p1)) as [t Ht]
        by (eapply Forall_forall in Hsome; [exact Hsome|];
            by eapply list_elem_of_lookup_2).
      eapply (NoDup_lookup types _ _ t).
      - apply (bool_decide_unpack _). vm_compute. exact I.
      - by rewrite <- Hr1.
      - rewrite <- Hr2. congruence. }
    assert (k1 = k2) as ->.
    { pose proof (Z.div_mod (Z.of_nat k1 + offset) 5 ltac:(lia)).
      pose proof (Z.div_mod (Z.of_nat k2 + offset) 5 ltac:(lia)).
      lia. }
    congruence. }
  split; [done|]. split; [done|]. split; [done|]. by apply NoDup_omap.
Qed.

(** ** The phases of a round *)

Lemma phaseMoves_refl s : phaseMoves s s.
Proof. by left. Qed.

Lemma phaseMoves_trans s1 s2 s3 :
  phaseMoves s1 s2 -> phaseMoves s2 s3 -> phaseMoves s1 s3.
Proof. intros H12 [->|H23]; [done|by right]. Qed.

Lemma phasesMove_refl games : phasesMove games games.
Proof. intros gid game Hg. eauto using phaseMoves_refl. Qed.

Lemma phasesMove_trans games1 games2 games3 :
  phasesMove games1 games2 -> phasesMove games2 games3 ->
  phasesMove games1 games3.
Proof.
  intros H12 H23 gid game3 Hg.
  destruct (H23 _ _ Hg) as (game2 & Hg2 & Hl2).
  destruct (H12 _ _ Hg2) as (game1 & Hg1 & Hl1).
  eauto using phaseMoves_trans.
Qed.

Lemma phasesMove_insert games gid game game' :
  games !! gid = Some game -> phaseMoves (phase game) (phase game') ->
  phasesMove games (<[gid:=game']> games).
Proof.
  intros Hg Hl gid' g'. destruct (decide (gid' = gid)) as [->|Hne].
  - rewrite lookup_insert_eq. intros [= <-]. eauto.
  - rewrite lookup_insert_ne by done. eauto using phaseMoves_refl.
Qed.

Lemma phasesMove_delete games gid : phasesMove games (delete gid games).
Proof.
  intros gid' g'. rewrite lookup_delete_Some. intros [_ Hg].
  eauto using phaseMoves_refl.
Qed.

Lemma phase_advanceIfAllSelected game :
  phaseMoves (phase game) (phase (advanceIfAllSelected game)).
Proof.
  unfold advanceIfAllSelected. destruct (allSelected game);
    [by right | by left].
Qed.

Lemma phase_markVoted voterId game : phase (markVoted voterId game) = phase game.
Proof. unfold markVoted. by destruct (List.find _ _). Qed.

Lemma phase_generateAIMorals_loop todo draws game :
  phase (generateAIMorals_loop todo draws game) = phase game.
Proof.
  revert draws game. induction todo as [|p todo IH]; intros draws game; simpl;
    [done|].
  destruct (needsMoral p); [|apply IH].
  destruct draws as [|d draws]; [done|]. by rewrite IH.
Qed.

Lemma phase_failsafe players game :
  phase (fold_left failsafeMoral players game) = phase game.
Proof.
  revert game. induction players as [|p players IH]; intros game; simpl;
    [done|].
  rewrite IH. unfold failsafeMoral. by destruct (needsMoral p).
Qed.

Lemma phasesMove_startNewRound cardData draws gid games :
  phasesMove games (startNewRound cardData draws gid games).
Proof.
  unfold startNewRound. destruct (games !! gid) as [game|] eqn:Hg;
    [|apply phasesMove_refl].
  destruct (bool_decide _); [apply phasesMove_refl|].
  destruct (_ >=? _); apply (phasesMove_insert _ _ game); try done;
    by right.
Qed.

Lemma phasesMove_removePlayer gid pid games :
  phasesMove games (fst (removePlayer gid pid games)).
Proof.
  unfold removePlayer. destruct (games !! gid) as [game|] eqn:Hg;
    [|apply phasesMove_refl].
  destruct (findIndex _ _) as [i|]; [|apply phasesMove_refl].
  destruct (_ =? _)%nat; [apply phasesMove_delete|].
  match goal with
  | |- context [Game.with_players ?ps game] =>
      set (game1 := Game.with_players ps game)
  end.
  destruct (bool_decide (Game.status game1 = gameStatus.ACTIVE));
    simpl; apply (phasesMove_insert _ _ game); try done; [|by left].
  set (game2 :=
         match findIndex (of_player pid) (Round.submissions (Game.round game1))
         with
         | Some submissionIndex =>
             Game.with_submissions
               (delete submissionIndex (Round.submissions (Game.round game1)))
               game1
         | None => game1
         end).
  assert (phase game2 = phase game) as <-
    by (unfold game2; by destruct (findIndex (of_player pid) _)).
  repeat (match goal with |- context [if ?b then _ else _] => destruct b end);
    first [ by left | by right | apply phase_advanceIfAllSelected ].
Qed.

(** Every step leaves each session it keeps in the same phase, or in a
    phase other than WAITING and DEALING; a session it creates is in
    WAITING. *)
Lemma step_phasesMove cardData games games' :
  step cardData games games' ->
  forall gid game',
    games' !! gid = Some game' ->
    (exists game, games !! gid = Some game
                  /\ phaseMoves (phase game) (phase game'))
    \/ games !! gid = None /\ phase game' = roundStatus.WAITING.
Proof.
  intros Hstep.
  assert (phasesMove games games'
          \/ exists candidates host gid,
               createGame candidates host games = Some (games', gid))
    as [Hmove|(cs & host & gid0 & Hc)].
  { destruct Hstep; eauto; left.
    - unfold joinGame. repeat case_match; try apply phasesMove_refl.
      eapply phasesMove_insert; [done|by left].
    - unfold startGame. destruct (games !! _) as [game|] eqn:Hg;
        [|apply phasesMove_refl].
      destruct (negb _); [apply phasesMove_refl|].
      destruct (_ <? _)%nat; [apply phasesMove_refl|]. simpl.
      eapply phasesMove_trans; [|apply phasesMove_startNewRound].
      apply (phasesMove_insert _ _ game); [done|by left].
    - apply phasesMove_startNewRound.
    - unfold updateCustomCard. repeat case_match; try apply phasesMove_refl.
      eapply phasesMove_insert; [done|by left].
    - unfold selectCard. destruct (games !! _) as [game|] eqn:Hg;
        [|apply phasesMove_refl].
      destruct (negb _); [apply phasesMove_refl|].
      destruct (List.find _ _); [|apply phasesMove_refl].
      destruct (Player.hand _); [|apply phasesMove_refl].
      destruct (findIndex _ _); [|apply phasesMove_refl].
      apply (phasesMove_insert _ _ game); [done|].
      match goal with
      | |- phaseMoves _ (phase (advanceIfAllSelected ?g)) =>
          change (phase game) with (phase g)
      end.
      apply phase_advanceIfAllSelected.
    - unfold makeAISelections_begin. repeat case_match;
        try apply phasesMove_refl.
      eapply phasesMove_insert; [done|by left].
    - unfold makeAISelections_pick. repeat case_match;
        try apply phasesMove_refl.
      eapply phasesMove_insert; [done|by left].
    - unfold makeAISelections_end. repeat case_match;
        try apply phasesMove_refl.
      eapply phasesMove_insert; [done|apply phase_advanceIfAllSelected].
    - unfold submitMoral. destruct (games !! _) as [game|] eqn:Hg;
        [|apply phasesMove_refl].
      destruct (negb _); [apply phasesMove_refl|].
      destruct (List.find _ _); [|apply phasesMove_refl].
      destruct (List.find _ _); [|apply phasesMove_refl].
      apply (phasesMove_insert _ _ game); [done|].
      destruct (_ && _); [by right | by left].
    - unfold generateAIMorals. destruct (games !! _) as [game|] eqn:Hg;
        [|apply phasesMove_refl].
      apply (phasesMove_insert _ _ game); [done|].
      rewrite phase_failsafe.
      destruct (_ && _); [by right|].
      rewrite phase_generateAIMorals_loop. by left.
    - unfold castVote. destruct (games !! _) as [game|] eqn:Hg;
        [|apply phasesMove_refl].
      destruct (negb _); [apply phasesMove_refl|].
      destruct (List.find _ _); [|apply phasesMove_refl].
      destruct (List.find _ _); [|apply phasesMove_refl].
      destruct (String.eqb _ _); [apply phasesMove_refl|].
      destruct (List.find _ _); [|apply phasesMove_refl].
      apply (phasesMove_insert _ _ game); [done|].
      left. unfold phase. simpl. apply phase_markVoted.
    - unfold aiThinks. repeat case_match; try apply phasesMove_refl.
      eapply phasesMove_insert; [done|by left].
    - unfold aiVotes. destruct (games !! _) as [game|] eqn:Hg;
        [|apply phasesMove_refl].
      repeat case_match; apply (phasesMove_insert _ _ game); try done;
        left; unfold phase; simpl; apply phase_markVoted.
    - unfold endRound. destruct (games !! _) as [game|] eqn:Hg;
        [|apply phasesMove_refl].
      destruct (bool_decide _); [apply phasesMove_refl|].
      apply (phasesMove_insert _ _ game); [done|].
      right. by destruct (_ >=? _).
    - apply phasesMove_removePlayer. }
  - intros gid game' Hg'. left. by apply Hmove.
  - intros gid game' Hg'. unfold createGame in Hc.
    destruct (generateGameId cs games) as [gid1|] eqn:Hid; [|done].
    injection Hc as <- <-. apply generateGameId_free in Hid.
    destruct (decide (gid = gid1)) as [->|Hne].
    + rewrite lookup_insert_eq in Hg'. injection Hg' as <-. by right.
    + rewrite lookup_insert_ne in Hg' by done. left.
      eauto using phaseMoves_refl.
Qed.

(** X30. A round never returns to WAITING and is never in DEALING.  In
    every registry the server can reach no session is in the DEALING
    phase; and whatever call the server makes next, a session that is
    still there afterwards is in WAITING only if it was before, and is
    still not in DEALING. *)
Theorem phase_never_waits_again (cardData : CardData)
    (games games' : gmap string Game) (gid : string) (game game' : Game) :
  reachable cardData games ->
  step cardData games games' ->
  games !! gid = Some game ->
  games' !! gid = Some game' ->
  phase game <> roundStatus.DEALING
  /\ phase game' <> roundStatus.DEALING
  /\ (phase game' = roundStatus.WAITING -> phase game = roundStatus.WAITING).
Proof.
  intros Hreach Hstep Hg Hg'.
  assert (forall gid game, games !! gid = Some game ->
            phase game <> roundStatus.DEALING) as Hinv.
  { unfold reachable in Hreach.
    apply (rtc_ind_r (R := step cardData)
             (fun games => forall gid game, games !! gid = Some game ->
                             phase game <> roundStatus.DEALING) ∅);
      [| |exact Hreach].
    - intros gid0 game0. by rewrite lookup_empty.
    - intros games1 games2 _ Hstep12 IH gid0 game2 Hg2.
      destruct (step_phasesMove _ _ _ Hstep12 _ _ Hg2)
        as [(game1 & Hg1 & [-> | [_ Hno]]) | [_ ->]]; eauto. }
  destruct (step_phasesMove _ _ _ Hstep _ _ Hg')
    as [(game0 & Hg0 & Hmove) | [Hnone _]]; [|congruence].
  replace game0 with game in * by congruence.
  pose proof (Hinv _ _ Hg) as Hno.
  split; [done|]. destruct Hmove as [Heq | [Hw Hd]].
  - rewrite Heq. split; done.
  - split; [done|]. intros Hwait. done.
Qed.

(** ** The properties on the sample session *)

(** Ada, the host, starts the sample lobby. *)
Lemma onStartGame_host_only_witness :
  exists host game',
    List.find (has_id "p1") (Game.players (sampleGame sampleLobby))
    = Some host
    /\ Player.isHost host = true
    /\ snd (onStartGame sampleCardData sampleFresh sampleDraws
              (sampleSocket "p1") "ABC123" sampleLobby) !! "ABC123"
       = Some game'
    /\ Game.status game' <> gameStatus.LOBBY.
Proof.
  destruct (onStartGame_host_only sampleCardData sampleFresh sampleDraws
              (sampleSocket "p1") "ABC123" sampleLobby
              (snd (onStartGame sampleCardData sampleFresh sampleDraws
                      (sampleSocket "p1") "ABC123" sampleLobby))
              ack_ok)
    as (pd & game & host & game' & Hpd & _ & Hg & _ & Hhost & Hflag & Hg' & Hs).
  - vm_compute. reflexivity.
  - reflexivity.
  - injection Hpd as <-.
    assert (game = sampleGame sampleLobby) as ->.
    { unfold sampleGame. by rewrite Hg. }
    exists host, game'. auto.
Defined.

(** The five votes of the first round become five points. *)
Lemma endRound_scores_votes_witness :
  exists game',
    endRound "ABC123" sampleVoted !! "ABC123" = Some game'
    /\ totalScore game' = 5%nat
    /\ Round.status (Game.round game') = roundStatus.RESULTS.
Proof.
  destruct (endRound_scores_votes "ABC123" sampleVoted (sampleGame sampleVoted))
    as (game' & Hg' & Hscore & Hs & _).
  - vm_compute. reflexivity.
  - vm_compute. discriminate.
  - apply (bool_decide_unpack _). vm_compute. exact I.
  - exists game'. split; [exact Hg'|]. split; [|exact Hs].
    rewrite Hscore. vm_compute. reflexivity.
Defined.

(** Starting the sample lobby takes it from LOBBY to ACTIVE. *)
Lemma status_never_goes_back_witness :
  Game.status (sampleGame sampleLobby) = gameStatus.LOBBY
  /\ Game.status (sampleGame sampleStarted) = gameStatus.ACTIVE
  /\ Game.settings (sampleGame sampleStarted)
     = Game.settings (sampleGame sampleLobby)
  /\ (statusRank (Game.status (sampleGame sampleLobby))
      <= statusRank (Game.status (sampleGame sampleStarted)))%nat.
Proof.
  destruct (status_never_goes_back sampleCardData sampleLobby
              (fst (startGame sampleCardData sampleFresh sampleDraws "ABC123"
                      sampleLobby))
              "ABC123" (sampleGame sampleLobby) (sampleGame sampleStarted))
    as (_ & Hset & Hrank & _).
  - apply step_startGame.
  - vm_compute. reflexivity.
  - vm_compute. reflexivity.
  - split; [vm_compute; reflexivity|]. split; [vm_compute; reflexivity|].
    split; [exact Hset | exact Hrank].
Defined.

Lemma session_within_settings_witness :
  Game.gameId (sampleGame sampleVoting) = "ABC123"
  /\ Game.settings (sampleGame sampleVoting) = Settings.mk 5 3
  /\ (length (Game.players (sampleGame sampleVoting)) <= 5)%nat
  /\ 0 <= Round.number (Game.round (sampleGame sampleVoting)) <= 3.
Proof.
  apply (session_within_settings sampleCardData sampleVoting "ABC123"
           (sampleGame sampleVoting) sampleVoting_reachable).
  vm_compute. reflexivity.
Defined.

(** An empty reply, a timeout and a reply: each simulated player of the
    sample session ends up with a moral. *)
Lemma generateAIMorals_completes_witness :
  exists game',
    generateAIMorals
      [ {| api := Responded ""; funnyPick := 0 |};
        {| api := TimedOut; funnyPick := 0 |};
        {| api := Responded "Every exit is also an entrance.";
           funnyPick := 0 |} ]
      "ABC123" sampleStorytelling !! "ABC123" = Some game'
    /\ List.map Player.submittedMoral (Game.players game')
       = [null; null;
          value "The moral is: some stories write themselves.";
          value (generateFallbackMoral
                   (Round.story (Game.round (sampleGame sampleStorytelling))));
          value "Every exit is also an entrance."].
Proof.
  destruct (generateAIMorals_completes
              [ {| api := Responded ""; funnyPick := 0 |};
                {| api := TimedOut; funnyPick := 0 |};
                {| api := Responded "Every exit is also an entrance.";
                   funnyPick := 0 |} ]
              "ABC123" sampleStorytelling (sampleGame sampleStorytelling))
    as (game' & Hg' & _).
  - vm_compute. reflexivity.
  - apply (bool_decide_unpack _). vm_compute. exact I.
  - exists game'. split; [exact Hg'|].
    vm_compute in Hg'. injection Hg' as <-. vm_compute. reflexivity.
Defined.

(** The second round of the sample session keeps the scores of the
    first and clears the selections, the morals and the vote flags. *)
Lemma startNewRound_resets_witness :
  exists game',
    startNewRound sampleCardData sampleDraws "ABC123" sampleResults
    !! "ABC123" = Some game'
    /\ Game.round game' = Round.mk 2 roundStatus.SELECTION "" []
    /\ List.map
         (fun p => (Player.id p, Player.score p, Player.selectedCard p,
                    Player.hasVoted p))
         (Game.players (sampleGame sampleResults))
       = [("p1"%string, 1%nat, value 13, true);
          ("p2"%string, 1%nat, value 32, true);
          ("a1"%string, 1%nat, value 2, true);
          ("a2"%string, 2%nat, value 43, true);
          ("a3"%string, 0%nat, value 23, true)]
    /\ List.map
         (fun p => (Player.id p, Player.score p, Player.selectedCard p,
                    Player.submittedMoral p, Player.hasVoted p))
         (Game.players game')
       = [("p1"%string, 1%nat, null, null, false);
          ("p2"%string, 1%nat, null, null, false);
          ("a1"%string, 1%nat, null, null, false);
          ("a2"%string, 2%nat, null, null, false);
          ("a3"%string, 0%nat, null, null, false)].
Proof.
  destruct (startNewRound_resets sampleCardData sampleDraws "ABC123"
              sampleResults (sampleGame sampleResults))
    as (game' & Hg' & _ & _ & _ & Hr & Hp).
  - vm_compute. reflexivity.
  - vm_compute. discriminate.
  - vm_compute. reflexivity.
  - exists game'. split; [exact Hg'|].
    split; [rewrite Hr; vm_compute; reflexivity|].
    split; [vm_compute; reflexivity|].
    vm_compute in Hg'. injection Hg' as <-. vm_compute. reflexivity.
Defined.

(** The lobby of two is filled with three simulated players. *)
Lemma startGame_fills_to_five_witness :
  exists game',
    fst (startGame sampleCardData sampleFresh sampleDraws "ABC123"
           sampleLobby) !! "ABC123" = Some game'
    /\ Game.status game' = gameStatus.ACTIVE
    /\ Game.round game' = Round.mk 1 roundStatus.SELECTION "" []
    /\ List.map
         (fun p => (Player.id p, Player.isAI p, Player.isHost p,
                    Player.score p, Player.selectedCard p))
         (Game.players game')
       = [("p1"%string, false, true, 0%nat, null);
          ("p2"%string, false, false, 0%nat, null);
          ("a1"%string, true, false, 0%nat, null);
          ("a2"%string, true, false, 0%nat, null);
          ("a3"%string, true, false, 0%nat, null)].
Proof.
  destruct (startGame_fills_to_five sampleCardData sampleFresh sampleDraws
              "ABC123" sampleLobby (sampleGame sampleLobby))
    as (game' & _ & Hg' & Hs & Hr & _).
  - vm_compute. reflexivity.
  - vm_compute. reflexivity.
  - vm_compute. reflexivity.
  - vm_compute. lia.
  - vm_compute. discriminate.
  - vm_compute. reflexivity.
  - exists game'. split; [exact Hg'|]. split; [exact Hs|]. split; [exact Hr|].
    vm_compute in Hg'. injection Hg' as <-. vm_compute. reflexivity.
Defined.

(** Ada writes on her blank card, and tries to write on a deck card. *)
Lemma custom_text_only_on_custom_cards_witness :
  (exists game',
     fst (updateCustomCard "ABC123" "p1" 10000 "a janitor" sampleStarted)
     !! "ABC123" = Some game'
     /\ Forall2 (handKept "p1") (Game.players (sampleGame sampleStarted))
          (Game.players game'))
  /\ (exists game',
        fst (selectCard "ABC123" "p1" 13 (Some "a janitor") sampleStarted)
        !! "ABC123" = Some game'
        /\ Forall2 (handKept "p1") (Game.players (sampleGame sampleStarted))
             (Game.players game')).
Proof.
  destruct (custom_text_only_on_custom_cards "ABC123" "p1" 10000 "a janitor"
              None sampleStarted (sampleGame sampleStarted)) as [Hupdate _];
    [vm_compute; reflexivity|].
  destruct (custom_text_only_on_custom_cards "ABC123" "p1" 13 "a janitor"
              (Some "a janitor") sampleStarted (sampleGame sampleStarted))
    as [_ Hselect]; [vm_compute; reflexivity|].
  split.
  - exists (sampleGame
              (fst (updateCustomCard "ABC123" "p1" 10000 "a janitor"
                      sampleStarted))).
    assert (fst (updateCustomCard "ABC123" "p1" 10000 "a janitor" sampleStarted)
            !! "ABC123"
            = Some (sampleGame
                      (fst (updateCustomCard "ABC123" "p1" 10000 "a janitor"
                              sampleStarted)))) as Hg
      by (vm_compute; reflexivity).
    split; [exact Hg | exact (Hupdate _ Hg)].
  - exists (sampleGame
              (fst (selectCard "ABC123" "p1" 13 (Some "a janitor")
                      sampleStarted))).
    assert (fst (selectCard "ABC123" "p1" 13 (Some "a janitor") sampleStarted)
            !! "ABC123"
            = Some (sampleGame
                      (fst (selectCard "ABC123" "p1" 13 (Some "a janitor")
                              sampleStarted)))) as Hg
      by (vm_compute; reflexivity).
    split; [exact Hg | exact (Hselect _ Hg)].
Defined.

(** Ada's moral is the first of the round: the vote does not open yet. *)
Lemma submitMoral_opens_vote_witness :
  exists game' p,
    fst (submitMoral "ABC123" "p1" "Read the small print." sampleStorytelling)
    !! "ABC123" = Some game'
    /\ List.find (has_id "p1") (Game.players game') = Some p
    /\ Player.submittedMoral p = value "Read the small print."
    /\ Round.status (Game.round game') = roundStatus.STORYTELLING.
Proof.
  destruct (submitMoral_opens_vote "ABC123" "p1" "Read the small print."
              sampleStorytelling
              (fst (submitMoral "ABC123" "p1" "Read the small print."
                      sampleStorytelling)))
    as (game & game' & p & s & _ & Hg' & _ & _ & _ & _ & _ & Hp & _ & _ & Hs).
  - vm_compute. reflexivity.
  - exists game', (Player.with_submittedMoral (value "Read the small print.") p).
    split; [exact Hg'|]. split; [exact Hp|]. split; [reflexivity|].
    apply Hs. vm_compute in Hg'. injection Hg' as <-. vm_compute. discriminate.
Defined.

(** Ada has voted: the view she is sent says so twice. *)
Lemma sanitize_vote_flags_agree_witness :
  exists p' s',
    List.find (has_id "p1")
      (Game.players
         (sanitizeGameStateForPlayer (sampleGame sampleVoted) "p1"))
    = Some p'
    /\ List.find (of_player "p1")
         (Round.submissions
            (Game.round
               (sanitizeGameStateForPlayer (sampleGame sampleVoted) "p1")))
       = Some s'
    /\ Player.hasVoted p' = true
    /\ Submission.hasVoted s' = true.
Proof.
  destruct (List.find (has_id "p1") (Game.players (sampleGame sampleVoted)))
    as [p|] eqn:Hp; [|vm_compute in Hp; discriminate].
  destruct (List.find (of_player "p1")
              (Round.submissions (Game.round (sampleGame sampleVoted))))
    as [s|] eqn:Hs; [|vm_compute in Hs; discriminate].
  destruct (sanitize_vote_flags_agree (sampleGame sampleVoted) "p1" p s)
    as (p' & s' & Hp' & Hs' & Hv & Hv' & _).
  - vm_compute. reflexivity.
  - exact Hp.
  - exact Hs.
  - exists p', s'. split; [exact Hp'|]. split; [exact Hs'|].
    rewrite Hv, Hv'. vm_compute in Hp. injection Hp as <-. split; reflexivity.
Defined.

(** A second session, created while the sample one is there, skips the
    id that is in use. *)
Lemma createGame_fresh_witness :
  exists games',
    createGame ["ABC123"; "XYZ789"] (newPlayer "p9" "Cy") sampleVoting
    = Some (games', "XYZ789")
    /\ sampleVoting !! "XYZ789" = None
    /\ games' !! "ABC123" = sampleVoting !! "ABC123".
Proof.
  set (games' :=
         match createGame ["ABC123"; "XYZ789"] (newPlayer "p9" "Cy")
                 sampleVoting with
         | Some (games', _) => games'
         | None => ∅
         end).
  assert (createGame ["ABC123"; "XYZ789"] (newPlayer "p9" "Cy") sampleVoting
          = Some (games', "XYZ789")) as Hc by (vm_compute; reflexivity).
  destruct (createGame_fresh _ _ _ _ _ Hc) as (Hfree & _ & _ & Hother).
  exists games'. split; [exact Hc|]. split; [exact Hfree|].
  apply Hother. discriminate.
Defined.

(** The narrative of the first round of the sample session. *)
Lemma assembleStory_from_roles_witness :
  Round.story (Game.round (assembleStory (sampleGame sampleStorytelling)))
  = "In a lighthouse , a door-to-door salesman  NOTICES his own face on every poster . But then, everyone forgets his name  ALL BECAUSE tomorrow had already happened"
  /\ Round.story
       (Game.round
          (assembleStory
             (sampleGame
                (fst (selectCard "ABC123" "p1" 10000 None sampleStarted)))))
     = ", a strange character"
  /\ holderCard (Game.players (sampleGame sampleStorytelling)) LOCATION
     = Some (deckCard 2 "lighthouse" "location").
Proof.
  pose proof (assembleStory_from_roles (sampleGame sampleStorytelling)) as H.
  pose proof (assembleStory_from_roles
                (sampleGame
                   (fst (selectCard "ABC123" "p1" 10000 None sampleStarted))))
    as H'.
  cbv zeta in H, H'. split; [|split].
  - rewrite (proj1 (H ltac:(apply (bool_decide_unpack _); vm_compute;
                             exact I))).
    vm_compute. reflexivity.
  - rewrite (proj1 (H' ltac:(apply (bool_decide_unpack _); vm_compute;
                              exact I))).
    vm_compute. reflexivity.
  - vm_compute. reflexivity.
Defined.

(** The three simulated players of the sample session pick, which opens
    the storytelling. *)
Lemma makeAISelections_picks_from_hand_witness :
  exists game',
    makeAISelections [1 # 3; 2 # 3; 1 # 10] "ABC123" sampleSelecting
    !! "ABC123" = Some game'
    /\ List.map Player.selectedCard (Game.players game')
       = [value 13; value 32; value 2; value 43; value 23]
    /\ Round.status (Game.round game') = roundStatus.STORYTELLING.
Proof.
  destruct (makeAISelections_picks_from_hand [1 # 3; 2 # 3; 1 # 10] "ABC123"
              sampleSelecting (sampleGame sampleSelecting))
    as (game' & Hg' & _ & Hs & _).
  - vm_compute. reflexivity.
  - vm_compute. reflexivity.
  - apply (bool_decide_unpack _). vm_compute. exact I.
  - vm_compute. lia.
  - repeat (apply Forall_cons; split;
            [split; [vm_compute; discriminate | vm_compute; reflexivity]|]).
    apply Forall_nil. exact I.
  - exists game'. split; [exact Hg'|].
    assert (game'
            = sampleGame
                (makeAISelections [1 # 3; 2 # 3; 1 # 10] "ABC123"
                   sampleSelecting)) as Hgame.
    { unfold sampleGame. rewrite Hg'. reflexivity. }
    split.
    + rewrite Hgame. vm_compute. reflexivity.
    + apply Hs.
      * vm_compute. discriminate.
      * rewrite Hgame. apply (bool_decide_unpack _). vm_compute. exact I.
Defined.

(** Ada picks first: the simulated selections are started. *)
Lemma onSelectCard_follow_up_witness :
  exists game',
    snd (fst (onSelectCard (sampleSocket "p1") "ABC123" 13 None sampleStarted))
    !! "ABC123" = Some game'
    /\ allSelected game' = false
    /\ snd (onSelectCard (sampleSocket "p1") "ABC123" 13 None sampleStarted)
       = Some AISelections.
Proof.
  destruct (onSelectCard_follow_up (sampleSocket "p1") "ABC123" 13 None
              sampleStarted
              (snd (fst (onSelectCard (sampleSocket "p1") "ABC123" 13 None
                           sampleStarted)))
              (Some ack_ok) (Some AISelections))
    as (a & Ha & Hnext).
  - vm_compute. reflexivity.
  - injection Ha as <-.
    destruct (Hnext eq_refl) as (game' & Hg' & [(_ & Hall & _) | (Hno & _)]);
      [|discriminate].
    exists game'. split; [exact Hg'|]. split; [exact Hall|].
    vm_compute. reflexivity.
Defined.

(** Cy joins the sample lobby. *)
Lemma onJoinGame_adds_last_witness :
  exists game,
    sampleLobby !! "ABC123" = Some game
    /\ snd (fst (onJoinGame "p3" None "ABC123" "Cy" sampleLobby))
       = Some {| playerId := "p3"; gameId := "ABC123" |}
    /\ snd (onJoinGame "p3" None "ABC123" "Cy" sampleLobby)
       = <["ABC123":=Game.with_players
                       (Game.players game ++ [newPlayer "p3" "Cy"]) game]>
           sampleLobby.
Proof.
  destruct (onJoinGame_adds_last "p3" None "ABC123" "Cy" sampleLobby
              (snd (onJoinGame "p3" None "ABC123" "Cy" sampleLobby)) ack_ok
              (snd (fst (onJoinGame "p3" None "ABC123" "Cy" sampleLobby))))
    as (game & Hg & _ & _ & _ & _ & Hpd & Hgames).
  - vm_compute. reflexivity.
  - reflexivity.
  - exists game. split; [exact Hg|]. split; [exact Hpd | exact Hgames].
Defined.

(** Bo is the second and last human to vote: the simulated players are
    set to think, and the end of the round is scheduled. *)
Lemma castVote_schedules_when_humans_voted_witness :
  exists game',
    fst (fst (castVote "ABC123" "p2" "p1"
                (fst (fst (castVote "ABC123" "p1" "p2" sampleVoting)))))
    !! "ABC123" = Some game'
    /\ snd (castVote "ABC123" "p1" "p2" sampleVoting) = []
    /\ snd (castVote "ABC123" "p2" "p1"
              (fst (fst (castVote "ABC123" "p1" "p2" sampleVoting))))
       = [AIThinks "ABC123" "a1"; AIThinks "ABC123" "a2";
          AIThinks "ABC123" "a3"; EndRound "ABC123"].
Proof.
  set (games1 := fst (fst (castVote "ABC123" "p1" "p2" sampleVoting))).
  destruct (castVote_schedules_when_humans_voted "ABC123" "p2" "p1" games1
              (fst (fst (castVote "ABC123" "p2" "p1" games1)))
              (snd (castVote "ABC123" "p2" "p1" games1))
              (sampleGame games1))
    as (game' & Hg' & _).
  - vm_compute. reflexivity.
  - apply (bool_decide_unpack _). vm_compute. exact I.
  - vm_compute. reflexivity.
  - vm_compute. reflexivity.
  - exists game'. split; [exact Hg'|].
    split; vm_compute; reflexivity.
Defined.

(** Both humans of the sample session are dealt a blank card. *)
Lemma dealCards_custom_ids_witness :
  List.map Card.id
    (customCards
       (Game.players
          (dealCards sampleCardData
             [sampleDeal [2; 0; 1; 3]%nat (1 # 10);
              sampleDeal [1; 2; 0; 3]%nat (1 # 10);
              sampleDeal [3; 1; 0; 2]%nat (1 # 20);
              sampleDeal [0; 3; 2; 1]%nat (9 # 10);
              sampleDeal [2; 1; 3; 0]%nat (3 # 10)]
             (sampleGame sampleStarted))))
  = [10000; 10001].
Proof.
  destruct (dealCards_custom_ids sampleCardData)
    with (draws := [sampleDeal [2; 0; 1; 3]%nat (1 # 10);
                    sampleDeal [1; 2; 0; 3]%nat (1 # 10);
                    sampleDeal [3; 1; 0; 2]%nat (1 # 20);
                    sampleDeal [0; 3; 2; 1]%nat (9 # 10);
                    sampleDeal [2; 1; 3; 0]%nat (3 # 10)])
         (game := sampleGame sampleStarted) as [Hids _].
  - repeat (constructor; [reflexivity|]). constructor.
  - vm_compute. lia.
  - rewrite Hids. vm_compute. reflexivity.
Defined.

(** Bo, the only one who has not picked, leaves: the story is told by
    the four others. *)
Lemma removePlayer_moves_round_on_witness :
  exists game',
    fst (removePlayer "ABC123" "p2" sampleAwaitingBo) !! "ABC123" = Some game'
    /\ Round.status (Game.round (sampleGame sampleAwaitingBo))
       = roundStatus.SELECTION
    /\ Round.status (Game.round game') = roundStatus.STORYTELLING
    /\ List.map Submission.playerId (Round.submissions (Game.round game'))
       = ["p1"; "a1"; "a2"; "a3"]
    /\ Round.story (Game.round game')
       = "In a lighthouse , a door-to-door salesman  NOTICES his own face on every poster  ALL BECAUSE tomorrow had already happened"%string.
Proof.
  destruct (removePlayer_moves_round_on "ABC123" "p2" sampleAwaitingBo
              (sampleGame sampleAwaitingBo) 1)
    as (game' & Hg' & _ & Hp & Hround).
  - vm_compute. reflexivity.
  - vm_compute. reflexivity.
  - vm_compute. reflexivity.
  - vm_compute. discriminate.
  - exists game'. split; [exact Hg'|]. split; [vm_compute; reflexivity|].
    assert (forallb (fun p => not_null (Player.selectedCard p))
              (delete 1%nat (Game.players (sampleGame sampleAwaitingBo)))
            = true) as Hall by (vm_compute; reflexivity).
    assert (Round.status (Game.round (sampleGame sampleAwaitingBo))
            = roundStatus.SELECTION) as Hsel by (vm_compute; reflexivity).
    cbv zeta in Hround. rewrite Hsel, Hall in Hround.
    destruct Hround as (Hs & Hsubs & Hstory).
    split; [exact Hs|]. split; [rewrite Hsubs, Hp; vm_compute; reflexivity|].
    rewrite Hstory, Hp; [vm_compute; reflexivity|].
    rewrite Hp. apply (bool_decide_unpack _). vm_compute. exact I.
Defined.

(** Ada's socket is bound to the sample session, not to another one. *)
Lemma unbound_socket_is_refused_witness :
  onCastVote (sampleSocket "p1") "OTHER1" "p2" sampleVoting
  = (ack_error "Not authorized to cast a vote", sampleVoting, [])
  /\ onNextRound sampleCardData sampleDraws (sampleSocket "p1") "OTHER1"
       sampleVoting
     = (ack_error "Not authorized for this game", sampleVoting).
Proof.
  destruct (unbound_socket_is_refused sampleCardData sampleFresh sampleDraws []
              (sampleSocket "p1") "OTHER1" "p2" "" "" 0 None sampleVoting)
    as (_ & _ & _ & _ & Hvote & Hnext & _).
  - reflexivity.
  - split; [exact Hvote | exact Hnext].
Defined.

(** The end of the first round of the sample session takes the second
    simulated player from no point to its votes. *)
Lemma scores_never_go_down_witness :
  exists p q,
    List.find (has_id "a2") (Game.players (sampleGame sampleVoted)) = Some p
    /\ List.find (has_id "a2")
         (Game.players (sampleGame (endRound "ABC123" sampleVoted))) = Some q
    /\ (Player.score p <= Player.score q)%nat.
Proof.
  destruct (List.find (has_id "a2") (Game.players (sampleGame sampleVoted)))
    as [p|] eqn:Hp; [|vm_compute in Hp; discriminate].
  destruct (List.find (has_id "a2")
              (Game.players (sampleGame (endRound "ABC123" sampleVoted))))
    as [q|] eqn:Hq; [|vm_compute in Hq; discriminate].
  exists p, q. split; [reflexivity|]. split; [reflexivity|].
  apply (scores_never_go_down sampleCardData sampleVoted
           (endRound "ABC123" sampleVoted) "ABC123" "a2"
           (sampleGame sampleVoted)
           (sampleGame (endRound "ABC123" sampleVoted)) p q).
  - apply step_endRound.
  - vm_compute. reflexivity.
  - vm_compute. reflexivity.
  - apply (bool_decide_unpack _). vm_compute. exact I.
  - exact Hp.
  - exact Hq.
Defined.

(** Bo has left after the first round: the four who remain get four
    different roles. *)
Lemma assignCardTypes_roles_distinct_witness :
  length (Game.players
            (sampleGame (fst (removePlayer "ABC123" "p2" sampleResults))))
  = 4%nat
  /\ NoDup
       (omap Player.currentCardType
          (Game.players
             (assignCardTypes [2; 0; 3; 1]%nat
                (sampleGame
                   (fst (removePlayer "ABC123" "p2" sampleResults)))))).
Proof.
  assert (length (Game.players
                    (sampleGame
                       (fst (removePlayer "ABC123" "p2" sampleResults))))
          = 4%nat) as Hlen by (vm_compute; reflexivity).
  split; [exact Hlen|].
  refine (proj2 (proj2 (proj2
            (assignCardTypes_roles_distinct [2; 0; 3; 1]%nat
               (sampleGame (fst (removePlayer "ABC123" "p2" sampleResults)))
               _ _ _)))).
  - rewrite Hlen. lia.
  - vm_compute. discriminate.
  - rewrite Hlen. solve_perm.
Defined.

(** Ending the first round of the sample session early takes it from
    VOTING to RESULTS. *)
Lemma phase_never_waits_again_witness :
  phase (sampleGame sampleVoting) <> roundStatus.DEALING
  /\ phase (sampleGame (endRound "ABC123" sampleVoting))
     <> roundStatus.DEALING
  /\ (phase (sampleGame (endRound "ABC123" sampleVoting))
      = roundStatus.WAITING ->
      phase (sampleGame sampleVoting) = roundStatus.WAITING).
Proof.
  apply (phase_never_waits_again sampleCardData sampleVoting
           (endRound "ABC123" sampleVoting) "ABC123").
  - apply sampleVoting_reachable.
  - apply step_endRound.
  - vm_compute. reflexivity.
  - vm_compute. reflexivity.
Defined.

(** What the first simulated player is shown while the others pick, and
    during the vote. *)
Lemma sanitize_hides_hands_witness :
  Forall2
    (shownAs (Round.status (Game.round (sampleGame sampleSelecting))) "a1")
    (Game.players (sampleGame sampleSelecting))
    (Game.players (sanitizeGameStateForPlayer (sampleGame sampleSelecting)
                     "a1"))
  /\ Round.status (Game.round (sampleGame sampleSelecting))
     = roundStatus.SELECTION
  /\ List.map
       (fun q => (Player.id q, Player.selectedCard q,
                  List.map Card.text <$> Player.hand q))
       (Game.players
          (sanitizeGameStateForPlayer (sampleGame sampleSelecting) "a1"))
     = [("p1", value 13, Some ["Hidden Card"; "Hidden Card"; "Hidden Card"]);
        ("p2", value 32, Some ["Hidden Card"; "Hidden Card"; "Hidden Card"]);
        ("a1", null,
         Some ["train station"; "lighthouse"; "diner at the edge of town"]);
        ("a2", null, Some ["Hidden Card"; "Hidden Card"; "Hidden Card"]);
        ("a3", null, Some ["Hidden Card"; "Hidden Card"; "Hidden Card"])]
  /\ List.map
       (fun q => (Player.id q, List.map Card.id <$> Player.hand q))
       (Game.players
          (sanitizeGameStateForPlayer (sampleGame sampleVoting) "a1"))
     = [("p1", Some [13]); ("p2", Some [32]); ("a1", Some [4; 2; 1]);
        ("a2", Some [43]); ("a3", Some [23])].
Proof.
  split; [|repeat match goal with |- _ /\ _ => split end;
           vm_compute; reflexivity].
  apply (sanitize_hides_hands (sampleGame sampleSelecting) "a1").
Defined.

(** A reply of 80 accented letters, 160 bytes long, is returned whole;
    one of 151 is cut to 147 letters and three dots. *)
Lemma generateAIMoral_at_most_150_witness :
  js_length (sampleAccents 80) = 80%nat
  /\ String.length (sampleAccents 80) = 160%nat
  /\ generateAIMoral "In a lighthouse" (Responded (sampleAccents 80))
     = Returned (sampleAccents 80)
  /\ generateAIMoral "In a lighthouse" (Responded (sampleAccents 151))
     = Returned (String.append (sampleAccents 147) "...").
Proof.
  split; [vm_compute; reflexivity|]. split; [vm_compute; reflexivity|].
  split.
  - destruct (generateAIMoral_at_most_150 "In a lighthouse"
                (Responded (sampleAccents 80))) as (moral & Hret & _ & Hreply).
    specialize (Hreply _ eq_refl).
    assert ((js_length (sampleAccents 80) <=? 150)%nat = true) as Hshort
      by (vm_compute; reflexivity).
    rewrite Hshort in Hreply. by rewrite Hret, Hreply.
  - destruct (generateAIMoral_at_most_150 "In a lighthouse"
                (Responded (sampleAccents 151)))
      as (moral & Hret & _ & Hreply).
    rewrite Hret. vm_compute in Hret. injection Hret as <-.
    vm_compute. reflexivity.
Defined.
